(** * Car rental record store: codec, flat-file repositories, day counting

    A shallow embedding of [car_rental.py]: the fixed-width UTF-8 field
    codec ([fixed_bytes], [bytes_to_str]), the three record layouts
    ([Car], [Customer], [Contract] with [pack]/[unpack]), the flat-file
    repositories ([BinaryRepository] and its three subclasses), the
    customer hard delete of the menu, and the day count and cost estimate
    of the contract operations.

    Conventions.
    - A Python [str] is the list of its code points ([list Z]); a Python
      [bytes] is a [list byte].
    - A Python [float] is its IEEE-754 binary64 bit pattern (a [Z] below
      [2^64]); arithmetic on floats goes through [SpecFloat].
    - A Python call that can raise returns a [result]; code that touches
      files takes the file system [fs], a map from paths to contents, and
      gives back the one it leaves.

    The definitions come first, in the order of the source; the proofs
    follow. *)

From Stdlib Require Import ZArith Lia Strings.Byte Floats.SpecFloat.
From stdpp Require Import base option list strings gmap.

Local Open Scope Z_scope.

(** ** Exceptions *)

Inductive exn :=
  | UnicodeEncodeError
  | UnicodeDecodeError
  | StructError
  | ValueError
  | OverflowError
  | FileNotFoundError
  | OSError.

Inductive result (A : Type) :=
  | Ok (a : A)
  | Raise (e : exn).
Arguments Ok {A} a.
Arguments Raise {A} e.

#[global] Instance result_ret : MRet result := @Ok.
#[global] Instance result_bind : MBind result := fun A B f m =>
  match m with Ok a => f a | Raise e => Raise e end.
#[global] Instance result_fmap : FMap result := fun A B f m =>
  match m with Ok a => Ok (f a) | Raise e => Raise e end.

Definition is_Ok {A} (r : result A) : Prop := exists a, r = Ok a.

(** ** Bytes and text *)

Abbreviation bytes := (list byte).
Abbreviation str := (list Z).

Definition Z_of_byte (b : byte) : Z := Z.of_N (Byte.to_N b).

Definition byte_of_Z (z : Z) : byte :=
  match Byte.of_N (Z.to_N z) with
  | Some b => b
  | None => x00
  end.

(** The code points of an ASCII literal. *)
Definition lit (s : string) : str :=
  map (fun a => Z.of_N (Ascii.N_of_ascii a)) (String.list_ascii_of_string s).

Definition space : byte := x20.

Definition len {A} (l : list A) : Z := Z.of_nat (length l).

(** [l[:n]], with Python's reading of a negative bound. *)
Definition slice_to {A} (l : list A) (n : Z) : list A :=
  if n <? 0 then take (Z.to_nat (len l + n)) l else take (Z.to_nat n) l.

(** ** UTF-8 *)

(** [str.encode('utf-8')]: surrogates are refused; values that are no
    code points at all cannot occur in a [str] and are refused too. *)
Definition utf8_encode_char (ch : Z) : result bytes :=
  if ch <? 0 then Raise UnicodeEncodeError
  else if ch <? 0x80 then Ok [byte_of_Z ch]
  else if ch <? 0x800 then
    Ok [byte_of_Z (Z.lor 0xC0 (Z.shiftr ch 6));
        byte_of_Z (Z.lor 0x80 (Z.land ch 0x3F))]
  else if (0xD800 <=? ch) && (ch <=? 0xDFFF) then Raise UnicodeEncodeError
  else if ch <? 0x10000 then
    Ok [byte_of_Z (Z.lor 0xE0 (Z.shiftr ch 12));
        byte_of_Z (Z.lor 0x80 (Z.land (Z.shiftr ch 6) 0x3F));
        byte_of_Z (Z.lor 0x80 (Z.land ch 0x3F))]
  else if ch <=? 0x10FFFF then
    Ok [byte_of_Z (Z.lor 0xF0 (Z.shiftr ch 18));
        byte_of_Z (Z.lor 0x80 (Z.land (Z.shiftr ch 12) 0x3F));
        byte_of_Z (Z.lor 0x80 (Z.land (Z.shiftr ch 6) 0x3F));
        byte_of_Z (Z.lor 0x80 (Z.land ch 0x3F))]
  else Raise UnicodeEncodeError.

Fixpoint utf8_encode (s : str) : result bytes :=
  match s with
  | [] => Ok []
  | ch :: s' =>
      b ← utf8_encode_char ch;
      r ← utf8_encode s';
      Ok (b ++ r)
  end.

Inductive error_handler := Strict | Ignore.

Definition IS_CONTINUATION_BYTE (ch : Z) : bool := (0x80 <=? ch) && (ch <? 0xC0).

(** What the decoder does with an ill-formed stretch: [strict] raises,
    [ignore] drops the stretch and goes on with [k]. *)
Definition decode_error (errors : error_handler) (k : result str) : result str :=
  match errors with
  | Strict => Raise UnicodeDecodeError
  | Ignore => k
  end.

Definition emit (ch : Z) (k : result str) : result str := cons ch <$> k.

(** [bytes.decode('utf-8', errors)]. An invalid start byte is a stretch
    of one byte; an invalid continuation ends the stretch before the
    offending byte; data that ends inside a sequence is a stretch up to
    the end. *)
Fixpoint utf8_decode (errors : error_handler) (s : bytes) {struct s} : result str :=
  match s with
  | [] => Ok []
  | c1 :: s1 =>
    let ch := Z_of_byte c1 in
    if ch <? 0x80 then emit ch (utf8_decode errors s1)
    else if ch <? 0xC2 then decode_error errors (utf8_decode errors s1)
    else if ch <? 0xE0 then
      match s1 with
      | [] => decode_error errors (Ok [])
      | c2 :: s2 =>
        let ch2 := Z_of_byte c2 in
        if negb (IS_CONTINUATION_BYTE ch2)
        then decode_error errors (utf8_decode errors s1)
        else emit (Z.shiftl ch 6 + ch2 - (Z.shiftl 0xC0 6 + 0x80))
                  (utf8_decode errors s2)
      end
    else if ch <? 0xF0 then
      match s1 with
      | [] => decode_error errors (Ok [])
      | c2 :: s2 =>
        let ch2 := Z_of_byte c2 in
        if negb (IS_CONTINUATION_BYTE ch2)
           || (if ch2 <? 0xA0 then ch =? 0xE0 else ch =? 0xED)
        then decode_error errors (utf8_decode errors s1)
        else
          match s2 with
          | [] => decode_error errors (Ok [])
          | c3 :: s3 =>
            let ch3 := Z_of_byte c3 in
            if negb (IS_CONTINUATION_BYTE ch3)
            then decode_error errors (utf8_decode errors s2)
            else emit (Z.shiftl ch 12 + Z.shiftl ch2 6 + ch3
                       - (Z.shiftl 0xE0 12 + Z.shiftl 0x80 6 + 0x80))
                      (utf8_decode errors s3)
          end
      end
    else if ch <? 0xF5 then
      match s1 with
      | [] => decode_error errors (Ok [])
      | c2 :: s2 =>
        let ch2 := Z_of_byte c2 in
        if negb (IS_CONTINUATION_BYTE ch2)
           || (if ch2 <? 0x90 then ch =? 0xF0 else ch =? 0xF4)
        then decode_error errors (utf8_decode errors s1)
        else
          match s2 with
          | [] => decode_error errors (Ok [])
          | c3 :: s3 =>
            let ch3 := Z_of_byte c3 in
            if negb (IS_CONTINUATION_BYTE ch3)
            then decode_error errors (utf8_decode errors s2)
            else
              match s3 with
              | [] => decode_error errors (Ok [])
              | c4 :: s4 =>
                let ch4 := Z_of_byte c4 in
                if negb (IS_CONTINUATION_BYTE ch4)
                then decode_error errors (utf8_decode errors s3)
                else emit (Z.shiftl ch 18 + Z.shiftl ch2 12 + Z.shiftl ch3 6 + ch4
                           - (Z.shiftl 0xF0 18 + Z.shiftl 0x80 12
                              + Z.shiftl 0x80 6 + 0x80))
                          (utf8_decode errors s4)
              end
          end
      end
    else decode_error errors (utf8_decode errors s1)
  end.

(** ** Fixed-width text fields *)

(** [fixed_bytes(s, length)]; [s or ''] is [s] for a [str]. *)
Definition fixed_bytes (s : str) (length : Z) : result bytes :=
  e ← utf8_encode s;
  let b := slice_to e length in
  Ok (b ++ replicate (Z.to_nat (length - len b)) space).

(** [b.rstrip(b' ')]. *)
Fixpoint rstrip (b : bytes) : bytes :=
  match b with
  | [] => []
  | x :: r =>
      match rstrip r with
      | [] => if Byte.eqb x space then [] else [x]
      | r' => x :: r'
      end
  end.

Definition bytes_to_str (b : bytes) : result str :=
  utf8_decode Ignore (rstrip b).
(** ** [struct]: little-endian packing without alignment *)

(** The items of the three format strings: [ns], [I] and [d]. *)
Inductive fmt_item :=
  | Fs (n : nat)
  | FI
  | Fd.

(** The Python values packed: [bytes], [int], and [float] as its
    binary64 bit pattern. *)
Inductive value :=
  | Vbytes (b : bytes)
  | Vint (n : Z)
  | Vfloat (bits : Z).

Definition item_size (f : fmt_item) : nat :=
  match f with
  | Fs n => n
  | FI => 4
  | Fd => 8
  end.

Definition calcsize (fmt : list fmt_item) : nat :=
  foldr (fun f n => (item_size f + n)%nat) 0%nat fmt.

Fixpoint le_bytes (n : nat) (z : Z) : bytes :=
  match n with
  | O => []
  | S n' => byte_of_Z (z mod 256) :: le_bytes n' (z / 256)
  end.

Fixpoint le_value (b : bytes) : Z :=
  match b with
  | [] => 0
  | x :: r => Z_of_byte x + 256 * le_value r
  end.

(** [ns] copies, cuts or pads with NUL to [n] bytes; [I] and [d] refuse
    what has no 4-byte resp. 8-byte form. *)
Definition pack_item (f : fmt_item) (v : value) : result bytes :=
  match f, v with
  | Fs n, Vbytes b => Ok (take n b ++ replicate (n - length b) x00)
  | FI, Vint z =>
      if (0 <=? z) && (z <? 2 ^ 32) then Ok (le_bytes 4 z) else Raise StructError
  | Fd, Vfloat x =>
      if (0 <=? x) && (x <? 2 ^ 64) then Ok (le_bytes 8 x) else Raise StructError
  | _, _ => Raise StructError
  end.

Fixpoint struct_pack (fmt : list fmt_item) (vs : list value) : result bytes :=
  match fmt, vs with
  | [], [] => Ok []
  | f :: fmt', v :: vs' =>
      b ← pack_item f v;
      r ← struct_pack fmt' vs';
      Ok (b ++ r)
  | _, _ => Raise StructError
  end.

Definition unpack_item (f : fmt_item) (b : bytes) : value :=
  match f with
  | Fs _ => Vbytes b
  | FI => Vint (le_value b)
  | Fd => Vfloat (le_value b)
  end.

Fixpoint unpack_fields (fmt : list fmt_item) (b : bytes) : list value :=
  match fmt with
  | [] => []
  | f :: fmt' =>
      unpack_item f (take (item_size f) b)
        :: unpack_fields fmt' (drop (item_size f) b)
  end.

Definition struct_unpack (fmt : list fmt_item) (b : bytes) : result (list value) :=
  if decide (length b = calcsize fmt) then Ok (unpack_fields fmt b)
  else Raise StructError.

(** ** Record formats *)

(** ['<10s10s20s30sId10s3s'] *)
Definition CAR_STRUCT_FMT : list fmt_item :=
  [Fs 10; Fs 10; Fs 20; Fs 30; FI; Fd; Fs 10; Fs 3].
Definition CAR_RECORD_SIZE : nat := calcsize CAR_STRUCT_FMT.

(** ['<10s50s13s15s50s'] *)
Definition CUST_STRUCT_FMT : list fmt_item :=
  [Fs 10; Fs 50; Fs 13; Fs 15; Fs 50].
Definition CUST_RECORD_SIZE : nat := calcsize CUST_STRUCT_FMT.

(** ['<10s10s10s10s10sd10s'] *)
Definition CONTRACT_STRUCT_FMT : list fmt_item :=
  [Fs 10; Fs 10; Fs 10; Fs 10; Fs 10; Fd; Fs 10].
Definition CONTRACT_RECORD_SIZE : nat := calcsize CONTRACT_STRUCT_FMT.

(** ** Models *)

Module Car.
Record t := make {
  car_id : str;
  plate : str;
  brand : str;
  model : str;
  year : Z;
  price_per_day : Z;
  status : str;
  rented : str
}.

Definition pack (self : t) : result bytes :=
  f0 ← fixed_bytes (car_id self) 10;
  f1 ← fixed_bytes (plate self) 10;
  f2 ← fixed_bytes (brand self) 20;
  f3 ← fixed_bytes (model self) 30;
  f6 ← fixed_bytes (status self) 10;
  f7 ← fixed_bytes (rented self) 3;
  struct_pack CAR_STRUCT_FMT
    [Vbytes f0; Vbytes f1; Vbytes f2; Vbytes f3;
     Vint (year self); Vfloat (price_per_day self); Vbytes f6; Vbytes f7].

Definition unpack (b : bytes) : result t :=
  f ← struct_unpack CAR_STRUCT_FMT b;
  match f with
  | [Vbytes f0; Vbytes f1; Vbytes f2; Vbytes f3;
     Vint f4; Vfloat f5; Vbytes f6; Vbytes f7] =>
      a0 ← bytes_to_str f0;
      a1 ← bytes_to_str f1;
      a2 ← bytes_to_str f2;
      a3 ← bytes_to_str f3;
      a6 ← bytes_to_str f6;
      a7 ← bytes_to_str f7;
      Ok (make a0 a1 a2 a3 f4 f5 a6 a7)
  | _ => Raise StructError
  end.

(** [c.status = 'Deleted'] *)
Definition set_status (self : t) (s : str) : t :=
  make (car_id self) (plate self) (brand self) (model self)
       (year self) (price_per_day self) s (rented self).
End Car.

Module Customer.
Record t := make {
  cust_id : str;
  name : str;
  id_card : str;
  phone : str;
  email : str
}.

Definition pack (self : t) : result bytes :=
  f0 ← fixed_bytes (cust_id self) 10;
  f1 ← fixed_bytes (name self) 50;
  f2 ← fixed_bytes (id_card self) 13;
  f3 ← fixed_bytes (phone self) 15;
  f4 ← fixed_bytes (email self) 50;
  struct_pack CUST_STRUCT_FMT
    [Vbytes f0; Vbytes f1; Vbytes f2; Vbytes f3; Vbytes f4].

Definition unpack (b : bytes) : result t :=
  f ← struct_unpack CUST_STRUCT_FMT b;
  match f with
  | [Vbytes f0; Vbytes f1; Vbytes f2; Vbytes f3; Vbytes f4] =>
      a0 ← bytes_to_str f0;
      a1 ← bytes_to_str f1;
      a2 ← bytes_to_str f2;
      a3 ← bytes_to_str f3;
      a4 ← bytes_to_str f4;
      Ok (make a0 a1 a2 a3 a4)
  | _ => Raise StructError
  end.
End Customer.

Module Contract.
Record t := make {
  contract_id : str;
  car_id : str;
  cust_id : str;
  start_date : str;
  end_date : str;
  total_cost : Z;
  status : str
}.

Definition pack (self : t) : result bytes :=
  f0 ← fixed_bytes (contract_id self) 10;
  f1 ← fixed_bytes (car_id self) 10;
  f2 ← fixed_bytes (cust_id self) 10;
  f3 ← fixed_bytes (start_date self) 10;
  f4 ← fixed_bytes (end_date self) 10;
  f6 ← fixed_bytes (status self) 10;
  struct_pack CONTRACT_STRUCT_FMT
    [Vbytes f0; Vbytes f1; Vbytes f2; Vbytes f3; Vbytes f4;
     Vfloat (total_cost self); Vbytes f6].

Definition unpack (b : bytes) : result t :=
  f ← struct_unpack CONTRACT_STRUCT_FMT b;
  match f with
  | [Vbytes f0; Vbytes f1; Vbytes f2; Vbytes f3; Vbytes f4;
     Vfloat f5; Vbytes f6] =>
      a0 ← bytes_to_str f0;
      a1 ← bytes_to_str f1;
      a2 ← bytes_to_str f2;
      a3 ← bytes_to_str f3;
      a4 ← bytes_to_str f4;
      a6 ← bytes_to_str f6;
      Ok (make a0 a1 a2 a3 a4 f5 a6)
  | _ => Raise StructError
  end.
End Contract.

(** The car of the end-to-end scenario. *)
Definition car_C001 : Car.t :=
  Car.make (lit "C001") (lit "AB1234") (lit "Toyota") (lit "Camry")
           2023 0x40A3880000000000 (lit "Active") (lit "No").


(** ** Field bounds *)

(** The text has a UTF-8 form of at most [w] bytes. *)
Definition fits (s : str) (w : Z) : bool :=
  match utf8_encode s with
  | Ok e => len e <=? w
  | Raise _ => false
  end.

Definition ends_with_space (s : str) : bool :=
  match last s with
  | Some c => c =? 0x20
  | None => false
  end.

Definition is_uint32 (z : Z) : bool := (0 <=? z) && (z <? 2 ^ 32).

(** The value is the bit pattern of a binary64. *)
Definition is_float (x : Z) : bool := (0 <=? x) && (x <? 2 ^ 64).

Definition Car_in_bounds (c : Car.t) : bool :=
  fits (Car.car_id c) 10 && fits (Car.plate c) 10 && fits (Car.brand c) 20
  && fits (Car.model c) 30 && is_uint32 (Car.year c)
  && is_float (Car.price_per_day c)
  && fits (Car.status c) 10 && fits (Car.rented c) 3.

Definition Car_no_trailing_space (c : Car.t) : bool :=
  negb (ends_with_space (Car.car_id c)) && negb (ends_with_space (Car.plate c))
  && negb (ends_with_space (Car.brand c)) && negb (ends_with_space (Car.model c))
  && negb (ends_with_space (Car.status c)) && negb (ends_with_space (Car.rented c)).

Definition Customer_in_bounds (c : Customer.t) : bool :=
  fits (Customer.cust_id c) 10 && fits (Customer.name c) 50
  && fits (Customer.id_card c) 13 && fits (Customer.phone c) 15
  && fits (Customer.email c) 50.

Definition Customer_no_trailing_space (c : Customer.t) : bool :=
  negb (ends_with_space (Customer.cust_id c))
  && negb (ends_with_space (Customer.name c))
  && negb (ends_with_space (Customer.id_card c))
  && negb (ends_with_space (Customer.phone c))
  && negb (ends_with_space (Customer.email c)).

Definition Contract_in_bounds (c : Contract.t) : bool :=
  fits (Contract.contract_id c) 10 && fits (Contract.car_id c) 10
  && fits (Contract.cust_id c) 10 && fits (Contract.start_date c) 10
  && fits (Contract.end_date c) 10 && is_float (Contract.total_cost c)
  && fits (Contract.status c) 10.

Definition Contract_no_trailing_space (c : Contract.t) : bool :=
  negb (ends_with_space (Contract.contract_id c))
  && negb (ends_with_space (Contract.car_id c))
  && negb (ends_with_space (Contract.cust_id c))
  && negb (ends_with_space (Contract.start_date c))
  && negb (ends_with_space (Contract.end_date c))
  && negb (ends_with_space (Contract.status c)).


(** ** Entities as the repositories see them *)

Class Entity (E : Type) := {
  record_size : nat;
  pack : E -> result bytes;
  unpack : bytes -> result E;
  ident : E -> str
}.

#[global] Instance Car_entity : Entity Car.t := {|
  record_size := CAR_RECORD_SIZE;
  pack := Car.pack;
  unpack := Car.unpack;
  ident := Car.car_id
|}.

#[global] Instance Customer_entity : Entity Customer.t := {|
  record_size := CUST_RECORD_SIZE;
  pack := Customer.pack;
  unpack := Customer.unpack;
  ident := Customer.cust_id
|}.

#[global] Instance Contract_entity : Entity Contract.t := {|
  record_size := CONTRACT_RECORD_SIZE;
  pack := Contract.pack;
  unpack := Contract.unpack;
  ident := Contract.contract_id
|}.

Class EntityLaws (E : Type) {ent : Entity E} : Prop := {
  record_size_pos : (0 < record_size)%nat;
  pack_length : forall (e : E) (p : bytes), pack e = Ok p -> length p = record_size;
  unpack_total : forall b : bytes, length b = record_size -> is_Ok (unpack b)
}.

(** ** The file system *)

(** Path to content; a path that is not bound is a file that does not
    exist. *)
Abbreviation fs := (gmap string bytes).

(** ** Repositories (file access) *)

Record BinaryRepository := {
  filename : string;
  recsize : nat
}.

(** [__init__]: the file is made when it is missing, and left alone
    otherwise. *)
Definition BinaryRepository_init (filename : string) (record_size : nat) (w : fs)
  : BinaryRepository * fs :=
  ({| filename := filename; recsize := record_size |},
   match w !! filename with
   | Some _ => w
   | None => <[filename := []]> w
   end).

(** The loop of [iterate_raw] over what is left of the file: [f.read]
    gives at most [recsize] bytes, and an empty or short read ends the
    loop. Every round but the last takes a byte or more, so the rounds
    are bounded by the [fuel]. *)
Fixpoint read_blocks (fuel : nat) (recsize : nat) (data : bytes) : list bytes :=
  match fuel with
  | O => []
  | S fuel' =>
      let b := take recsize data in
      if bool_decide (b = []) || (length b <? recsize)%nat then []
      else b :: read_blocks fuel' recsize (drop recsize data)
  end.

Definition iterate_raw (self : BinaryRepository) (w : fs) : result (list bytes) :=
  match w !! filename self with
  | None => Raise FileNotFoundError
  | Some data => Ok (read_blocks (S (length data)) (recsize self) data)
  end.

Definition read_all_raw (self : BinaryRepository) (w : fs) : result (list bytes) :=
  iterate_raw self w.

(** The calls [overwrite_all_raw] makes on the file system, in order. *)
Inductive syscall :=
  | Open_wb (path : string)
  | Write (path : string) (data : bytes)
  | Close (path : string)
  | Replace (src dst : string).

Definition exec (c : syscall) (w : fs) : result fs :=
  match c with
  | Open_wb path => Ok (<[path := []]> w)
  | Write path data =>
      match w !! path with
      | Some old => Ok (<[path := old ++ data]> w)
      | None => Raise OSError
      end
  | Close path => Ok w
  | Replace src dst =>
      match w !! src with
      | Some data => Ok (<[dst := data]> (delete src w))
      | None => Raise FileNotFoundError
      end
  end.

Fixpoint run (calls : list syscall) (w : fs) : result unit * fs :=
  match calls with
  | [] => (Ok tt, w)
  | c :: calls' =>
      match exec c w with
      | Ok w' => run calls' w'
      | Raise e => (Raise e, w)
      end
  end.

Definition overwrite_all_raw_calls (self : BinaryRepository) (records : list bytes)
  : list syscall :=
  let tmp := (filename self +:+ ".tmp")%string in
  Open_wb tmp :: map (Write tmp) records ++ [Close tmp; Replace tmp (filename self)].

Definition overwrite_all_raw (self : BinaryRepository) (records : list bytes) (w : fs)
  : result unit * fs :=
  run (overwrite_all_raw_calls self records) w.

(** Failure injection: the call number [k] fails. A failing write may
    have put the first [p] bytes of its data; the other calls fail
    without effect. *)
Definition exec_failing (c : syscall) (p : nat) (w : fs) : fs :=
  match c with
  | Write path data =>
      match w !! path with
      | Some old => <[path := old ++ take p data]> w
      | None => w
      end
  | _ => w
  end.

Fixpoint run_failing (k p : nat) (calls : list syscall) (w : fs) : result unit * fs :=
  match calls with
  | [] => (Ok tt, w)
  | c :: calls' =>
      match k with
      | O => (Raise OSError, exec_failing c p w)
      | S k' =>
          match exec c w with
          | Ok w' => run_failing k' p calls' w'
          | Raise e => (Raise e, w)
          end
      end
  end.

Definition overwrite_all_raw_failing (k p : nat) (self : BinaryRepository)
    (records : list bytes) (w : fs) : result unit * fs :=
  run_failing k p (overwrite_all_raw_calls self records) w.

Fixpoint unpack_each {E} {ent : Entity E} (raw : list bytes) : result (list E) :=
  match raw with
  | [] => Ok []
  | b :: raw' =>
      c ← unpack b;
      cs ← unpack_each raw';
      Ok (c :: cs)
  end.

Section Repository.
Context {E : Type} {ent : Entity E}.

(** [super().__init__(filename, RECORD_SIZE)] *)
Definition Repository_init (filename : string) (w : fs) : BinaryRepository * fs :=
  BinaryRepository_init filename record_size w.

Definition Repository_all (self : BinaryRepository) (w : fs) : result (list E) :=
  raw ← iterate_raw self w;
  unpack_each raw.

(** [next((c for c in self.all() if c.id == id), None)] *)
Definition Repository_find (self : BinaryRepository) (id : str) (w : fs)
  : result (option E) :=
  cs ← Repository_all self w;
  Ok (head (filter (fun c => ident c = id) cs)).

Definition Repository_add (self : BinaryRepository) (e : E) (w : fs)
  : result bool * fs :=
  match Repository_find self (ident e) w with
  | Raise x => (Raise x, w)
  | Ok (Some _) => (Ok false, w)
  | Ok None =>
      match w !! filename self with
      | None =>
          match pack e with
          | Raise x => (Raise x, <[filename self := []]> w)
          | Ok p => (Ok true, <[filename self := p]> w)
          end
      | Some data =>
          match pack e with
          | Raise x => (Raise x, w)
          | Ok p => (Ok true, <[filename self := data ++ p]> w)
          end
      end
  end.

(** The [for b in raw] loop of [update], with its two variables. *)
Fixpoint update_loop (id : str) (new : E) (raw : list bytes)
    (changed : bool) (out : list bytes) : result (bool * list bytes) :=
  match raw with
  | [] => Ok (changed, out)
  | b :: raw' =>
      c ← unpack b;
      if bool_decide (ident c = id) then
        p ← pack new;
        update_loop id new raw' true (out ++ [p])
      else update_loop id new raw' changed (out ++ [b])
  end.

Definition Repository_update (self : BinaryRepository) (id : str) (new : E) (w : fs)
  : result bool * fs :=
  match read_all_raw self w with
  | Raise x => (Raise x, w)
  | Ok raw =>
      match update_loop id new raw false [] with
      | Raise x => (Raise x, w)
      | Ok (changed, out) =>
          if changed then
            match overwrite_all_raw self out w with
            | (Ok _, w') => (Ok changed, w')
            | (Raise x, w') => (Raise x, w')
            end
          else (Ok changed, w)
      end
  end.
End Repository.

Module CarRepository.
Definition init (filename : string) (w : fs) : BinaryRepository * fs :=
  Repository_init (E := Car.t) filename w.
Definition all := Repository_all (E := Car.t).
Definition find := Repository_find (E := Car.t).
Definition add := Repository_add (E := Car.t).
Definition update := Repository_update (E := Car.t).

(** The loop of [mark_deleted]. *)
Fixpoint mark_deleted_loop (car_id : str) (raw : list bytes)
    (changed : bool) (out : list bytes) : result (bool * list bytes) :=
  match raw with
  | [] => Ok (changed, out)
  | b :: raw' =>
      c ← Car.unpack b;
      if bool_decide (Car.car_id c = car_id) then
        p ← Car.pack (Car.set_status c (lit "Deleted"));
        mark_deleted_loop car_id raw' true (out ++ [p])
      else mark_deleted_loop car_id raw' changed (out ++ [b])
  end.

Definition mark_deleted (self : BinaryRepository) (car_id : str) (w : fs)
  : result bool * fs :=
  match read_all_raw self w with
  | Raise x => (Raise x, w)
  | Ok raw =>
      match mark_deleted_loop car_id raw false [] with
      | Raise x => (Raise x, w)
      | Ok (changed, out) =>
          if changed then
            match overwrite_all_raw self out w with
            | (Ok _, w') => (Ok changed, w')
            | (Raise x, w') => (Raise x, w')
            end
          else (Ok changed, w)
      end
  end.
End CarRepository.

Module CustomerRepository.
Definition init (filename : string) (w : fs) : BinaryRepository * fs :=
  Repository_init (E := Customer.t) filename w.
Definition all := Repository_all (E := Customer.t).
Definition find := Repository_find (E := Customer.t).
Definition add := Repository_add (E := Customer.t).
Definition update := Repository_update (E := Customer.t).
End CustomerRepository.

Module ContractRepository.
Definition init (filename : string) (w : fs) : BinaryRepository * fs :=
  Repository_init (E := Contract.t) filename w.
Definition all := Repository_all (E := Contract.t).
Definition find := Repository_find (E := Contract.t).
Definition add := Repository_add (E := Contract.t).
Definition update := Repository_update (E := Contract.t).
End ContractRepository.

(** ** Menu operations *)

(** The loop of [delete_customer]. *)
Fixpoint delete_customer_loop (cid : str) (raw : list bytes)
    (found : bool) (out : list bytes) : result (bool * list bytes) :=
  match raw with
  | [] => Ok (found, out)
  | b :: raw' =>
      c ← Customer.unpack b;
      if bool_decide (Customer.cust_id c = cid)
      then delete_customer_loop cid raw' true out
      else delete_customer_loop cid raw' found (out ++ [b])
  end.

(** [delete_customer], from the id read at the prompt on; the value is
    [found], which picks the message printed. *)
Definition delete_customer (customers : BinaryRepository) (cid : str) (w : fs)
  : result bool * fs :=
  match read_all_raw customers w with
  | Raise x => (Raise x, w)
  | Ok raw =>
      match delete_customer_loop cid raw false [] with
      | Raise x => (Raise x, w)
      | Ok (found, out) =>
          if found then
            match overwrite_all_raw customers out w with
            | (Ok _, w') => (Ok found, w')
            | (Raise x, w') => (Raise x, w')
            end
          else (Ok found, w)
      end
  end.

(** ** Dates *)

(** [datetime.date] *)
Record date := {
  date_year : Z;
  date_month : Z;
  date_day : Z
}.

Definition is_leap (y : Z) : bool :=
  (y mod 4 =? 0) && (negb (y mod 100 =? 0) || (y mod 400 =? 0)).

Definition DAYS_IN_MONTH (m : Z) : Z :=
  match m with
  | 1 => 31 | 2 => 28 | 3 => 31 | 4 => 30 | 5 => 31 | 6 => 30
  | 7 => 31 | 8 => 31 | 9 => 30 | 10 => 31 | 11 => 30 | 12 => 31
  | _ => -1
  end.

Definition DAYS_BEFORE_MONTH (m : Z) : Z :=
  match m with
  | 1 => 0 | 2 => 31 | 3 => 59 | 4 => 90 | 5 => 120 | 6 => 151
  | 7 => 181 | 8 => 212 | 9 => 243 | 10 => 273 | 11 => 304 | 12 => 334
  | _ => -1
  end.

Definition days_in_month (y m : Z) : Z :=
  if (m =? 2) && is_leap y then 29 else DAYS_IN_MONTH m.

Definition days_before_year (y : Z) : Z :=
  let y' := y - 1 in
  y' * 365 + y' / 4 - y' / 100 + y' / 400.

Definition days_before_month (y m : Z) : Z :=
  DAYS_BEFORE_MONTH m + (if (2 <? m) && is_leap y then 1 else 0).

Definition toordinal (d : date) : Z :=
  days_before_year (date_year d)
  + days_before_month (date_year d) (date_month d)
  + date_day d.

(** The constructor of [date] refuses what is no day of the calendar. *)
Definition make_date (y m d : Z) : result date :=
  if (1 <=? y) && (y <=? 9999) && (1 <=? m) && (m <=? 12)
     && (1 <=? d) && (d <=? days_in_month y m)
  then Ok {| date_year := y; date_month := m; date_day := d |}
  else Raise ValueError.

(** Comparison of dates. *)
Definition date_lt (a b : date) : bool :=
  (date_year a <? date_year b)
  || ((date_year a =? date_year b)
      && ((date_month a <? date_month b)
          || ((date_month a =? date_month b) && (date_day a <? date_day b)))).

(** The digits [0] to [9]. *)
Definition ascii_digit (c : Z) : option Z :=
  if (48 <=? c) && (c <=? 57) then Some (c - 48) else None.

(** The value of a decimal digit as [\d] and [int] read it: [0] to [9],
    and the decimal digits of the other scripts, whose table is in the
    Unicode database of the interpreter and is the parameter [nd] here
    and below. *)
Definition digit (nd : Z -> option Z) (c : Z) : option Z :=
  match ascii_digit c with
  | Some d => Some d
  | None => nd c
  end.

(** The class [[lo-hi]] of the format's expressions. *)
Definition in_range (lo hi : Z) (c : Z) : option Z :=
  match ascii_digit c with
  | Some d => if (lo <=? d) && (d <=? hi) then Some d else None
  | None => None
  end.

(** The space that may stand for a leading zero. *)
Definition blank (c : Z) : option Z :=
  if c =? 32 then Some 0 else None.

(** One character of a class, and two characters read as a number. *)
Definition one (p : Z -> option Z) (s : str) : option (Z * str) :=
  match s with
  | c :: rest =>
      match p c with
      | Some d => Some (d, rest)
      | None => None
      end
  | [] => None
  end.

Definition two (p1 p2 : Z -> option Z) (s : str) : option (Z * str) :=
  match s with
  | c1 :: c2 :: rest =>
      match p1 c1, p2 c2 with
      | Some d1, Some d2 => Some (10 * d1 + d2, rest)
      | _, _ => None
      end
  | _ => None
  end.

(** The alternatives of an expression, tried in their order. *)
Fixpoint first_of {A} (alts : list (option A)) : option A :=
  match alts with
  | [] => None
  | Some a :: _ => Some a
  | None :: alts' => first_of alts'
  end.

(** [%Y]: [\d\d\d\d]. *)
Definition parse_Y (nd : Z -> option Z) (s : str) : option (Z * str) :=
  match s with
  | c1 :: c2 :: c3 :: c4 :: rest =>
      match digit nd c1, digit nd c2, digit nd c3, digit nd c4 with
      | Some d1, Some d2, Some d3, Some d4 =>
          Some (1000 * d1 + 100 * d2 + 10 * d3 + d4, rest)
      | _, _, _, _ => None
      end
  | _ => None
  end.

(** [%m]: [1[0-2]|0[1-9]|[1-9]]. *)
Definition parse_m (s : str) : option (Z * str) :=
  first_of [two (in_range 1 1) (in_range 0 2) s;
            two (in_range 0 0) (in_range 1 9) s;
            one (in_range 1 9) s].

(** [%d]: [3[0-1]|[1-2]\d|0[1-9]|[1-9]| [1-9]]. *)
Definition parse_d (nd : Z -> option Z) (s : str) : option (Z * str) :=
  first_of [two (in_range 3 3) (in_range 0 1) s;
            two (in_range 1 2) (digit nd) s;
            two (in_range 0 0) (in_range 1 9) s;
            one (in_range 1 9) s;
            two blank (in_range 1 9) s].

(** A literal [-] of the format. *)
Definition parse_dash (s : str) : option str :=
  match s with
  | c :: rest => if c =? 45 then Some rest else None
  | [] => None
  end.

(** [datetime.strptime(s, '%Y-%m-%d').date()]: the text must match the
    format to its end and name a day of the calendar. *)
Definition parse_date (nd : Z -> option Z) (s : str) : result date :=
  match parse_Y nd s with
  | None => Raise ValueError
  | Some (y, s1) =>
      match parse_dash s1 with
      | None => Raise ValueError
      | Some s2 =>
          match parse_m s2 with
          | None => Raise ValueError
          | Some (m, s3) =>
              match parse_dash s3 with
              | None => Raise ValueError
              | Some s4 =>
                  match parse_d nd s4 with
                  | Some (d, []) => make_date y m d
                  | _ => Raise ValueError
                  end
              end
          end
      end
  end.

Definition date_diff_days (nd : Z -> option Z) (a b : str) : result Z :=
  db ← parse_date nd b;
  da ← parse_date nd a;
  Ok (Z.max 0 (toordinal db - toordinal da + 1)).

(** ** Floats *)

(** The binary64 datum of a bit pattern, and back; a NaN comes back as
    the quiet NaN. *)
Definition SF_of_bits (x : Z) : spec_float :=
  let s := 2 ^ 63 <=? x mod 2 ^ 64 in
  let e := (x / 2 ^ 52) mod 2 ^ 11 in
  let m := x mod 2 ^ 52 in
  if e =? 0 then
    match m with
    | Zpos p => S754_finite s p (-1074)
    | _ => S754_zero s
    end
  else if e =? 2047 then
    if m =? 0 then S754_infinity s else S754_nan
  else
    match m + 2 ^ 52 with
    | Zpos p => S754_finite s p (e - 1075)
    | _ => S754_nan
    end.

Definition bits_of_SF (f : spec_float) : Z :=
  let sign (s : bool) := if s then 2 ^ 63 else 0 in
  match f with
  | S754_zero s => sign s
  | S754_infinity s => sign s + 2047 * 2 ^ 52
  | S754_nan => 2047 * 2 ^ 52 + 2 ^ 51
  | S754_finite s m e =>
      if 2 ^ 52 <=? Zpos m
      then sign s + (e + 1075) * 2 ^ 52 + (Zpos m - 2 ^ 52)
      else sign s + Zpos m
  end.

(** [float * float] *)
Definition float_mul (x y : Z) : Z :=
  bits_of_SF (SFmul 53 1024 (SF_of_bits x) (SF_of_bits y)).

(** [float < float] *)
Definition float_lt (x y : Z) : bool :=
  SFltb (SF_of_bits x) (SF_of_bits y).

(** [float(n)] for an [int]: the nearest float, or [OverflowError]. *)
Definition float_of_int (n : Z) : result Z :=
  match binary_normalize 53 1024 n 0 false with
  | S754_infinity _ => Raise OverflowError
  | f => Ok (bits_of_SF f)
  end.

(** [est_cost = dcount * car.price_per_day], an [int] times a [float]. *)
Definition est_cost (dcount : Z) (price_per_day : Z) : result Z :=
  d ← float_of_int dcount;
  Ok (float_mul d price_per_day).

(** ** Vocabulary of the statements *)

(** The block decodes to a record of this identity. *)
Definition has_id {E} {ent : Entity E} (id : str) (b : bytes) : bool :=
  match unpack b with
  | Ok c => bool_decide (ident c = id)
  | Raise _ => false
  end.

(** The records of the store that carry the identity. *)
Definition matching {E} {ent : Entity E} (id : str) (raw : list bytes) : list bytes :=
  List.filter (has_id id) raw.

(** No call before the rename touches the path. *)
Definition leaves (f : string) (c : syscall) : Prop :=
  match c with
  | Open_wb path | Write path _ | Close path => path <> f
  | Replace _ _ => False
  end.

(** The decoder's answer is a text, and the text has a UTF-8 form of no
    more bytes than were read. *)
Definition reencodes (bs : bytes) (r : result str) : Prop :=
  exists s e, r = Ok s /\ utf8_encode s = Ok e /\ (length e <= length bs)%nat.

(** The value has the type and the size the format item asks for. *)
Definition item_ok (f : fmt_item) (v : value) : Prop :=
  match f, v with
  | Fs n, Vbytes b => length b = n
  | FI, Vint z => 0 <= z < 2 ^ 32
  | Fd, Vfloat x => 0 <= x < 2 ^ 64
  | _, _ => False
  end.

(** A day of the calendar. *)
Definition valid_date (d : date) : Prop :=
  1 <= date_year d <= 9999 /\ 1 <= date_month d <= 12
  /\ 1 <= date_day d <= days_in_month (date_year d) (date_month d).

(** ** Sample stores *)

Definition from_Ok {A} (d : A) (r : result A) : A :=
  match r with
  | Ok a => a
  | Raise _ => d
  end.

Definition car_C002 : Car.t :=
  Car.make (lit "C002") (lit "XY9876") (lit "Honda") (lit "Civic")
           2021 0x409F400000000000 (lit "Active") (lit "No").

(** [car_C001] with [rented] set. *)
Definition car_C001_rented : Car.t :=
  Car.make (lit "C001") (lit "AB1234") (lit "Toyota") (lit "Camry")
           2023 0x40A3880000000000 (lit "Active") (lit "Yes").

(** An identity typed with a space after it. *)
Definition car_trailing : Car.t :=
  Car.make (lit "C001 ") (lit "AB1234") (lit "Toyota") (lit "Camry")
           2023 0x40A3880000000000 (lit "Active") (lit "No").

(** A brand of 21 bytes: 19 of ASCII, the last a space, then U+00E9. *)
Definition car_long_brand : Car.t :=
  Car.make (lit "C001") (lit "AB1234") (lit "Toyota Motor Corp. " ++ [0xE9])
           (lit "Camry") 2023 0x40A3880000000000 (lit "Active") (lit "No").

Definition customer_U001 : Customer.t :=
  Customer.make (lit "U001") (lit "Somchai Jaidee") (lit "1234567890123")
                (lit "0812345678") (lit "somchai@example.com").

Definition customer_U002 : Customer.t :=
  Customer.make (lit "U002") (lit "Suda Meesuk") (lit "3210987654321")
                (lit "0898765432") (lit "suda@example.com").

Definition contract_K001 : Contract.t :=
  Contract.make (lit "K001") (lit "C001") (lit "U001") (lit "2025-09-20")
                (lit "2025-09-25") 0x40CD4C0000000000 (lit "active").

Definition block_C001 : bytes := Eval vm_compute in from_Ok [] (Car.pack car_C001).
Definition block_C002 : bytes := Eval vm_compute in from_Ok [] (Car.pack car_C002).
Definition block_C001_rented : bytes :=
  Eval vm_compute in from_Ok [] (Car.pack car_C001_rented).
Definition block_long_brand : bytes :=
  Eval vm_compute in from_Ok [] (Car.pack car_long_brand).
Definition block_U001 : bytes := Eval vm_compute in from_Ok [] (Customer.pack customer_U001).
Definition block_U002 : bytes := Eval vm_compute in from_Ok [] (Customer.pack customer_U002).

Definition cars_dat : BinaryRepository :=
  {| filename := "cars.dat"; recsize := CAR_RECORD_SIZE |}.
Definition customers_dat : BinaryRepository :=
  {| filename := "customers.dat"; recsize := CUST_RECORD_SIZE |}.

Definition empty_store : fs := {[ "cars.dat"%string := [] ]}.
Definition two_cars : fs := {[ "cars.dat"%string := block_C001 ++ block_C002 ]}.
Definition two_customers : fs :=
  {[ "customers.dat"%string := block_U001 ++ block_U002 ]}.
Definition long_brand_store : fs := {[ "cars.dat"%string := block_long_brand ]}.

(** What [block_long_brand] decodes to, and the same car once marked. *)
Definition car_long_brand_read : Car.t :=
  Car.make (lit "C001") (lit "AB1234") (lit "Toyota Motor Corp. ")
           (lit "Camry") 2023 0x40A3880000000000 (lit "Active") (lit "No").
Definition car_long_brand_marked : Car.t :=
  Car.make (lit "C001") (lit "AB1234") (lit "Toyota Motor Corp.")
           (lit "Camry") 2023 0x40A3880000000000 (lit "Deleted") (lit "No").

(** ** Vocabulary of the further statements *)

(** The text without the spaces (U+0020) it ends in. *)
Fixpoint str_rstrip (s : str) : str :=
  match s with
  | [] => []
  | ch :: s' =>
      match str_rstrip s' with
      | [] => if ch =? 0x20 then [] else [ch]
      | r => ch :: r
      end
  end.

(** The records with the trailing spaces of every text field removed. *)
Definition Car_rstrip (c : Car.t) : Car.t :=
  Car.make (str_rstrip (Car.car_id c)) (str_rstrip (Car.plate c))
           (str_rstrip (Car.brand c)) (str_rstrip (Car.model c))
           (Car.year c) (Car.price_per_day c)
           (str_rstrip (Car.status c)) (str_rstrip (Car.rented c)).

Definition Customer_rstrip (c : Customer.t) : Customer.t :=
  Customer.make (str_rstrip (Customer.cust_id c)) (str_rstrip (Customer.name c))
                (str_rstrip (Customer.id_card c)) (str_rstrip (Customer.phone c))
                (str_rstrip (Customer.email c)).

Definition Contract_rstrip (c : Contract.t) : Contract.t :=
  Contract.make (str_rstrip (Contract.contract_id c))
                (str_rstrip (Contract.car_id c)) (str_rstrip (Contract.cust_id c))
                (str_rstrip (Contract.start_date c))
                (str_rstrip (Contract.end_date c)) (Contract.total_cost c)
                (str_rstrip (Contract.status c)).

(** A surrogate code point. *)
Definition is_surrogate (ch : Z) : bool := (0xD800 <=? ch) && (ch <=? 0xDFFF).

(** The identities the records of a store decode to, in file order. *)
Definition stored_ids {E} {ent : Entity E} (raw : list bytes) : list str :=
  omap (fun b => match unpack b with
                 | Ok c => Some (ident c)
                 | Raise _ => None
                 end) raw.

(** What [mark_deleted] puts in the place of a block that matches. *)
Definition marked (b : bytes) : result bytes :=
  c ← Car.unpack b;
  Car.pack (Car.set_status c (lit "Deleted")).

(** What [mark_deleted] leaves in the place of a block: the block
    written back with the status set when it carries the identity, the
    block itself when not. *)
Definition mark_block (car_id : str) (b : bytes) : bytes :=
  if has_id (E := Car.t) car_id b then from_Ok b (marked b) else b.

(** The text [YYYY-MM-DD] of a date, digits padded with zeros. *)
Definition two_digits (n : Z) : str := [48 + n / 10; 48 + n mod 10].

Definition iso_text (d : date) : str :=
  [48 + date_year d / 1000; 48 + (date_year d / 100) mod 10;
   48 + (date_year d / 10) mod 10; 48 + date_year d mod 10]
  ++ [45] ++ two_digits (date_month d) ++ [45] ++ two_digits (date_day d).

(** ** Prompts *)

(** [str.strip()]: the white space at both ends goes. Which code points
    are white space is in the Unicode database of the interpreter and is
    the parameter [ws] here and below. *)
Fixpoint lstrip (ws : Z -> bool) (s : str) : str :=
  match s with
  | [] => []
  | c :: s' => if ws c then lstrip ws s' else s
  end.

Fixpoint rstrip_ws (ws : Z -> bool) (s : str) : str :=
  match s with
  | [] => []
  | c :: s' =>
      match rstrip_ws ws s' with
      | [] => if ws c then [] else [c]
      | r => c :: r
      end
  end.

Definition strip (ws : Z -> bool) (s : str) : str := rstrip_ws ws (lstrip ws s).

(** What a prompt comes to: an answer and the lines not yet read, the end
    of the input ([EOFError]), or another exception. *)
Inductive prompted (A : Type) :=
  | Answer (a : A) (rest : list str)
  | EndOfInput
  | Raised (e : exn).
Arguments Answer {A} a rest.
Arguments EndOfInput {A}.
Arguments Raised {A} e.

(** [input_nonempty(prompt, max_len)] over the lines that will be typed;
    what it prints is left out. A [max_len] of [None] or [0] is no bound. *)
Fixpoint input_nonempty (ws : Z -> bool) (max_len : option Z) (lines : list str)
  : prompted str :=
  match lines with
  | [] => EndOfInput
  | line :: rest =>
      let v := strip ws line in
      if bool_decide (v = []) then input_nonempty ws max_len rest
      else
        match max_len with
        | None => Answer v rest
        | Some n =>
            if n =? 0 then Answer v rest
            else
              match utf8_encode v with
              | Raise e => Raised e
              | Ok b =>
                  if n <? len b then input_nonempty ws max_len rest
                  else Answer v rest
              end
        end
  end.

(** A step of a menu operation: go on with the answer, or stop with the
    files as they are. *)
Definition ask {A B} (p : prompted A) (w : fs)
    (k : A -> list str -> prompted B * fs) : prompted B * fs :=
  match p with
  | Answer a rest => k a rest
  | EndOfInput => (EndOfInput, w)
  | Raised e => (Raised e, w)
  end.

(** The message [add_customer] ends on. *)
Inductive add_customer_message :=
  | Customer_exists
  | Customer_added
  | Customer_not_added.

(** [add_customer] over the lines that will be typed; its value is the
    message it prints last. *)
Definition add_customer (ws : Z -> bool) (customers : BinaryRepository)
    (lines : list str) (w : fs) : prompted add_customer_message * fs :=
  ask (input_nonempty ws (Some 10) lines) w (fun cust_id lines =>
  match CustomerRepository.find customers cust_id w with
  | Raise e => (Raised e, w)
  | Ok (Some _) => (Answer Customer_exists lines, w)
  | Ok None =>
      ask (input_nonempty ws (Some 50) lines) w (fun name lines =>
      ask (input_nonempty ws (Some 13) lines) w (fun id_card lines =>
      ask (input_nonempty ws (Some 15) lines) w (fun phone lines =>
      ask (input_nonempty ws (Some 50) lines) w (fun email lines =>
      let cust := Customer.make cust_id name id_card phone email in
      match CustomerRepository.add customers cust w with
      | (Ok true, w') => (Answer Customer_added lines, w')
      | (Ok false, w') => (Answer Customer_not_added lines, w')
      | (Raise e, w') => (Raised e, w')
      end))))
  end).

(** [input(prompt)]: the next line typed, or [EOFError]. *)
Definition input (lines : list str) : prompted str :=
  match lines with
  | [] => EndOfInput
  | line :: rest => Answer line rest
  end.

(** [car.rented = 'Yes'] *)
Definition Car_set_rented (self : Car.t) (s : str) : Car.t :=
  Car.make (Car.car_id self) (Car.plate self) (Car.brand self) (Car.model self)
           (Car.year self) (Car.price_per_day self) (Car.status self) s.

(** The message [add_contract] ends on. *)
Inductive add_contract_message :=
  | Contract_exists
  | Car_missing_or_deleted
  | Car_not_free
  | Customer_missing
  | Bad_dates
  | Contract_cancelled
  | Contract_created
  | Contract_not_created.

(** [add_contract] over the lines that will be typed; its value is the
    message it prints last. [str.lower] is in the Unicode database of the
    interpreter and is the parameter [lower]. *)
Definition add_contract (ws : Z -> bool) (lower : str -> str) (nd : Z -> option Z)
    (cars customers contracts : BinaryRepository)
    (lines : list str) (w : fs) : prompted add_contract_message * fs :=
  ask (input_nonempty ws (Some 10) lines) w (fun contract_id lines =>
  match ContractRepository.find contracts contract_id w with
  | Raise e => (Raised e, w)
  | Ok (Some _) => (Answer Contract_exists lines, w)
  | Ok None =>
      ask (input_nonempty ws (Some 10) lines) w (fun car_id lines =>
      match CarRepository.find cars car_id w with
      | Raise e => (Raised e, w)
      | Ok None => (Answer Car_missing_or_deleted lines, w)
      | Ok (Some car) =>
          if bool_decide (lower (Car.status car) = lit "deleted")
          then (Answer Car_missing_or_deleted lines, w)
          else if bool_decide (lower (Car.rented car) = lit "yes")
          then (Answer Car_not_free lines, w)
          else
            ask (input_nonempty ws (Some 10) lines) w (fun cust_id lines =>
            match CustomerRepository.find customers cust_id w with
            | Raise e => (Raised e, w)
            | Ok None => (Answer Customer_missing lines, w)
            | Ok (Some _) =>
                ask (input_nonempty ws (Some 10) lines) w (fun start lines =>
                ask (input_nonempty ws (Some 10) lines) w (fun end_ lines =>
                match date_diff_days nd start end_ with
                | Raise _ => (Answer Bad_dates lines, w)
                | Ok dcount =>
                    match est_cost dcount (Car.price_per_day car) with
                    | Raise e => (Raised e, w)
                    | Ok cost =>
                        ask (input lines) w (fun confirm lines =>
                        if negb (bool_decide (lower (strip ws confirm) = lit "y"))
                        then (Answer Contract_cancelled lines, w)
                        else
                          let contract :=
                            Contract.make contract_id car_id cust_id start end_
                                          cost (lit "active") in
                          match ContractRepository.add contracts contract w with
                          | (Raise e, w1) => (Raised e, w1)
                          | (Ok false, w1) => (Answer Contract_not_created lines, w1)
                          | (Ok true, w1) =>
                              match CarRepository.update cars car_id
                                      (Car_set_rented car (lit "Yes")) w1 with
                              | (Raise e, w2) => (Raised e, w2)
                              | (Ok _, w2) => (Answer Contract_created lines, w2)
                              end
                          end)
                    end
                end))
            end)
      end)
  end).

(** ** Further samples *)

(** A car whose year has no unsigned 32-bit form. *)
Definition car_bad_year : Car.t :=
  Car.make (lit "C003") (lit "ZZ0001") (lit "Mazda") (lit "MX-5")
           (-1) 0x40A3880000000000 (lit "Active") (lit "No").

(** A car whose plate and model were typed with spaces after them. *)
Definition car_spaces : Car.t :=
  Car.make (lit "C004") (lit "AB12  ") (lit "Ford") (lit "Focus ")
           2020 0x40A3880000000000 (lit "Active") (lit "No").

Definition contracts_dat : BinaryRepository :=
  {| filename := "contracts.dat"; recsize := CONTRACT_RECORD_SIZE |}.

(** Two cars, a customer and no contract yet. *)
Definition rental_store : fs :=
  {[ "cars.dat"%string := block_C001 ++ block_C002;
     "customers.dat"%string := block_U001;
     "contracts.dat"%string := [] ]}.

(** [str.lower] on the letters of ASCII. *)
Definition lower_ascii (s : str) : str :=
  map (fun c => if (0x41 <=? c) && (c <=? 0x5A) then c + 0x20 else c) s.

(** The answers typed to [add_contract] in the end-to-end scenario. *)
Definition typed_K001 : list str :=
  [lit "K001"; lit "C001"; lit "U001"; lit "2025-09-20"; lit "2025-09-25";
   lit " Y "].

(** * Proofs *)

(** ** The text codec on examples *)

Example fixed_bytes_C001 :
  fixed_bytes (lit "C001") 10 =
  Ok [x43; x30; x30; x31; x20; x20; x20; x20; x20; x20].
Proof. reflexivity. Qed.

Example bytes_to_str_C001 :
  bytes_to_str [x43; x30; x30; x31; x20; x20; x20; x20; x20; x20] = Ok (lit "C001").
Proof. reflexivity. Qed.

(** U+20AC is E2 82 AC; cut after two bytes the tail is dropped. *)
Example fixed_bytes_split :
  fixed_bytes [0x41; 0x20AC] 3 = Ok [x41; xe2; x82].
Proof. reflexivity. Qed.

Example bytes_to_str_split : bytes_to_str [x41; xe2; x82] = Ok [0x41].
Proof. reflexivity. Qed.

Example utf8_decode_strict_split :
  utf8_decode Strict [x41; xe2; x82] = Raise UnicodeDecodeError.
Proof. reflexivity. Qed.

(** ** Facts about bytes and bit operations *)

Lemma Z_of_byte_range (b : byte) : 0 <= Z_of_byte b < 256.
Proof.
  unfold Z_of_byte. pose proof (Byte.to_N_bounded b). lia.
Qed.

Lemma Z_of_byte_of_Z (z : Z) : 0 <= z < 256 -> Z_of_byte (byte_of_Z z) = z.
Proof.
  intros Hz. unfold Z_of_byte, byte_of_Z.
  destruct (Byte.of_N (Z.to_N z)) as [b|] eqn:E.
  - apply Byte.to_of_N in E. rewrite E. lia.
  - apply Byte.of_N_None_iff in E. lia.
Qed.

Lemma byte_of_Z_of_byte (b : byte) : byte_of_Z (Z_of_byte b) = b.
Proof.
  unfold Z_of_byte, byte_of_Z. rewrite N2Z.id, Byte.of_to_N. reflexivity.
Qed.

Lemma Z_of_byte_inj (a b : byte) : Z_of_byte a = Z_of_byte b -> a = b.
Proof.
  intros H. rewrite <- (byte_of_Z_of_byte a), <- (byte_of_Z_of_byte b).
  now rewrite H.
Qed.

Lemma land_low_high (k n y : Z) :
  0 <= n -> 0 <= y < 2 ^ n -> Z.land (k * 2 ^ n) y = 0.
Proof.
  intros Hn Hy. apply Z.bits_inj'. intros i Hi.
  rewrite Z.land_spec, Z.bits_0.
  destruct (Z.lt_ge_cases i n) as [Hlt | Hge].
  - rewrite Z.mul_pow2_bits_low by lia. reflexivity.
  - replace (Z.testbit y i) with false; [apply andb_false_r |].
    symmetry. destruct (Z.eq_dec y 0) as [-> | Hy0]; [apply Z.bits_0 |].
    apply Z.bits_above_log2; [lia |].
    apply Z.lt_le_trans with n; [| lia].
    apply Z.log2_lt_pow2; lia.
Qed.

Lemma lor_high_low (k n y : Z) :
  0 <= n -> 0 <= y < 2 ^ n -> Z.lor (k * 2 ^ n) y = k * 2 ^ n + y.
Proof.
  intros Hn Hy. pose proof (land_low_high k n y Hn Hy) as H0.
  rewrite <- Z.lxor_lor by exact H0.
  symmetry. apply Z.add_nocarry_lxor. exact H0.
Qed.

Lemma lor_0x80 (y : Z) : 0 <= y < 64 -> Z.lor 0x80 y = 128 + y.
Proof. intros H. apply (lor_high_low 2 6 y); lia. Qed.

Lemma lor_0xC0 (y : Z) : 0 <= y < 32 -> Z.lor 0xC0 y = 192 + y.
Proof. intros H. apply (lor_high_low 6 5 y); lia. Qed.

Lemma lor_0xE0 (y : Z) : 0 <= y < 16 -> Z.lor 0xE0 y = 224 + y.
Proof. intros H. apply (lor_high_low 14 4 y); lia. Qed.

Lemma lor_0xF0 (y : Z) : 0 <= y < 8 -> Z.lor 0xF0 y = 240 + y.
Proof. intros H. apply (lor_high_low 30 3 y); lia. Qed.

Lemma land_0x3F (x : Z) : Z.land x 0x3F = x mod 64.
Proof. exact (Z.land_ones x 6 ltac:(lia)). Qed.

Lemma shiftr_div (x n : Z) : 0 <= n -> Z.shiftr x n = x / 2 ^ n.
Proof. intros. apply Z.shiftr_div_pow2; assumption. Qed.

Lemma shiftl_mul (x n : Z) : 0 <= n -> Z.shiftl x n = x * 2 ^ n.
Proof. intros. apply Z.shiftl_mul_pow2; assumption. Qed.

Ltac zlia := Z.to_euclidean_division_equations; lia.

(** The encoder in arithmetic form. *)
Lemma utf8_encode_char_arith (ch : Z) :
  utf8_encode_char ch =
  if ch <? 0 then Raise UnicodeEncodeError
  else if ch <? 0x80 then Ok [byte_of_Z ch]
  else if ch <? 0x800 then
    Ok [byte_of_Z (192 + ch / 64); byte_of_Z (128 + ch mod 64)]
  else if (0xD800 <=? ch) && (ch <=? 0xDFFF) then Raise UnicodeEncodeError
  else if ch <? 0x10000 then
    Ok [byte_of_Z (224 + ch / 4096); byte_of_Z (128 + (ch / 64) mod 64);
        byte_of_Z (128 + ch mod 64)]
  else if ch <=? 0x10FFFF then
    Ok [byte_of_Z (240 + ch / 262144); byte_of_Z (128 + (ch / 4096) mod 64);
        byte_of_Z (128 + (ch / 64) mod 64); byte_of_Z (128 + ch mod 64)]
  else Raise UnicodeEncodeError.
Proof.
  unfold utf8_encode_char.
  rewrite !land_0x3F, !shiftr_div by lia.
  change (2 ^ 6) with 64. change (2 ^ 12) with 4096. change (2 ^ 18) with 262144.
  destruct (ch <? 0) eqn:H0; [reflexivity |].
  destruct (ch <? 0x80) eqn:H1; [reflexivity |].
  destruct (ch <? 0x800) eqn:H2.
  { rewrite lor_0xC0, lor_0x80; [reflexivity | |]; zlia. }
  destruct ((0xD800 <=? ch) && (ch <=? 0xDFFF)) eqn:H3; [reflexivity |].
  destruct (ch <? 0x10000) eqn:H4.
  { rewrite lor_0xE0, !lor_0x80; [reflexivity | | |]; zlia. }
  destruct (ch <=? 0x10FFFF) eqn:H5; [| reflexivity].
  rewrite lor_0xF0, !lor_0x80; [reflexivity | | | |]; zlia.
Qed.

(** ** Decoding an encoded code point *)

Ltac split_if :=
  match goal with
  | |- context [if ?c then _ else _] =>
      lazymatch c with
      | context [if _ then _ else _] => fail
      | _ =>
          let E := fresh "E" in
          destruct c eqn:E; try (exfalso; unfold IS_CONTINUATION_BYTE in *; zlia)
      end
  end.

Lemma utf8_decode_encode_char (errors : error_handler) (ch : Z) (b rest : bytes) :
  utf8_encode_char ch = Ok b ->
  utf8_decode errors (b ++ rest) = emit ch (utf8_decode errors rest).
Proof.
  rewrite utf8_encode_char_arith.
  destruct (ch <? 0) eqn:H0; [discriminate |].
  destruct (ch <? 0x80) eqn:H1.
  { intros [= <-]. cbn [app utf8_decode].
    rewrite !Z_of_byte_of_Z by zlia. rewrite H1. reflexivity. }
  destruct (ch <? 0x800) eqn:H2.
  { intros [= <-]. cbn [app utf8_decode].
    rewrite !Z_of_byte_of_Z by zlia. rewrite !shiftl_mul by lia.
    repeat split_if; f_equal; zlia. }
  destruct ((0xD800 <=? ch) && (ch <=? 0xDFFF)) eqn:H3; [discriminate |].
  destruct (ch <? 0x10000) eqn:H4.
  { intros [= <-]. cbn [app utf8_decode].
    rewrite !Z_of_byte_of_Z by zlia. rewrite !shiftl_mul by lia.
    repeat split_if; f_equal; zlia. }
  destruct (ch <=? 0x10FFFF) eqn:H5; [| discriminate].
  intros [= <-]. cbn [app utf8_decode].
  rewrite !Z_of_byte_of_Z by zlia. rewrite !shiftl_mul by lia.
  repeat split_if; f_equal; zlia.
Qed.

Lemma utf8_decode_encode (errors : error_handler) (s : str) (e : bytes) :
  utf8_encode s = Ok e -> utf8_decode errors e = Ok s.
Proof.
  revert e. induction s as [| ch s IH]; intros e; cbn [utf8_encode].
  - intros [= <-]. reflexivity.
  - destruct (utf8_encode_char ch) as [b |] eqn:Hb; [| discriminate].
    destruct (utf8_encode s) as [r |] eqn:Hr; [| discriminate].
    intros [= <-].
    rewrite (utf8_decode_encode_char errors ch b r Hb), (IH r eq_refl).
    reflexivity.
Qed.

(** ** The lossy decoder is total, and what it yields encodes again
    in no more bytes than it read *)

Lemma reencodes_nil (bs : bytes) : reencodes bs (Ok []).
Proof. exists [], []. repeat split. simpl. lia. Qed.

Lemma reencodes_skip (bs sK : bytes) (r : result str) :
  reencodes sK r -> (length sK <= length bs)%nat ->
  reencodes bs (decode_error Ignore r).
Proof.
  intros (s & e & -> & He & Hl) Hlen. exists s, e. repeat split; [exact He | lia].
Qed.

Lemma reencodes_emit (bs : bytes) (cp : Z) (b sK : bytes) (r : result str) :
  utf8_encode_char cp = Ok b ->
  reencodes sK r ->
  (length b + length sK <= length bs)%nat ->
  reencodes bs (emit cp r).
Proof.
  intros Hb (s & e & -> & He & Hl) Hlen. exists (cp :: s), (b ++ e).
  repeat split.
  - cbn [utf8_encode]. rewrite Hb, He. reflexivity.
  - rewrite length_app. lia.
Qed.

Ltac case_decoder :=
  match goal with
  | |- context [if ?c then _ else _] =>
      lazymatch c with
      | context [if _ then _ else _] => fail
      | _ => let E := fresh "E" in destruct c eqn:E
      end
  | |- context [match ?l with [] => _ | _ :: _ => _ end] =>
      is_var l; destruct l
  end.

Lemma utf8_decode_ignore_reencodes (bs : bytes) :
  reencodes bs (utf8_decode Ignore bs).
Proof.
  remember (length bs) as n eqn:Hn.
  assert (Hle : (length bs <= n)%nat) by lia. clear Hn.
  revert bs Hle. induction n as [| n IH]; intros bs Hle.
  { destruct bs; [apply reencodes_nil | simpl in Hle; lia]. }
  destruct bs as [| c1 s1]; [apply reencodes_nil |].
  cbn [utf8_decode]. rewrite !shiftl_mul by lia.
  pose proof (Z_of_byte_range c1).
  repeat case_decoder;
    repeat match goal with
           | c : byte |- _ =>
               lazymatch goal with
               | _ : 0 <= Z_of_byte c < 256 |- _ => fail
               | _ => pose proof (Z_of_byte_range c)
               end
           end;
    cbn [length] in Hle; rewrite ?shiftl_mul by lia;
    first
      [ apply reencodes_nil
      | eapply reencodes_skip; [apply IH; cbn [length]; lia | cbn [length]; lia]
      | eapply reencodes_emit;
        [ rewrite utf8_encode_char_arith; repeat split_if; reflexivity
        | apply IH; cbn [length]; lia
        | cbn [length]; lia ] ].
Qed.

Lemma utf8_decode_ignore_total (bs : bytes) : is_Ok (utf8_decode Ignore bs).
Proof.
  destruct (utf8_decode_ignore_reencodes bs) as (s & _ & -> & _). now exists s.
Qed.

(** ** Padding and stripping *)

Lemma rstrip_spaces (n : nat) : rstrip (replicate n space) = [].
Proof. induction n as [| n IH]; [reflexivity |]. cbn. rewrite IH. reflexivity. Qed.

Lemma rstrip_app_spaces (b : bytes) (n : nat) :
  rstrip (b ++ replicate n space) = rstrip b.
Proof.
  induction b as [| x b IH]; [apply rstrip_spaces |].
  cbn [app rstrip]. rewrite IH. reflexivity.
Qed.

Lemma rstrip_id (b : bytes) : last b <> Some space -> rstrip b = b.
Proof.
  induction b as [| x [| y r] IH]; intros Hl; [reflexivity | |].
  - cbn. destruct (Byte.eqb x space) eqn:E; [| reflexivity].
    apply Byte.byte_dec_bl in E. subst x. now destruct Hl.
  - rewrite last_cons_cons in Hl. specialize (IH Hl).
    change (rstrip (x :: y :: r)) with
      (match rstrip (y :: r) with
       | [] => if Byte.eqb x space then [] else [x]
       | r' => x :: r'
       end).
    rewrite IH. reflexivity.
Qed.

Lemma rstrip_length (b : bytes) : (length (rstrip b) <= length b)%nat.
Proof.
  induction b as [| x b IH]; [reflexivity |]. cbn [rstrip].
  destruct (rstrip b); [destruct (Byte.eqb x space) |]; cbn [length] in *; lia.
Qed.

Lemma utf8_encode_char_nonempty (ch : Z) (b : bytes) :
  utf8_encode_char ch = Ok b -> b <> [].
Proof.
  rewrite utf8_encode_char_arith.
  repeat match goal with
         | |- (if ?c then _ else _) = _ -> _ => destruct c
         end; intros [= <-]; discriminate.
Qed.

Lemma utf8_encode_char_last (ch : Z) (b : bytes) :
  utf8_encode_char ch = Ok b -> last b = Some space -> ch = 0x20.
Proof.
  rewrite utf8_encode_char_arith.
  repeat match goal with
         | |- (if ?c then _ else _) = _ -> _ => let E := fresh "E" in destruct c eqn:E
         end; intros [= <-]; cbn [last]; intros [= Hsp];
    apply (f_equal Z_of_byte) in Hsp; rewrite Z_of_byte_of_Z in Hsp by zlia;
    change (Z_of_byte space) with 32 in Hsp; zlia.
Qed.

Lemma utf8_encode_nonempty (s : str) (e : bytes) :
  utf8_encode s = Ok e -> s <> [] -> e <> [].
Proof.
  destruct s as [| ch s]; [congruence |]. cbn [utf8_encode]. intros He _.
  destruct (utf8_encode_char ch) as [b |] eqn:Hb; [| discriminate].
  destruct (utf8_encode s) as [r |]; [| discriminate].
  injection He as <-. apply utf8_encode_char_nonempty in Hb.
  destruct b; [congruence | discriminate].
Qed.

Lemma utf8_encode_last (s : str) (e : bytes) :
  utf8_encode s = Ok e -> last s <> Some 0x20 -> last e <> Some space.
Proof.
  revert e. induction s as [| ch s IH]; intros e; cbn [utf8_encode].
  - intros [= <-] _. discriminate.
  - destruct (utf8_encode_char ch) as [b |] eqn:Hb; [| discriminate].
    destruct (utf8_encode s) as [r |] eqn:Hr; [| discriminate].
    intros [= <-] Hl. destruct s as [| c' s'].
    + injection Hr as <-. rewrite app_nil_r. intros Hsp.
      apply (utf8_encode_char_last ch b Hb) in Hsp. subst ch. now apply Hl.
    + rewrite last_cons_cons in Hl.
      pose proof (utf8_encode_nonempty _ _ Hr ltac:(discriminate)) as Hne.
      rewrite last_app. destruct (last r) eqn:Hlast.
      * rewrite <- Hlast. apply (IH r eq_refl Hl).
      * apply last_None in Hlast. contradiction.
Qed.

(** ** The text field codec *)

Lemma slice_to_length {A} (l : list A) (n : Z) :
  0 <= n -> len (slice_to l n) = Z.min n (len l).
Proof.
  intros Hn. unfold slice_to, len. destruct (n <? 0) eqn:E; [lia |].
  rewrite length_take. lia.
Qed.

Lemma fixed_bytes_length (s : str) (w : Z) (b : bytes) :
  0 <= w -> fixed_bytes s w = Ok b -> len b = w.
Proof.
  intros Hw. unfold fixed_bytes.
  destruct (utf8_encode s) as [e |]; [| discriminate]. cbn.
  intros [= <-]. pose proof (slice_to_length e w Hw) as Hs.
  unfold len in *. rewrite length_app, length_replicate. lia.
Qed.

Lemma fixed_bytes_fits (s : str) (w : Z) (e : bytes) :
  utf8_encode s = Ok e -> len e <= w ->
  fixed_bytes s w = Ok (e ++ replicate (Z.to_nat (w - len e)) space).
Proof.
  intros He Hlen. unfold fixed_bytes. rewrite He. cbn.
  assert (Hs : slice_to e w = e).
  { unfold slice_to, len in *. destruct (w <? 0) eqn:E; [lia |].
    apply take_ge. lia. }
  rewrite Hs. reflexivity.
Qed.

Lemma bytes_to_str_total (b : bytes) : is_Ok (bytes_to_str b).
Proof. apply utf8_decode_ignore_total. Qed.

(** A text that fits its field and does not end in a space comes back. *)
Lemma bytes_to_str_fixed_bytes (s : str) (w : Z) (e : bytes) :
  utf8_encode s = Ok e -> len e <= w -> last s <> Some 0x20 ->
  exists b, fixed_bytes s w = Ok b /\ bytes_to_str b = Ok s.
Proof.
  intros He Hlen Hl. eexists. split; [apply (fixed_bytes_fits s w e He Hlen) |].
  unfold bytes_to_str. rewrite rstrip_app_spaces.
  rewrite rstrip_id by (apply (utf8_encode_last s e He Hl)).
  apply utf8_decode_encode, He.
Qed.

(** What a field of [w] bytes decodes to fits a field of [w] bytes. *)
Lemma bytes_to_str_fits (b : bytes) (s : str) :
  bytes_to_str b = Ok s ->
  exists e, utf8_encode s = Ok e /\ len e <= len b.
Proof.
  unfold bytes_to_str. intros Hs.
  destruct (utf8_decode_ignore_reencodes (rstrip b)) as (s' & e & Hs' & He & Hlen).
  rewrite Hs in Hs'. injection Hs' as <-. exists e. split; [exact He |].
  pose proof (rstrip_length b). unfold len. lia.
Qed.

Lemma bytes_to_str_canonical (b : bytes) (s : str) (w : Z) :
  len b = w -> bytes_to_str b = Ok s -> last s <> Some 0x20 ->
  exists b', fixed_bytes s w = Ok b' /\ bytes_to_str b' = Ok s.
Proof.
  intros Hw Hs Hl. destruct (bytes_to_str_fits b s Hs) as (e & He & Hlen).
  apply (bytes_to_str_fixed_bytes s w e He); [lia | exact Hl].
Qed.


Example record_sizes :
  CAR_RECORD_SIZE = 95%nat /\ CUST_RECORD_SIZE = 138%nat
  /\ CONTRACT_RECORD_SIZE = 68%nat.
Proof. repeat split. Qed.


Example car_C001_roundtrip :
  (Car.pack car_C001 ≫= Car.unpack) = Ok car_C001.
Proof. vm_compute. reflexivity. Qed.

(** ** Facts about [struct] *)

Lemma bind_Ok {A B} (m : result A) (f : A -> result B) (b : B) :
  (m ≫= f) = Ok b <-> exists a, m = Ok a /\ f a = Ok b.
Proof.
  destruct m as [a | e]; cbn.
  - split; [intros H; now exists a | intros (a' & [= <-] & H); exact H].
  - split; [discriminate | intros (a' & [=] & _)].
Qed.

Ltac inv_bind H :=
  repeat match type of H with
         | (_ ≫= _) = Ok _ =>
             let a := fresh "f" in
             let Ha := fresh "Hf" in
             apply bind_Ok in H; destruct H as (a & Ha & H)
         end.

Lemma le_bytes_length (n : nat) (z : Z) : length (le_bytes n z) = n.
Proof. revert z. induction n as [| n IH]; intros z; cbn; [| rewrite IH]; reflexivity. Qed.

Lemma le_value_le_bytes (n : nat) (z : Z) :
  0 <= z < 256 ^ Z.of_nat n -> le_value (le_bytes n z) = z.
Proof.
  revert z. induction n as [| n IH]; intros z Hz.
  - cbn in *. lia.
  - cbn [le_bytes le_value]. rewrite Z_of_byte_of_Z by zlia.
    rewrite Nat2Z.inj_succ, Z.pow_succ_r in Hz by lia.
    rewrite IH; [zlia |]. split; [zlia |].
    apply Z.div_lt_upper_bound; lia.
Qed.

Lemma le_value_range (b : bytes) : 0 <= le_value b < 256 ^ len b.
Proof.
  unfold len. induction b as [| x b IH]; [cbn; lia |].
  cbn [le_value length]. rewrite Nat2Z.inj_succ, Z.pow_succ_r by lia.
  pose proof (Z_of_byte_range x). lia.
Qed.

Lemma pack_item_length (f : fmt_item) (v : value) (b : bytes) :
  pack_item f v = Ok b -> length b = item_size f.
Proof.
  destruct f, v; cbn [pack_item item_size]; try discriminate.
  - intros [= <-]. rewrite length_app, length_take, length_replicate. lia.
  - destruct (_ && _); [| discriminate]. intros [= <-]. reflexivity.
  - destruct (_ && _); [| discriminate]. intros [= <-]. reflexivity.
Qed.

Lemma pack_item_ok (f : fmt_item) (v : value) :
  item_ok f v -> exists b, pack_item f v = Ok b /\ unpack_item f b = v.
Proof.
  destruct f, v; cbn [pack_item item_ok unpack_item]; try contradiction.
  - intros <-. eexists. split; [reflexivity |].
    rewrite take_ge, Nat.sub_diag, app_nil_r by lia. reflexivity.
  - intros Hz. replace ((0 <=? n) && (n <? 2 ^ 32)) with true by lia.
    eexists. split; [reflexivity |]. f_equal. apply le_value_le_bytes. cbn. lia.
  - intros Hz. replace ((0 <=? bits) && (bits <? 2 ^ 64)) with true by lia.
    eexists. split; [reflexivity |]. f_equal. apply le_value_le_bytes. cbn. lia.
Qed.

Lemma struct_pack_length (fmt : list fmt_item) (vs : list value) (b : bytes) :
  struct_pack fmt vs = Ok b -> length b = calcsize fmt.
Proof.
  revert vs b. induction fmt as [| f fmt IH]; intros [| v vs] b; cbn [struct_pack];
    try discriminate.
  - intros [= <-]. reflexivity.
  - intros H. inv_bind H. injection H as <-.
    rewrite length_app. cbn [calcsize foldr].
    erewrite pack_item_length by eassumption.
    erewrite IH by eassumption. reflexivity.
Qed.

Lemma struct_pack_unpack (fmt : list fmt_item) (vs : list value) :
  Forall2 item_ok fmt vs ->
  exists b, struct_pack fmt vs = Ok b /\ struct_unpack fmt b = Ok vs.
Proof.
  intros H.
  assert (exists b, struct_pack fmt vs = Ok b /\ unpack_fields fmt b = vs)
    as (b & Hp & Hu).
  { induction H as [| f v fmt vs Hfv _ (r & Hr & Hur)].
    - exists []. split; reflexivity.
    - destruct (pack_item_ok f v Hfv) as (b & Hb & Hub).
      exists (b ++ r). cbn [struct_pack unpack_fields].
      rewrite Hb, Hr. split; [reflexivity |].
      pose proof (pack_item_length f v b Hb) as Hl.
      rewrite take_app_length', drop_app_length' by (symmetry; exact Hl) || exact Hl.
      rewrite Hub, Hur. reflexivity. }
  exists b. split; [exact Hp |]. unfold struct_unpack.
  rewrite decide_True by (eapply struct_pack_length; eassumption).
  now rewrite Hu.
Qed.

Lemma unpack_fields_ok (fmt : list fmt_item) (b : bytes) :
  length b = calcsize fmt -> Forall2 item_ok fmt (unpack_fields fmt b).
Proof.
  revert b. induction fmt as [| f fmt IH]; intros b Hb; cbn [unpack_fields].
  - constructor.
  - cbn [calcsize foldr] in Hb. constructor.
    + assert (Hl : length (take (item_size f) b) = item_size f)
        by (rewrite length_take; lia).
      destruct f; cbn [unpack_item item_ok item_size] in *.
      * exact Hl.
      * pose proof (le_value_range (take 4 b)) as Hr. unfold len in Hr.
        rewrite Hl in Hr. exact Hr.
      * pose proof (le_value_range (take 8 b)) as Hr. unfold len in Hr.
        rewrite Hl in Hr. exact Hr.
    + apply IH. rewrite length_drop. fold (calcsize fmt) in Hb. lia.
Qed.


(** ** The codec on whole records *)

Lemma ends_with_space_false (s : str) :
  ends_with_space s = false -> last s <> Some 0x20.
Proof.
  unfold ends_with_space. destruct (last s) as [c |]; [| discriminate].
  intros H [= ->]. discriminate.
Qed.

Lemma field_roundtrip (s : str) (w : Z) :
  fits s w = true -> negb (ends_with_space s) = true ->
  exists b, fixed_bytes s w = Ok b /\ bytes_to_str b = Ok s.
Proof.
  unfold fits. destruct (utf8_encode s) as [e |] eqn:He; [| discriminate].
  intros Hlen Hsp. apply negb_true_iff, ends_with_space_false in Hsp.
  apply (bytes_to_str_fixed_bytes s w e He); [lia | exact Hsp].
Qed.

Lemma field_decoded (b : bytes) (s : str) (w : Z) :
  bytes_to_str b = Ok s -> len b = w -> fits s w = true.
Proof.
  intros Hs Hw. destruct (bytes_to_str_fits b s Hs) as (e & He & Hlen).
  unfold fits. rewrite He. lia.
Qed.

Ltac split_andb :=
  repeat match goal with
         | H : _ && _ = true |- _ => apply andb_prop in H; destruct H
         end.

Ltac field s w b :=
  let Hb := fresh "Hp" b in
  let Hd := fresh "Hd" b in
  let Hl := fresh "Hl" b in
  destruct (field_roundtrip s w ltac:(assumption) ltac:(assumption))
    as (b & Hb & Hd);
  assert (Hl : length b = Z.to_nat w)
    by (pose proof (fixed_bytes_length s w b ltac:(lia) Hb) as Hl;
        unfold len in Hl; lia).

Lemma Car_roundtrip (c : Car.t) :
  Car_in_bounds c = true -> Car_no_trailing_space c = true ->
  exists b, Car.pack c = Ok b /\ Car.unpack b = Ok c.
Proof.
  destruct c as [i p br m y pr st r].
  unfold Car_in_bounds, Car_no_trailing_space; cbn [Car.car_id Car.plate Car.brand
    Car.model Car.year Car.price_per_day Car.status Car.rented].
  intros Hb Hs. split_andb.
  field i 10 b0. field p 10 b1. field br 20 b2. field m 30 b3.
  field st 10 b6. field r 3 b7.
  destruct (struct_pack_unpack CAR_STRUCT_FMT
              [Vbytes b0; Vbytes b1; Vbytes b2; Vbytes b3; Vint y; Vfloat pr;
               Vbytes b6; Vbytes b7]) as (blk & Hp & Hu).
  { unfold is_uint32, is_float in *.
    repeat constructor; cbn [item_ok]; first [assumption | lia]. }
  exists blk. unfold Car.pack, Car.unpack.
  cbn [Car.car_id Car.plate Car.brand Car.model Car.year Car.price_per_day
       Car.status Car.rented].
  repeat match goal with H : fixed_bytes _ _ = Ok _ |- _ => rewrite H; clear H end.
  cbn [mbind result_bind]. split; [exact Hp |]. rewrite Hu.
  cbn [mbind result_bind].
  repeat match goal with H : bytes_to_str _ = Ok _ |- _ => rewrite H; clear H end.
  reflexivity.
Qed.

Lemma Customer_roundtrip (c : Customer.t) :
  Customer_in_bounds c = true -> Customer_no_trailing_space c = true ->
  exists b, Customer.pack c = Ok b /\ Customer.unpack b = Ok c.
Proof.
  destruct c as [i n ic ph em].
  unfold Customer_in_bounds, Customer_no_trailing_space;
    cbn [Customer.cust_id Customer.name Customer.id_card Customer.phone
         Customer.email].
  intros Hb Hs. split_andb.
  field i 10 b0. field n 50 b1. field ic 13 b2. field ph 15 b3. field em 50 b4.
  destruct (struct_pack_unpack CUST_STRUCT_FMT
              [Vbytes b0; Vbytes b1; Vbytes b2; Vbytes b3; Vbytes b4])
    as (blk & Hp & Hu).
  { repeat constructor; cbn [item_ok]; first [assumption | lia]. }
  exists blk. unfold Customer.pack, Customer.unpack.
  cbn [Customer.cust_id Customer.name Customer.id_card Customer.phone
       Customer.email].
  repeat match goal with H : fixed_bytes _ _ = Ok _ |- _ => rewrite H; clear H end.
  cbn [mbind result_bind]. split; [exact Hp |]. rewrite Hu.
  cbn [mbind result_bind].
  repeat match goal with H : bytes_to_str _ = Ok _ |- _ => rewrite H; clear H end.
  reflexivity.
Qed.

Lemma Contract_roundtrip (c : Contract.t) :
  Contract_in_bounds c = true -> Contract_no_trailing_space c = true ->
  exists b, Contract.pack c = Ok b /\ Contract.unpack b = Ok c.
Proof.
  destruct c as [i ca cu sd ed tc st].
  unfold Contract_in_bounds, Contract_no_trailing_space;
    cbn [Contract.contract_id Contract.car_id Contract.cust_id
         Contract.start_date Contract.end_date Contract.total_cost
         Contract.status].
  intros Hb Hs. split_andb.
  field i 10 b0. field ca 10 b1. field cu 10 b2. field sd 10 b3.
  field ed 10 b4. field st 10 b6.
  destruct (struct_pack_unpack CONTRACT_STRUCT_FMT
              [Vbytes b0; Vbytes b1; Vbytes b2; Vbytes b3; Vbytes b4; Vfloat tc;
               Vbytes b6]) as (blk & Hp & Hu).
  { unfold is_float in *.
    repeat constructor; cbn [item_ok]; first [assumption | lia]. }
  exists blk. unfold Contract.pack, Contract.unpack.
  cbn [Contract.contract_id Contract.car_id Contract.cust_id
       Contract.start_date Contract.end_date Contract.total_cost
       Contract.status].
  repeat match goal with H : fixed_bytes _ _ = Ok _ |- _ => rewrite H; clear H end.
  cbn [mbind result_bind]. split; [exact Hp |]. rewrite Hu.
  cbn [mbind result_bind].
  repeat match goal with H : bytes_to_str _ = Ok _ |- _ => rewrite H; clear H end.
  reflexivity.
Qed.

(** What [pack] yields is one record long; [unpack] accepts every block of
    that length, and the record it yields is within bounds. *)

Lemma Car_pack_length (c : Car.t) (p : bytes) :
  Car.pack c = Ok p -> length p = CAR_RECORD_SIZE.
Proof.
  unfold Car.pack. intros H. inv_bind H.
  eapply struct_pack_length; exact H.
Qed.

Lemma Customer_pack_length (c : Customer.t) (p : bytes) :
  Customer.pack c = Ok p -> length p = CUST_RECORD_SIZE.
Proof.
  unfold Customer.pack. intros H. inv_bind H.
  eapply struct_pack_length; exact H.
Qed.

Lemma Contract_pack_length (c : Contract.t) (p : bytes) :
  Contract.pack c = Ok p -> length p = CONTRACT_RECORD_SIZE.
Proof.
  unfold Contract.pack. intros H. inv_bind H.
  eapply struct_pack_length; exact H.
Qed.

Ltac decode_fields :=
  repeat match goal with
         | |- context [bytes_to_str ?x] =>
             let a := fresh "a" in
             let Ha := fresh "Ha" in
             destruct (bytes_to_str_total x) as [a Ha]; rewrite Ha;
             cbn [mbind result_bind]
         end.

Ltac field_bound :=
  match goal with
  | Ha : bytes_to_str ?x = Ok ?a |- fits ?a ?w = true =>
      apply (field_decoded x a w Ha); unfold len;
      rewrite ?length_take, ?length_drop; lia
  | |- is_uint32 (le_value ?x) = true =>
      pose proof (le_value_range x) as Hr; unfold len in Hr;
      rewrite ?length_take, ?length_drop in Hr;
      match type of Hr with
      | context [256 ^ Z.of_nat ?n] => replace n with 4%nat in Hr by lia
      end; unfold is_uint32; change (256 ^ Z.of_nat 4) with (2 ^ 32) in Hr; lia
  | |- is_float (le_value ?x) = true =>
      pose proof (le_value_range x) as Hr; unfold len in Hr;
      rewrite ?length_take, ?length_drop in Hr;
      match type of Hr with
      | context [256 ^ Z.of_nat ?n] => replace n with 8%nat in Hr by lia
      end; unfold is_float; change (256 ^ Z.of_nat 8) with (2 ^ 64) in Hr; lia
  end.

Lemma Car_unpack_spec (b : bytes) :
  length b = CAR_RECORD_SIZE ->
  exists c, Car.unpack b = Ok c /\ Car_in_bounds c = true.
Proof.
  intros Hb. unfold Car.unpack, struct_unpack.
  rewrite decide_True by exact Hb.
  change CAR_RECORD_SIZE with 95%nat in Hb.
  cbn [mbind result_bind unpack_fields CAR_STRUCT_FMT unpack_item item_size].
  decode_fields. eexists. split; [reflexivity |].
  unfold Car_in_bounds. cbn [Car.car_id Car.plate Car.brand Car.model Car.year
    Car.price_per_day Car.status Car.rented].
  rewrite !andb_true_iff.
  repeat match goal with |- _ /\ _ => split end; field_bound.
Qed.

Lemma Customer_unpack_spec (b : bytes) :
  length b = CUST_RECORD_SIZE ->
  exists c, Customer.unpack b = Ok c /\ Customer_in_bounds c = true.
Proof.
  intros Hb. unfold Customer.unpack, struct_unpack.
  rewrite decide_True by exact Hb.
  change CUST_RECORD_SIZE with 138%nat in Hb.
  cbn [mbind result_bind unpack_fields CUST_STRUCT_FMT unpack_item item_size].
  decode_fields. eexists. split; [reflexivity |].
  unfold Customer_in_bounds. cbn [Customer.cust_id Customer.name
    Customer.id_card Customer.phone Customer.email].
  rewrite !andb_true_iff.
  repeat match goal with |- _ /\ _ => split end; field_bound.
Qed.

Lemma Contract_unpack_spec (b : bytes) :
  length b = CONTRACT_RECORD_SIZE ->
  exists c, Contract.unpack b = Ok c /\ Contract_in_bounds c = true.
Proof.
  intros Hb. unfold Contract.unpack, struct_unpack.
  rewrite decide_True by exact Hb.
  change CONTRACT_RECORD_SIZE with 68%nat in Hb.
  cbn [mbind result_bind unpack_fields CONTRACT_STRUCT_FMT unpack_item item_size].
  decode_fields. eexists. split; [reflexivity |].
  unfold Contract_in_bounds. cbn [Contract.contract_id Contract.car_id
    Contract.cust_id Contract.start_date Contract.end_date Contract.total_cost
    Contract.status].
  rewrite !andb_true_iff.
  repeat match goal with |- _ /\ _ => split end; field_bound.
Qed.

(** ** Reading blocks *)

Lemma read_blocks_nil (fuel recsize : nat) : read_blocks fuel recsize [] = [].
Proof. destruct fuel; [reflexivity |]. cbn. now rewrite take_nil. Qed.

Lemma read_blocks_Forall (fuel recsize : nat) (data : bytes) :
  Forall (fun b => length b = recsize) (read_blocks fuel recsize data).
Proof.
  revert data. induction fuel as [| fuel IH]; intros data; cbn [read_blocks].
  - constructor.
  - destruct (bool_decide (take recsize data = []) || _) eqn:E; [constructor |].
    apply orb_false_elim in E as [_ E]. apply Nat.ltb_ge in E.
    constructor; [| apply IH]. rewrite length_take in *. lia.
Qed.

(** More fuel than the file has bytes changes nothing. *)
Lemma read_blocks_fuel (fuel fuel' recsize : nat) (data : bytes) :
  (length data <= fuel)%nat -> (length data <= fuel')%nat ->
  read_blocks fuel recsize data = read_blocks fuel' recsize data.
Proof.
  revert fuel' data. induction fuel as [| fuel IH]; intros fuel' data Hf Hf'.
  - destruct data; [| cbn in Hf; lia]. now rewrite !read_blocks_nil.
  - destruct fuel' as [| fuel'].
    { destruct data; [| cbn in Hf'; lia]. now rewrite !read_blocks_nil. }
    cbn [read_blocks].
    destruct (bool_decide (take recsize data = []) || _) eqn:E; [reflexivity |].
    apply orb_false_elim in E as [E1 E2]. apply bool_decide_eq_false in E1.
    f_equal. assert (length (take recsize data) <> 0)%nat as Hne.
    { intros H0. apply E1. now apply nil_length_inv. }
    rewrite length_take in Hne.
    apply IH; rewrite length_drop; lia.
Qed.

Lemma read_blocks_concat (fuel recsize : nat) (blocks : list bytes) :
  (0 < recsize)%nat -> Forall (fun b => length b = recsize) blocks ->
  (length blocks <= fuel)%nat ->
  read_blocks fuel recsize (concat blocks) = blocks.
Proof.
  intros Hpos Hall. revert fuel.
  induction Hall as [| b blocks Hb _ IH]; intros fuel Hf.
  - apply read_blocks_nil.
  - destruct fuel as [| fuel]; [cbn in Hf; lia |].
    cbn [read_blocks concat].
    rewrite take_app_length', drop_app_length' by lia.
    rewrite Hb, Nat.ltb_irrefl, orb_false_r.
    rewrite bool_decide_eq_false_2.
    + f_equal. apply IH. cbn in Hf. lia.
    + intros ->. cbn in Hb. lia.
Qed.

Lemma concat_length_blocks (recsize : nat) (blocks : list bytes) :
  (0 < recsize)%nat -> Forall (fun b => length b = recsize) blocks ->
  (length blocks <= length (concat blocks))%nat.
Proof.
  intros Hpos Hall. induction Hall as [| b blocks Hb _ IH]; [reflexivity |].
  cbn [concat length]. rewrite length_app. lia.
Qed.

(** ** Rewriting the file *)

Lemma tmp_ne (f : string) : (f +:+ ".tmp")%string <> f.
Proof.
  induction f as [| a f IH]; [discriminate |].
  cbn. intros [= Hf]. now apply IH.
Qed.

Lemma run_writes (tmp : string) (records : list bytes) (rest : list syscall)
    (acc : bytes) (w : fs) :
  w !! tmp = Some acc ->
  run (map (Write tmp) records ++ rest) w
  = run rest (<[tmp := acc ++ concat records]> w).
Proof.
  revert acc w. induction records as [| r records IH]; intros acc w Hw.
  - cbn [map app concat]. rewrite app_nil_r, insert_id by exact Hw. reflexivity.
  - cbn [map app concat run exec]. rewrite Hw.
    rewrite (IH (acc ++ r)) by apply lookup_insert_eq.
    rewrite insert_insert_eq, app_assoc. reflexivity.
Qed.

Lemma overwrite_all_raw_ok (self : BinaryRepository) (records : list bytes) (w : fs) :
  overwrite_all_raw self records w
  = (Ok tt, <[filename self := concat records]>
               (delete (filename self +:+ ".tmp")%string w)).
Proof.
  unfold overwrite_all_raw, overwrite_all_raw_calls.
  cbn [run exec]. rewrite (run_writes _ _ _ []) by apply lookup_insert_eq.
  cbn [app run exec]. rewrite insert_insert_eq, lookup_insert_eq, delete_insert_eq.
  reflexivity.
Qed.

Lemma exec_leaves (f : string) (c : syscall) (w w' : fs) :
  leaves f c -> exec c w = Ok w' -> w' !! f = w !! f.
Proof.
  destruct c as [path | path data | path | src dst]; cbn [leaves exec].
  - intros Hne [= <-]. now apply lookup_insert_ne.
  - intros Hne. destruct (w !! path); [| discriminate].
    intros [= <-]. now apply lookup_insert_ne.
  - intros _ [= <-]. reflexivity.
  - contradiction.
Qed.

Lemma exec_failing_leaves (f : string) (c : syscall) (p : nat) (w : fs) :
  leaves f c -> exec_failing c p w !! f = w !! f.
Proof.
  destruct c as [path | path data | path | src dst]; cbn [leaves exec_failing];
    try reflexivity.
  intros Hne. destruct (w !! path); [| reflexivity]. now apply lookup_insert_ne.
Qed.

Lemma run_failing_before_rename (f src : string) (pre : list syscall)
    (k p : nat) (w : fs) :
  Forall (leaves f) pre -> (k < length (pre ++ [Replace src f]))%nat ->
  exists e w', run_failing k p (pre ++ [Replace src f]) w = (Raise e, w')
               /\ w' !! f = w !! f.
Proof.
  intros Hpre. revert k w. induction Hpre as [| c pre Hc _ IH]; intros k w Hk.
  - cbn in Hk. destruct k; [| lia]. cbn. now exists OSError, w.
  - cbn [app run_failing]. destruct k as [| k].
    + exists OSError, (exec_failing c p w). split; [reflexivity |].
      now apply exec_failing_leaves.
    + cbn [run_failing]. destruct (exec c w) as [w1 | e] eqn:Hex.
      * destruct (IH k w1) as (e & w' & Hrun & Hw'); [cbn in Hk; lia |].
        exists e, w'. split; [exact Hrun |].
        rewrite Hw'. eapply exec_leaves; eassumption.
      * now exists e, w.
Qed.

Lemma run_failing_late (k p : nat) (calls : list syscall) (w : fs) :
  (length calls <= k)%nat -> run_failing k p calls w = run calls w.
Proof.
  revert k w. induction calls as [| c calls IH]; intros k w Hk;
    [destruct k; reflexivity |].
  cbn in Hk. destruct k as [| k]; [lia |]. cbn [run_failing run].
  destruct (exec c w); [apply IH; lia | reflexivity].
Qed.

Lemma overwrite_all_raw_calls_split (self : BinaryRepository) (records : list bytes) :
  exists pre,
    overwrite_all_raw_calls self records
    = pre ++ [Replace (filename self +:+ ".tmp")%string (filename self)]
    /\ Forall (leaves (filename self)) pre.
Proof.
  exists (Open_wb (filename self +:+ ".tmp")%string
            :: map (Write (filename self +:+ ".tmp")%string) records
            ++ [Close (filename self +:+ ".tmp")%string]).
  split.
  - unfold overwrite_all_raw_calls. cbn [app]. rewrite <- app_assoc. reflexivity.
  - constructor; [apply tmp_ne |]. apply Forall_app. split.
    + apply Forall_map, Forall_forall. intros r _. apply tmp_ne.
    + repeat constructor. apply tmp_ne.
Qed.

(** ** Lists with one or no matching element *)

Lemma filter_nil_Forall {A} (f : A -> bool) (l : list A) :
  List.filter f l = [] -> Forall (fun x => f x = false) l.
Proof.
  induction l as [| x l IH]; cbn [List.filter]; [constructor |].
  destruct (f x) eqn:E; [discriminate |]. intros H. constructor; auto.
Qed.

Lemma filter_one_split {A} (f : A -> bool) (l : list A) :
  length (List.filter f l) = 1%nat ->
  exists l1 x l2, l = l1 ++ x :: l2 /\ f x = true
                  /\ Forall (fun y => f y = false) l1
                  /\ Forall (fun y => f y = false) l2.
Proof.
  induction l as [| y l IH]; cbn [List.filter]; [discriminate |].
  destruct (f y) eqn:E.
  - cbn [length]. intros Hl. exists [], y, l. repeat split; [exact E | constructor |].
    apply filter_nil_Forall. apply nil_length_inv. lia.
  - intros Hl. destruct (IH Hl) as (l1 & x & l2 & -> & Hx & H1 & H2).
    exists (y :: l1), x, l2. repeat split; [exact Hx | | exact H2].
    constructor; assumption.
Qed.

Lemma existsb_none {A} (f : A -> bool) (l : list A) :
  Forall (fun x => f x = false) l -> existsb f l = false.
Proof.
  induction 1 as [| x l Hx _ IH]; [reflexivity |]. cbn. now rewrite Hx, IH.
Qed.

Lemma existsb_middle {A} (f : A -> bool) (l1 l2 : list A) (x : A) :
  f x = true -> existsb f (l1 ++ x :: l2) = true.
Proof.
  intros Hx. rewrite existsb_app. cbn. rewrite Hx. now rewrite orb_true_r.
Qed.

Lemma map_if_none {A} (f : A -> bool) (g : A -> A) (l : list A) :
  Forall (fun x => f x = false) l ->
  map (fun x => if f x then g x else x) l = l.
Proof.
  induction 1 as [| x l Hx _ IH]; [reflexivity |]. cbn. now rewrite Hx, IH.
Qed.

Lemma filter_negb_none {A} (f : A -> bool) (l : list A) :
  Forall (fun x => f x = false) l ->
  List.filter (fun x => negb (f x)) l = l.
Proof.
  induction 1 as [| x l Hx _ IH]; [reflexivity |]. cbn. now rewrite Hx, IH.
Qed.

(** ** The repositories *)

Section RepositoryFacts.
Context {E : Type} {ent : Entity E} {laws : EntityLaws E}.

Lemma has_id_unpack (id : str) (b : bytes) :
  length b = record_size ->
  exists c, unpack b = Ok c /\ has_id id b = bool_decide (ident c = id).
Proof.
  intros Hb. destruct (unpack_total b Hb) as [c Hc].
  exists c. split; [exact Hc |]. unfold has_id. now rewrite Hc.
Qed.

Lemma read_all_raw_blocks (self : BinaryRepository) (w : fs) (raw : list bytes) :
  read_all_raw self w = Ok raw ->
  Forall (fun b => length b = recsize self) raw.
Proof.
  unfold read_all_raw, iterate_raw.
  destruct (w !! filename self) as [data |]; [| discriminate].
  intros Heq.
  replace raw with (read_blocks (S (length data)) (recsize self) data)
    by congruence.
  apply read_blocks_Forall.
Qed.

(** Reading back what [overwrite_all_raw] wrote. *)
Lemma read_all_raw_overwritten (self : BinaryRepository) (out : list bytes) (w' : fs) :
  recsize self = record_size ->
  Forall (fun b => length b = record_size) out ->
  w' !! filename self = Some (concat out) ->
  read_all_raw self w' = Ok out.
Proof.
  intros Hrs Hall Hw'. unfold read_all_raw, iterate_raw. rewrite Hw', Hrs.
  f_equal. apply read_blocks_concat; [apply record_size_pos | exact Hall |].
  pose proof (concat_length_blocks record_size out record_size_pos Hall). lia.
Qed.

Lemma unpack_each_ok (raw : list bytes) :
  Forall (fun b => length b = record_size) raw ->
  exists cs, unpack_each raw = Ok cs
             /\ Forall2 (fun b c => unpack b = Ok c) raw cs.
Proof.
  induction 1 as [| b raw Hb _ (cs & Hcs & Hall)].
  - exists []. split; [reflexivity | constructor].
  - destruct (unpack_total b Hb) as [c Hc]. exists (c :: cs).
    cbn [unpack_each]. rewrite Hc, Hcs. split; [reflexivity |].
    constructor; assumption.
Qed.

Lemma update_loop_spec (id : str) (new : E) (p : bytes) (raw : list bytes)
    (changed : bool) (out : list bytes) :
  Forall (fun b => length b = record_size) raw -> pack new = Ok p ->
  update_loop id new raw changed out
  = Ok (changed || existsb (has_id id) raw,
        out ++ map (fun b => if has_id id b then p else b) raw).
Proof.
  intros Hall Hp. revert changed out.
  induction Hall as [| b raw Hb _ IH]; intros changed out.
  - cbn. now rewrite orb_false_r, app_nil_r.
  - destruct (has_id_unpack id b Hb) as (c & Hc & Hid).
    cbn [update_loop existsb map]. rewrite Hc, Hid. cbn [mbind result_bind].
    destruct (bool_decide (ident c = id)).
    + rewrite Hp. cbn [mbind result_bind]. rewrite IH, <- app_assoc.
      now rewrite orb_true_r.
    + rewrite IH, <- app_assoc. reflexivity.
Qed.

Lemma update_loop_none (id : str) (new : E) (raw : list bytes)
    (changed : bool) (out : list bytes) :
  Forall (fun b => length b = record_size) raw ->
  Forall (fun b => has_id id b = false) raw ->
  update_loop id new raw changed out = Ok (changed, out ++ raw).
Proof.
  intros Hall Hnone. revert changed out.
  induction Hall as [| b raw Hb _ IH]; intros changed out.
  - cbn. now rewrite app_nil_r.
  - apply Forall_cons in Hnone as [Hb0 Hnone].
    destruct (has_id_unpack id b Hb) as (c & Hc & Hid).
    cbn [update_loop]. rewrite Hc. cbn [mbind result_bind].
    rewrite <- Hid, Hb0. rewrite (IH Hnone), <- app_assoc. reflexivity.
Qed.

Lemma Repository_update_one (self : BinaryRepository) (id : str) (new : E)
    (p : bytes) (w : fs) (raw : list bytes) :
  recsize self = record_size ->
  read_all_raw self w = Ok raw ->
  length (matching id raw) = 1%nat ->
  pack new = Ok p ->
  exists (i : nat) (b : bytes) (w' : fs),
    raw !! i = Some b /\ has_id id b = true
    /\ Repository_update self id new w = (Ok true, w')
    /\ w' !! filename self = Some (concat (<[i := p]> raw))
    /\ read_all_raw self w' = Ok (<[i := p]> raw).
Proof.
  intros Hrs Hraw Hone Hp.
  pose proof (read_all_raw_blocks self w raw Hraw) as Hall. rewrite Hrs in Hall.
  destruct (filter_one_split _ _ Hone) as (l1 & b & l2 & -> & Hb & H1 & H2).
  exists (length l1), b,
    (<[filename self := concat (<[length l1 := p]> (l1 ++ b :: l2))]>
       (delete (filename self +:+ ".tmp")%string w)).
  assert (Hout : map (fun x => if has_id id x then p else x) (l1 ++ b :: l2)
                 = <[length l1 := p]> (l1 ++ b :: l2)).
  { rewrite map_app. cbn [map]. rewrite Hb, !map_if_none by assumption.
    replace (length l1) with (length l1 + 0)%nat at 1 by lia.
    now rewrite insert_app_r. }
  repeat split.
  - now rewrite list_lookup_middle.
  - exact Hb.
  - unfold Repository_update. rewrite Hraw.
    rewrite (update_loop_spec id new p) by assumption.
    rewrite existsb_middle by exact Hb. cbn [orb app].
    rewrite overwrite_all_raw_ok, Hout. reflexivity.
  - apply lookup_insert_eq.
  - apply read_all_raw_overwritten; [exact Hrs | | apply lookup_insert_eq].
    rewrite <- Hout. apply Forall_map, Forall_forall. intros x Hx.
    destruct (has_id id x).
    + now apply pack_length with new.
    + rewrite Forall_forall in Hall. now apply Hall.
Qed.

Lemma Repository_update_none (self : BinaryRepository) (id : str) (new : E)
    (w : fs) (raw : list bytes) :
  recsize self = record_size ->
  read_all_raw self w = Ok raw ->
  matching id raw = [] ->
  Repository_update self id new w = (Ok false, w).
Proof.
  intros Hrs Hraw Hnone.
  pose proof (read_all_raw_blocks self w raw Hraw) as Hall. rewrite Hrs in Hall.
  apply filter_nil_Forall in Hnone.
  unfold Repository_update. rewrite Hraw.
  rewrite update_loop_none by assumption. reflexivity.
Qed.

Lemma Repository_find_Some (self : BinaryRepository) (id : str) (w : fs)
    (raw : list bytes) :
  recsize self = record_size ->
  read_all_raw self w = Ok raw ->
  matching id raw <> [] ->
  exists c, Repository_find self id w = Ok (Some c) /\ ident c = id.
Proof.
  intros Hrs Hraw Hsome.
  pose proof (read_all_raw_blocks self w raw Hraw) as Hall. rewrite Hrs in Hall.
  destruct (unpack_each_ok raw Hall) as (cs & Hcs & Hdec).
  unfold Repository_find, Repository_all.
  unfold read_all_raw in Hraw. rewrite Hraw. cbn [mbind result_bind].
  rewrite Hcs. cbn [mbind result_bind].
  assert (Hex : exists c, c ∈ filter (fun c => ident c = id) cs).
  { clear Hcs Hraw Hall. induction Hdec as [| b c raw cs Hbc _ IH].
    - now destruct Hsome.
    - unfold matching in Hsome. cbn [List.filter] in Hsome.
      destruct (has_id id b) eqn:Hb.
      + exists c. apply list_elem_of_filter. split; [| left].
        unfold has_id in Hb. rewrite Hbc in Hb. now apply bool_decide_eq_true in Hb.
      + destruct (IH Hsome) as (c' & Hc'). exists c'.
        apply list_elem_of_filter in Hc' as [? ?].
        apply list_elem_of_filter. split; [assumption | now right]. }
  destruct Hex as (c' & Hc').
  destruct (filter (fun c => ident c = id) cs) as [| c0 rest] eqn:Hf.
  - now apply not_elem_of_nil in Hc'.
  - exists c0. split; [reflexivity |].
    assert (Hin : c0 ∈ filter (fun c => ident c = id) cs) by (rewrite Hf; left).
    now apply list_elem_of_filter in Hin as [? _].
Qed.

Lemma Repository_add_duplicate (self : BinaryRepository) (e : E) (w : fs)
    (raw : list bytes) :
  recsize self = record_size ->
  read_all_raw self w = Ok raw ->
  matching (ident e) raw <> [] ->
  Repository_add self e w = (Ok false, w).
Proof.
  intros Hrs Hraw Hsome.
  destruct (Repository_find_Some self (ident e) w raw Hrs Hraw Hsome)
    as (c & Hfind & _).
  unfold Repository_add. now rewrite Hfind.
Qed.
End RepositoryFacts.

#[global] Instance Car_laws : EntityLaws Car.t.
Proof.
  split.
  - cbn. lia.
  - exact Car_pack_length.
  - intros b Hb. destruct (Car_unpack_spec b Hb) as (c & Hc & _). now exists c.
Qed.

#[global] Instance Customer_laws : EntityLaws Customer.t.
Proof.
  split.
  - cbn. lia.
  - exact Customer_pack_length.
  - intros b Hb. destruct (Customer_unpack_spec b Hb) as (c & Hc & _). now exists c.
Qed.

#[global] Instance Contract_laws : EntityLaws Contract.t.
Proof.
  split.
  - cbn. lia.
  - exact Contract_pack_length.
  - intros b Hb. destruct (Contract_unpack_spec b Hb) as (c & Hc & _). now exists c.
Qed.

(** ** Soft delete of a car *)

Lemma mark_deleted_loop_skip (car_id : str) (l1 rest : list bytes)
    (changed : bool) (out : list bytes) :
  Forall (fun b => length b = CAR_RECORD_SIZE) l1 ->
  Forall (fun b => has_id (ent := Car_entity) car_id b = false) l1 ->
  CarRepository.mark_deleted_loop car_id (l1 ++ rest) changed out
  = CarRepository.mark_deleted_loop car_id rest changed (out ++ l1).
Proof.
  intros Hall Hnone. revert out.
  induction Hall as [| b l1 Hb _ IH]; intros out.
  - now rewrite app_nil_r.
  - apply Forall_cons in Hnone as [Hb0 Hnone].
    destruct (has_id_unpack (ent := Car_entity) car_id b Hb) as (c & Hc & Hid).
    cbn in Hc, Hid.
    cbn [app CarRepository.mark_deleted_loop]. rewrite Hc.
    cbn [mbind result_bind]. rewrite <- Hid, Hb0.
    rewrite (IH Hnone), <- app_assoc. reflexivity.
Qed.

Lemma mark_deleted_loop_one (car_id : str) (l1 l2 : list bytes) (b p : bytes)
    (c : Car.t) :
  Forall (fun b => length b = CAR_RECORD_SIZE) (l1 ++ b :: l2) ->
  Forall (fun b => has_id (ent := Car_entity) car_id b = false) l1 ->
  Forall (fun b => has_id (ent := Car_entity) car_id b = false) l2 ->
  Car.unpack b = Ok c -> Car.car_id c = car_id ->
  Car.pack (Car.set_status c (lit "Deleted")) = Ok p ->
  CarRepository.mark_deleted_loop car_id (l1 ++ b :: l2) false []
  = Ok (true, l1 ++ p :: l2).
Proof.
  intros Hall H1 H2 Hc Hid Hp.
  apply Forall_app in Hall as [Hl1 Hl2]. apply Forall_cons in Hl2 as [_ Hl2].
  rewrite mark_deleted_loop_skip by assumption.
  cbn [CarRepository.mark_deleted_loop app]. rewrite Hc. cbn [mbind result_bind].
  rewrite bool_decide_eq_true_2 by exact Hid. rewrite Hp. cbn [mbind result_bind].
  rewrite <- (app_nil_r l2) at 1. rewrite mark_deleted_loop_skip by assumption.
  cbn [CarRepository.mark_deleted_loop]. now rewrite <- app_assoc.
Qed.

Lemma mark_deleted_none (self : BinaryRepository) (car_id : str) (w : fs)
    (raw : list bytes) :
  recsize self = CAR_RECORD_SIZE ->
  read_all_raw self w = Ok raw ->
  matching (ent := Car_entity) car_id raw = [] ->
  CarRepository.mark_deleted self car_id w = (Ok false, w).
Proof.
  intros Hrs Hraw Hnone.
  pose proof (read_all_raw_blocks self w raw Hraw) as Hall.
  rewrite Hrs in Hall. apply filter_nil_Forall in Hnone.
  unfold CarRepository.mark_deleted. rewrite Hraw.
  rewrite <- (app_nil_r raw) at 1. rewrite mark_deleted_loop_skip by assumption.
  reflexivity.
Qed.

(** ** Hard delete of a customer *)

Lemma delete_customer_loop_skip (cid : str) (l1 rest : list bytes)
    (found : bool) (out : list bytes) :
  Forall (fun b => length b = CUST_RECORD_SIZE) l1 ->
  Forall (fun b => has_id (ent := Customer_entity) cid b = false) l1 ->
  delete_customer_loop cid (l1 ++ rest) found out
  = delete_customer_loop cid rest found (out ++ l1).
Proof.
  intros Hall Hnone. revert out.
  induction Hall as [| b l1 Hb _ IH]; intros out.
  - now rewrite app_nil_r.
  - apply Forall_cons in Hnone as [Hb0 Hnone].
    destruct (has_id_unpack (ent := Customer_entity) cid b Hb) as (c & Hc & Hid).
    cbn in Hc, Hid.
    cbn [app delete_customer_loop]. rewrite Hc.
    cbn [mbind result_bind]. rewrite <- Hid, Hb0.
    rewrite (IH Hnone), <- app_assoc. reflexivity.
Qed.

Lemma delete_customer_loop_one (cid : str) (l1 l2 : list bytes) (b : bytes) :
  Forall (fun b => length b = CUST_RECORD_SIZE) (l1 ++ b :: l2) ->
  Forall (fun b => has_id (ent := Customer_entity) cid b = false) l1 ->
  Forall (fun b => has_id (ent := Customer_entity) cid b = false) l2 ->
  has_id (ent := Customer_entity) cid b = true ->
  delete_customer_loop cid (l1 ++ b :: l2) false [] = Ok (true, l1 ++ l2).
Proof.
  intros Hall H1 H2 Hb.
  apply Forall_app in Hall as [Hl1 Hl2]. apply Forall_cons in Hl2 as [Hlb Hl2].
  rewrite delete_customer_loop_skip by assumption.
  destruct (has_id_unpack (ent := Customer_entity) cid b Hlb) as (c & Hc & Hid).
  cbn in Hc, Hid.
  cbn [delete_customer_loop app]. rewrite Hc. cbn [mbind result_bind].
  rewrite <- Hid, Hb.
  rewrite <- (app_nil_r l2) at 1. rewrite delete_customer_loop_skip by assumption.
  reflexivity.
Qed.

(** ** Day counting *)

Lemma make_date_valid (y m d : Z) (dt : date) :
  make_date y m d = Ok dt -> valid_date dt.
Proof.
  unfold make_date. destruct (_ && _) eqn:E; [| discriminate].
  intros [= <-]. unfold valid_date. cbn. lia.
Qed.

Lemma parse_date_valid (nd : Z -> option Z) (s : str) (dt : date) :
  parse_date nd s = Ok dt -> valid_date dt.
Proof.
  unfold parse_date. repeat case_match; try discriminate.
  apply make_date_valid.
Qed.

Lemma days_before_year_succ (y : Z) :
  days_before_year (y + 1) = days_before_year y + (if is_leap y then 366 else 365).
Proof.
  unfold days_before_year, is_leap. cbn zeta.
  replace (y + 1 - 1) with y by lia.
  destruct (y mod 4 =? 0) eqn:E4; destruct (y mod 100 =? 0) eqn:E100;
    destruct (y mod 400 =? 0) eqn:E400; cbn [andb orb negb]; zlia.
Qed.

Lemma days_before_year_mono (y y' : Z) :
  y <= y' -> days_before_year y <= days_before_year y'.
Proof. unfold days_before_year. cbn zeta. intros Hy. zlia. Qed.

Lemma month_cases (m : Z) :
  1 <= m <= 12 ->
  m = 1 \/ m = 2 \/ m = 3 \/ m = 4 \/ m = 5 \/ m = 6 \/ m = 7 \/ m = 8
  \/ m = 9 \/ m = 10 \/ m = 11 \/ m = 12.
Proof. lia. Qed.

Ltac each_month H :=
  apply month_cases in H;
  repeat match type of H with _ \/ _ => destruct H as [H | H] end; subst.

Lemma toordinal_in_year (d : date) :
  valid_date d ->
  days_before_year (date_year d) < toordinal d
  /\ toordinal d <= days_before_year (date_year d + 1).
Proof.
  destruct d as [y m dd]. unfold valid_date, toordinal. cbn.
  intros (_ & Hm & Hd). rewrite days_before_year_succ.
  unfold days_in_month, days_before_month in *.
  each_month Hm; destruct (is_leap y); cbn in *; lia.
Qed.

Lemma toordinal_lt (a b : date) :
  valid_date a -> valid_date b -> date_lt a b = true -> toordinal a < toordinal b.
Proof.
  intros Ha Hb Hlt.
  pose proof (toordinal_in_year a Ha) as [_ Ha2].
  pose proof (toordinal_in_year b Hb) as [Hb1 _].
  destruct a as [y m d], b as [y' m' d'].
  unfold valid_date, date_lt in *. cbn in *.
  destruct (y <? y') eqn:Ey.
  - pose proof (days_before_year_mono (y + 1) y'). lia.
  - assert (y = y') by lia. subst y'. clear Ha2 Hb1.
    destruct Ha as (_ & Hm & Hd), Hb as (_ & Hm' & Hd').
    unfold toordinal, days_in_month, days_before_month in *. cbn.
    each_month Hm; each_month Hm'; destruct (is_leap y); cbn in *; lia.
Qed.

Lemma est_cost_zero_days (price : Z) :
  exists cost, est_cost 0 price = Ok cost /\ float_lt cost 0 = false.
Proof.
  exists (float_mul 0 price). split; [reflexivity |].
  unfold float_lt, float_mul. change (SF_of_bits 0) with (S754_zero false).
  destruct (SF_of_bits price) as [[] | [] | | [] m e]; reflexivity.
Qed.

(** ** Adding a record *)

Section AddFacts.
Context {E : Type} {ent : Entity E} {laws : EntityLaws E}.

Lemma Repository_find_None (self : BinaryRepository) (id : str) (w : fs)
    (raw : list bytes) :
  recsize self = record_size ->
  read_all_raw self w = Ok raw ->
  matching id raw = [] ->
  Repository_find self id w = Ok None.
Proof.
  intros Hrs Hraw Hnone.
  pose proof (read_all_raw_blocks self w raw Hraw) as Hall. rewrite Hrs in Hall.
  destruct (unpack_each_ok raw Hall) as (cs & Hcs & Hdec).
  unfold Repository_find, Repository_all.
  unfold read_all_raw in Hraw. rewrite Hraw. cbn [mbind result_bind].
  rewrite Hcs. cbn [mbind result_bind]. f_equal.
  apply filter_nil_Forall in Hnone. clear Hcs Hraw Hall.
  induction Hdec as [| b c raw cs Hbc _ IH]; [reflexivity |].
  apply Forall_cons in Hnone as [Hb Hnone].
  unfold has_id in Hb. rewrite Hbc in Hb. apply bool_decide_eq_false in Hb.
  rewrite filter_cons_False by exact Hb. now apply IH.
Qed.

(** With no record of that identity, [add] appends the encoding. *)
Lemma Repository_add_fresh (self : BinaryRepository) (e : E) (p data : bytes)
    (w : fs) (raw : list bytes) :
  recsize self = record_size ->
  w !! filename self = Some data ->
  read_all_raw self w = Ok raw ->
  matching (ident e) raw = [] ->
  pack e = Ok p ->
  Repository_add self e w = (Ok true, <[filename self := data ++ p]> w).
Proof.
  intros Hrs Hdata Hraw Hnone Hp. unfold Repository_add.
  rewrite (Repository_find_None self (ident e) w raw Hrs Hraw Hnone).
  now rewrite Hdata, Hp.
Qed.
End AddFacts.

(** ** The codec: round trip *)

(** C1, as the claim states it, fails: a car whose identity ends in a
    space is within the bounds of every field, and comes back from
    [unpack (pack _)] with the space gone. *)
Lemma roundtrip_loses_trailing_space :
  Car_in_bounds car_trailing = true
  /\ (Car.pack car_trailing ≫= Car.unpack) = Ok car_C001
  /\ (Car.pack car_trailing ≫= Car.unpack) <> Ok car_trailing.
Proof.
  split; [reflexivity |].
  assert (H : (Car.pack car_trailing ≫= Car.unpack) = Ok car_C001)
    by (vm_compute; reflexivity).
  split; [exact H |]. rewrite H. intros [=].
Qed.

(** C1 (amended): for every car, customer and contract whose text fields
    have a UTF-8 form within the width of their field and do not end in a
    space, whose year is a uint32 and whose rate or cost is a binary64,
    [pack] succeeds and [unpack] of the block is the record itself. *)
Theorem roundtrip_without_trailing_space :
  (forall c : Car.t,
     Car_in_bounds c = true -> Car_no_trailing_space c = true ->
     exists b, Car.pack c = Ok b /\ Car.unpack b = Ok c)
  /\ (forall c : Customer.t,
        Customer_in_bounds c = true -> Customer_no_trailing_space c = true ->
        exists b, Customer.pack c = Ok b /\ Customer.unpack b = Ok c)
  /\ (forall c : Contract.t,
        Contract_in_bounds c = true -> Contract_no_trailing_space c = true ->
        exists b, Contract.pack c = Ok b /\ Contract.unpack b = Ok c).
Proof.
  split; [exact Car_roundtrip |]. split; [exact Customer_roundtrip |].
  exact Contract_roundtrip.
Qed.

Lemma roundtrip_without_trailing_space_witness :
  (exists b, Car.pack car_C001 = Ok b /\ Car.unpack b = Ok car_C001)
  /\ (exists b, Customer.pack customer_U001 = Ok b
                /\ Customer.unpack b = Ok customer_U001)
  /\ (exists b, Contract.pack contract_K001 = Ok b
                /\ Contract.unpack b = Ok contract_K001).
Proof.
  destruct roundtrip_without_trailing_space as (Hcar & Hcust & Hcon).
  split; [apply Hcar; reflexivity |].
  split; [apply Hcust; reflexivity | apply Hcon; reflexivity].
Defined.

(** ** The codec: truncation and lossy decoding *)

(** C8: a text whose UTF-8 form is longer than the width [W] is packed
    into exactly [W] bytes, the first [W] of that form, without raising;
    and [bytes_to_str] raises on no block, in particular on none of [W]
    bytes and not on the truncated field. *)
Theorem truncation_then_lossy_decode (s : str) (W : Z) (e : bytes) :
  0 <= W -> utf8_encode s = Ok e -> W < len e ->
  (exists b, fixed_bytes s W = Ok b /\ b = take (Z.to_nat W) e /\ len b = W
             /\ is_Ok (bytes_to_str b))
  /\ (forall blk : bytes, len blk = W -> is_Ok (bytes_to_str blk)).
Proof.
  intros HW He Hlen. split; [| intros blk _; apply bytes_to_str_total].
  assert (Hfb : fixed_bytes s W = Ok (take (Z.to_nat W) e)).
  { unfold fixed_bytes. rewrite He. cbn [mbind result_bind].
    unfold slice_to. replace (W <? 0) with false by lia.
    unfold len in *. rewrite length_take.
    replace (Z.to_nat (W - Z.of_nat (Z.to_nat W `min` length e))) with 0%nat by lia.
    cbn [replicate]. now rewrite app_nil_r. }
  exists (take (Z.to_nat W) e). repeat split.
  - exact Hfb.
  - apply (fixed_bytes_length s W _ HW Hfb).
  - apply bytes_to_str_total.
Qed.

Lemma truncation_then_lossy_decode_witness :
  (exists b, fixed_bytes [0x41; 0x20AC] 3 = Ok b
             /\ b = take (Z.to_nat 3) [x41; xe2; x82; xac] /\ len b = 3
             /\ is_Ok (bytes_to_str b))
  /\ (forall blk : bytes, len blk = 3 -> is_Ok (bytes_to_str blk)).
Proof.
  apply (truncation_then_lossy_decode [0x41; 0x20AC] 3 [x41; xe2; x82; xac]).
  - lia.
  - reflexivity.
  - vm_compute. reflexivity.
Defined.

(** Strict decoding does raise on the truncated field. *)
Example strict_decode_raises :
  (fixed_bytes [0x41; 0x20AC] 3 ≫= utf8_decode Strict) = Raise UnicodeDecodeError.
Proof. reflexivity. Qed.

(** ** Day count and cost *)

(** C9: from 2025-09-20 to 2025-09-25 the day count is 6, both days
    counted, and 6 days at the rate 2500.00 cost exactly 15000.00. *)
Theorem contract_cost_scenario :
  (forall nd, date_diff_days nd (lit "2025-09-20") (lit "2025-09-25") = Ok 6)
  /\ float_of_int 2500 = Ok 0x40A3880000000000
  /\ est_cost 6 0x40A3880000000000 = Ok 0x40CD4C0000000000
  /\ float_of_int 15000 = Ok 0x40CD4C0000000000.
Proof.
  split; [intros nd; vm_compute; reflexivity |].
  repeat split; vm_compute; reflexivity.
Qed.

(** C10: when the end date is before the start date the day count is 0,
    and the cost computed from it is not below zero at any rate. *)
Theorem date_diff_days_clamped (nd : Z -> option Z) (a b : str)
    (da db : date) (price : Z) :
  parse_date nd a = Ok da -> parse_date nd b = Ok db -> date_lt db da = true ->
  date_diff_days nd a b = Ok 0
  /\ exists cost, (date_diff_days nd a b ≫= fun n => est_cost n price) = Ok cost
                  /\ float_lt cost 0 = false.
Proof.
  intros Ha Hb Hlt.
  assert (Hd : date_diff_days nd a b = Ok 0).
  { unfold date_diff_days. rewrite Hb, Ha. cbn [mbind result_bind].
    pose proof (toordinal_lt db da (parse_date_valid nd b db Hb)
                  (parse_date_valid nd a da Ha) Hlt).
    f_equal. lia. }
  split; [exact Hd |]. rewrite Hd. cbn [mbind result_bind].
  apply est_cost_zero_days.
Qed.

Lemma date_diff_days_clamped_witness :
  date_diff_days (fun _ => None) (lit "2025-09-25") (lit "2025-09-20") = Ok 0
  /\ exists cost,
       (date_diff_days (fun _ => None) (lit "2025-09-25") (lit "2025-09-20")
          ≫= fun n => est_cost n 0x40A3880000000000) = Ok cost
       /\ float_lt cost 0 = false.
Proof.
  apply (date_diff_days_clamped (fun _ => None)
           (lit "2025-09-25") (lit "2025-09-20")
           {| date_year := 2025; date_month := 9; date_day := 25 |}
           {| date_year := 2025; date_month := 9; date_day := 20 |}
           0x40A3880000000000); reflexivity.
Defined.

(** ** Rewriting the file in one step *)

(** C4: run to its end, [overwrite_all_raw] leaves the file holding the
    given blocks in their order and nothing else; when any of its calls
    fails, the rename included, the file holds what it held before. *)
Theorem overwrite_all_raw_atomic (self : BinaryRepository) (records : list bytes)
    (w : fs) :
  (exists w', overwrite_all_raw self records w = (Ok tt, w')
              /\ w' !! filename self = Some (concat records))
  /\ (forall k p : nat,
        (k < length (overwrite_all_raw_calls self records))%nat ->
        exists e w', overwrite_all_raw_failing k p self records w = (Raise e, w')
                     /\ w' !! filename self = w !! filename self).
Proof.
  split.
  - eexists. split; [apply overwrite_all_raw_ok | apply lookup_insert_eq].
  - intros k p Hk. unfold overwrite_all_raw_failing.
    destruct (overwrite_all_raw_calls_split self records) as (pre & Heq & Hpre).
    rewrite Heq in *. now apply run_failing_before_rename.
Qed.

Lemma overwrite_all_raw_atomic_witness :
  exists e w',
    overwrite_all_raw_failing 2 40 cars_dat [block_C001_rented; block_C002] two_cars
    = (Raise e, w')
    /\ w' !! filename cars_dat = two_cars !! filename cars_dat.
Proof.
  destruct (overwrite_all_raw_atomic cars_dat [block_C001_rented; block_C002]
              two_cars) as [_ Hfail].
  apply Hfail. cbn. lia.
Defined.

(** ** Repositories *)

(** C2: when a record of the store carries the identity of the entity,
    [add] answers [False] and the files are what they were. *)
Theorem add_duplicate_rejected :
  (forall (f : string) (w : fs) (raw : list bytes) (car : Car.t),
     let self := {| filename := f; recsize := CAR_RECORD_SIZE |} in
     read_all_raw self w = Ok raw ->
     matching (E := Car.t) (Car.car_id car) raw <> [] ->
     CarRepository.add self car w = (Ok false, w))
  /\ (forall (f : string) (w : fs) (raw : list bytes) (cust : Customer.t),
        let self := {| filename := f; recsize := CUST_RECORD_SIZE |} in
        read_all_raw self w = Ok raw ->
        matching (E := Customer.t) (Customer.cust_id cust) raw <> [] ->
        CustomerRepository.add self cust w = (Ok false, w)).
Proof.
  split; intros f w raw e self Hraw Hsome.
  - apply (Repository_add_duplicate (ent := Car_entity) self e w raw);
      [reflexivity | exact Hraw | exact Hsome].
  - apply (Repository_add_duplicate (ent := Customer_entity) self e w raw);
      [reflexivity | exact Hraw | exact Hsome].
Qed.

Lemma add_duplicate_rejected_witness :
  CarRepository.add cars_dat car_C001_rented two_cars = (Ok false, two_cars)
  /\ CustomerRepository.add customers_dat customer_U002 two_customers
     = (Ok false, two_customers).
Proof.
  destruct add_duplicate_rejected as [Hcar Hcust]. split.
  - apply (Hcar "cars.dat"%string two_cars [block_C001; block_C002]);
      [reflexivity | vm_compute; discriminate].
  - apply (Hcust "customers.dat"%string two_customers [block_U001; block_U002]);
      [reflexivity | vm_compute; discriminate].
Defined.

(** C3: when exactly one record of the store carries the identity,
    [update] answers [True], and the store then holds the same records in
    the same order but for that one, which is the encoding of the new
    entity. *)
Theorem update_replaces_one_record (f : string) (w : fs) (raw : list bytes)
    (car_id : str) (new_car : Car.t) (p : bytes) :
  let self := {| filename := f; recsize := CAR_RECORD_SIZE |} in
  read_all_raw self w = Ok raw ->
  length (matching (E := Car.t) car_id raw) = 1%nat ->
  Car.pack new_car = Ok p ->
  exists (i : nat) (b : bytes) (w' : fs),
    raw !! i = Some b /\ has_id (E := Car.t) car_id b = true
    /\ CarRepository.update self car_id new_car w = (Ok true, w')
    /\ w' !! f = Some (concat (<[i := p]> raw))
    /\ read_all_raw self w' = Ok (<[i := p]> raw)
    /\ length (<[i := p]> raw) = length raw.
Proof.
  intros self Hraw Hone Hp.
  destruct (Repository_update_one (ent := Car_entity) self car_id new_car p w raw
              eq_refl Hraw Hone Hp) as (i & b & w' & Hi & Hb & Hu & Hw' & Hr).
  exists i, b, w'. repeat split; try assumption. apply length_insert.
Qed.

Lemma update_replaces_one_record_witness :
  exists (i : nat) (b : bytes) (w' : fs),
    [block_C001; block_C002] !! i = Some b
    /\ has_id (E := Car.t) (lit "C001") b = true
    /\ CarRepository.update cars_dat (lit "C001") car_C001_rented two_cars
       = (Ok true, w')
    /\ w' !! "cars.dat"%string
       = Some (concat (<[i := block_C001_rented]> [block_C001; block_C002]))
    /\ read_all_raw cars_dat w'
       = Ok (<[i := block_C001_rented]> [block_C001; block_C002])
    /\ length (<[i := block_C001_rented]> [block_C001; block_C002])
       = length [block_C001; block_C002].
Proof.
  apply (update_replaces_one_record "cars.dat"%string two_cars
           [block_C001; block_C002] (lit "C001") car_C001_rented
           block_C001_rented); vm_compute; reflexivity.
Defined.

(** C7: when no record of the store carries the identity, [update] and
    [mark_deleted] answer [False] and the files are what they were. *)
Theorem update_and_mark_deleted_not_found (f : string) (w : fs)
    (raw : list bytes) (car_id : str) (new_car : Car.t) :
  let self := {| filename := f; recsize := CAR_RECORD_SIZE |} in
  read_all_raw self w = Ok raw ->
  matching (E := Car.t) car_id raw = [] ->
  CarRepository.update self car_id new_car w = (Ok false, w)
  /\ CarRepository.mark_deleted self car_id w = (Ok false, w).
Proof.
  intros self Hraw Hnone. split.
  - apply (Repository_update_none (ent := Car_entity) self car_id new_car w raw);
      [reflexivity | exact Hraw | exact Hnone].
  - apply (mark_deleted_none self car_id w raw); [reflexivity | exact Hraw | exact Hnone].
Qed.

Lemma update_and_mark_deleted_not_found_witness :
  CarRepository.update cars_dat (lit "C009") car_C001_rented two_cars
  = (Ok false, two_cars)
  /\ CarRepository.mark_deleted cars_dat (lit "C009") two_cars
     = (Ok false, two_cars).
Proof.
  apply (update_and_mark_deleted_not_found "cars.dat"%string two_cars
           [block_C001; block_C002] (lit "C009") car_C001_rented);
    vm_compute; reflexivity.
Defined.

(** C5: when exactly one record of the customer store carries the id,
    the hard delete finds it and the store then holds the other records,
    as they were and in their order, one fewer than before; when none
    carries it, nothing is found and the files are what they were. *)
Theorem delete_customer_removes_one (f : string) (w : fs) (raw : list bytes)
    (cid : str) :
  let customers := {| filename := f; recsize := CUST_RECORD_SIZE |} in
  read_all_raw customers w = Ok raw ->
  (length (matching (E := Customer.t) cid raw) = 1%nat ->
   exists (l1 : list bytes) (b : bytes) (l2 : list bytes) (w' : fs),
     raw = l1 ++ b :: l2 /\ has_id (E := Customer.t) cid b = true
     /\ delete_customer customers cid w = (Ok true, w')
     /\ w' !! f = Some (concat (l1 ++ l2))
     /\ read_all_raw customers w' = Ok (l1 ++ l2)
     /\ S (length (l1 ++ l2)) = length raw)
  /\ (matching (E := Customer.t) cid raw = [] ->
      delete_customer customers cid w = (Ok false, w)).
Proof.
  intros customers Hraw.
  pose proof (read_all_raw_blocks customers w raw Hraw) as Hall.
  change (recsize customers) with CUST_RECORD_SIZE in Hall.
  split.
  - intros Hone.
    destruct (filter_one_split _ _ Hone) as (l1 & b & l2 & -> & Hb & H1 & H2).
    exists l1, b, l2,
      (<[f := concat (l1 ++ l2)]> (delete (f +:+ ".tmp")%string w)).
    repeat split.
    + exact Hb.
    + unfold delete_customer. rewrite Hraw.
      rewrite (delete_customer_loop_one cid l1 l2 b) by assumption.
      now rewrite overwrite_all_raw_ok.
    + apply lookup_insert_eq.
    + apply (read_all_raw_overwritten (ent := Customer_entity));
        [reflexivity | | apply lookup_insert_eq].
      apply Forall_app in Hall as [Hl1 Hl2]. apply Forall_cons in Hl2 as [_ Hl2].
      apply Forall_app. now split.
    + rewrite !length_app. cbn. lia.
  - intros Hnone. apply filter_nil_Forall in Hnone.
    unfold delete_customer. rewrite Hraw.
    rewrite <- (app_nil_r raw) at 1.
    rewrite delete_customer_loop_skip by assumption. reflexivity.
Qed.

Lemma delete_customer_removes_one_witness :
  exists (l1 : list bytes) (b : bytes) (l2 : list bytes) (w' : fs),
    [block_U001; block_U002] = l1 ++ b :: l2
    /\ has_id (E := Customer.t) (lit "U001") b = true
    /\ delete_customer customers_dat (lit "U001") two_customers = (Ok true, w')
    /\ w' !! "customers.dat"%string = Some (concat (l1 ++ l2))
    /\ read_all_raw customers_dat w' = Ok (l1 ++ l2)
    /\ S (length (l1 ++ l2)) = length [block_U001; block_U002].
Proof.
  destruct (delete_customer_removes_one "customers.dat"%string two_customers
              [block_U001; block_U002] (lit "U001")) as [Hone _];
    [reflexivity |].
  apply Hone. vm_compute. reflexivity.
Defined.

(** ** Soft delete *)

Lemma Car_in_bounds_set_status (c : Car.t) (s : str) :
  Car_in_bounds c = true -> fits s 10 = true ->
  Car_in_bounds (Car.set_status c s) = true.
Proof.
  destruct c. unfold Car_in_bounds. cbn. intros Hb Hs.
  split_andb. rewrite !andb_true_iff. repeat split; assumption.
Qed.

(** C6, as the claim states it, fails: a brand of 21 bytes is cut inside
    its last character, the record reads back with a brand that ends in a
    space, and [mark_deleted] writes it without that space. *)
Lemma mark_deleted_changes_brand :
  CarRepository.all cars_dat long_brand_store = Ok [car_long_brand_read]
  /\ length (matching (E := Car.t) (lit "C001") [block_long_brand]) = 1%nat
  /\ exists w',
       CarRepository.mark_deleted cars_dat (lit "C001") long_brand_store
       = (Ok true, w')
       /\ CarRepository.all cars_dat w' = Ok [car_long_brand_marked]
       /\ car_long_brand_marked
          <> Car.set_status car_long_brand_read (lit "Deleted").
Proof.
  split; [vm_compute; reflexivity |]. split; [vm_compute; reflexivity |].
  eexists. split; [vm_compute; reflexivity |].
  split; [vm_compute; reflexivity |]. intros [=].
Qed.

(** C6 (amended): when exactly one record of the car store carries the
    identity, and the texts it decodes to, the status apart, do not end in
    a space, [mark_deleted] answers [True]; the store then holds as many
    records as before, every other record is the bytes it was, and the
    record decodes to what it decoded to before with the status
    [Deleted]. *)
Theorem mark_deleted_sets_status (f : string) (w : fs) (raw : list bytes)
    (car_id : str) :
  let self := {| filename := f; recsize := CAR_RECORD_SIZE |} in
  read_all_raw self w = Ok raw ->
  length (matching (E := Car.t) car_id raw) = 1%nat ->
  (forall (b : bytes) (c : Car.t),
     b ∈ matching (E := Car.t) car_id raw -> Car.unpack b = Ok c ->
     Car_no_trailing_space (Car.set_status c (lit "Deleted")) = true) ->
  exists (i : nat) (b p : bytes) (c : Car.t) (w' : fs),
    raw !! i = Some b /\ Car.unpack b = Ok c /\ Car.car_id c = car_id
    /\ CarRepository.mark_deleted self car_id w = (Ok true, w')
    /\ read_all_raw self w' = Ok (<[i := p]> raw)
    /\ length (<[i := p]> raw) = length raw
    /\ Car.unpack p = Ok (Car.set_status c (lit "Deleted")).
Proof.
  intros self Hraw Hone Htrim.
  pose proof (read_all_raw_blocks self w raw Hraw) as Hall.
  change (recsize self) with CAR_RECORD_SIZE in Hall.
  destruct (filter_one_split _ _ Hone) as (l1 & b & l2 & Heq & Hb & H1 & H2).
  subst raw.
  assert (Hlb : length b = CAR_RECORD_SIZE).
  { apply Forall_app in Hall as [_ Hl2]. now apply Forall_cons in Hl2 as [? _]. }
  destruct (Car_unpack_spec b Hlb) as (c & Hc & Hbounds).
  assert (Hid : Car.car_id c = car_id).
  { unfold has_id in Hb. cbn in Hb. rewrite Hc in Hb.
    now apply bool_decide_eq_true in Hb. }
  assert (Hin : b ∈ matching (E := Car.t) car_id (l1 ++ b :: l2)).
  { unfold matching. apply list_elem_of_In, filter_In. split; [| exact Hb].
    apply in_or_app. right. now left. }
  destruct (Car_roundtrip (Car.set_status c (lit "Deleted")))
    as (p & Hp & Hup).
  { apply Car_in_bounds_set_status; [exact Hbounds | reflexivity]. }
  { exact (Htrim b c Hin Hc). }
  assert (Hout : <[length l1 := p]> (l1 ++ b :: l2) = l1 ++ p :: l2).
  { replace (length l1) with (length l1 + 0)%nat at 1 by lia.
    now rewrite insert_app_r. }
  exists (length l1), b, p, c,
    (<[f := concat (l1 ++ p :: l2)]> (delete (f +:+ ".tmp")%string w)).
  repeat split.
  - now rewrite list_lookup_middle.
  - exact Hc.
  - exact Hid.
  - unfold CarRepository.mark_deleted. rewrite Hraw.
    rewrite (mark_deleted_loop_one car_id l1 l2 b p c) by assumption.
    now rewrite overwrite_all_raw_ok.
  - rewrite Hout.
    apply (read_all_raw_overwritten (ent := Car_entity));
      [reflexivity | | apply lookup_insert_eq].
    apply Forall_app in Hall as [Hl1 Hl2]. apply Forall_cons in Hl2 as [_ Hl2].
    apply Forall_app. split; [exact Hl1 |]. constructor; [| exact Hl2].
    now apply Car_pack_length with (Car.set_status c (lit "Deleted")).
  - apply length_insert.
  - exact Hup.
Qed.

Lemma mark_deleted_sets_status_witness :
  exists (i : nat) (b p : bytes) (c : Car.t) (w' : fs),
    [block_C001; block_C002] !! i = Some b /\ Car.unpack b = Ok c
    /\ Car.car_id c = lit "C002"
    /\ CarRepository.mark_deleted cars_dat (lit "C002") two_cars = (Ok true, w')
    /\ read_all_raw cars_dat w' = Ok (<[i := p]> [block_C001; block_C002])
    /\ length (<[i := p]> [block_C001; block_C002])
       = length [block_C001; block_C002]
    /\ Car.unpack p = Ok (Car.set_status c (lit "Deleted")).
Proof.
  apply (mark_deleted_sets_status "cars.dat"%string two_cars
           [block_C001; block_C002] (lit "C002")).
  - reflexivity.
  - vm_compute. reflexivity.
  - intros b c Hb Hc.
    assert (Hm : matching (E := Car.t) (lit "C002") [block_C001; block_C002]
                 = [block_C002]) by (vm_compute; reflexivity).
    rewrite Hm in Hb. apply list_elem_of_singleton in Hb. subst b.
    assert (Hu : Car.unpack block_C002 = Ok car_C002) by (vm_compute; reflexivity).
    rewrite Hu in Hc. injection Hc as <-. reflexivity.
Defined.

(** ** Scenarios *)

(** The end-to-end scenario: add, list, update, find, mark deleted. *)
Example end_to_end_scenario :
  exists w1 w2 w3,
    CarRepository.add cars_dat car_C001 empty_store = (Ok true, w1)
    /\ CarRepository.all cars_dat w1 = Ok [car_C001]
    /\ CarRepository.update cars_dat (lit "C001") car_C001_rented w1 = (Ok true, w2)
    /\ CarRepository.find cars_dat (lit "C001") w2 = Ok (Some car_C001_rented)
    /\ CarRepository.mark_deleted cars_dat (lit "C001") w2 = (Ok true, w3)
    /\ CarRepository.all cars_dat w3
       = Ok [Car.set_status car_C001_rented (lit "Deleted")].
Proof.
  do 3 eexists. repeat split; vm_compute; reflexivity.
Qed.

(** [__init__] makes the file once and keeps what is there. *)
Example init_keeps_file :
  snd (CarRepository.init "cars.dat" ∅) = empty_store
  /\ snd (CarRepository.init "cars.dat" two_cars) = two_cars.
Proof. split; vm_compute; reflexivity. Qed.

(** An identity that does not come back from the codec as it went in is
    not found again: the same car is added twice. *)
Example add_twice_with_trailing_space :
  exists w1 w2,
    CarRepository.add cars_dat car_trailing empty_store = (Ok true, w1)
    /\ CarRepository.add cars_dat car_trailing w1 = (Ok true, w2)
    /\ CarRepository.all cars_dat w2 = Ok [car_C001; car_C001].
Proof.
  do 2 eexists. repeat split; vm_compute; reflexivity.
Qed.

(** What the format takes and what it refuses. *)
Example parse_date_examples (nd : Z -> option Z) :
  parse_date nd (lit "2025-09-20")
  = Ok {| date_year := 2025; date_month := 9; date_day := 20 |}
  /\ parse_date nd (lit "2025-9- 5")
     = Ok {| date_year := 2025; date_month := 9; date_day := 5 |}
  /\ parse_date nd (lit "2024-02-29")
     = Ok {| date_year := 2024; date_month := 2; date_day := 29 |}
  /\ parse_date nd (lit "2025-02-29") = Raise ValueError
  /\ parse_date nd (lit "2025-13-01") = Raise ValueError
  /\ parse_date nd (lit "0000-01-01") = Raise ValueError
  /\ parse_date nd (lit "2025-09-200") = Raise ValueError
  /\ parse_date nd (lit "2025/09/20") = Raise ValueError.
Proof. repeat split; vm_compute; reflexivity. Qed.

(** The first and the last day of the calendar are 3652059 days apart,
    both counted. *)
Example date_diff_days_whole_calendar (nd : Z -> option Z) :
  date_diff_days nd (lit "0001-01-01") (lit "9999-12-31") = Ok 3652059.
Proof. vm_compute. reflexivity. Qed.

(** * Further properties *)

(** ** Text fields *)

Lemma rstrip_app_nonempty (b r : bytes) :
  rstrip r <> [] -> rstrip (b ++ r) = b ++ rstrip r.
Proof.
  intros Hr. induction b as [| x b IH]; [reflexivity |].
  cbn [app rstrip]. rewrite IH.
  destruct (b ++ rstrip r) eqn:E; [| reflexivity].
  apply app_nil in E as [_ E]. contradiction.
Qed.

Lemma rstrip_app_empty (b r : bytes) :
  rstrip r = [] -> rstrip (b ++ r) = rstrip b.
Proof.
  intros Hr. induction b as [| x b IH]; [exact Hr |].
  cbn [app rstrip]. now rewrite IH.
Qed.

Lemma rstrip_idempotent (b : bytes) : rstrip (rstrip b) = rstrip b.
Proof.
  induction b as [| x b IH]; [reflexivity |]. cbn [rstrip].
  destruct (rstrip b) as [| y r] eqn:E.
  - destruct (Byte.eqb x space) eqn:Ex; [reflexivity |]. cbn. now rewrite Ex.
  - change (rstrip (x :: y :: r)) with
      (match rstrip (y :: r) with
       | [] => if Byte.eqb x space then [] else [x]
       | r' => x :: r'
       end).
    now rewrite IH.
Qed.

(** A field is what it strips to, and then spaces. *)
Lemma rstrip_spaces_back (b : bytes) :
  b = rstrip b ++ replicate (length b - length (rstrip b)) space.
Proof.
  induction b as [| x b IH]; [reflexivity |]. cbn [rstrip].
  pose proof (rstrip_length b) as Hl.
  destruct (rstrip b) as [| y r] eqn:E.
  - cbn [length app] in *. rewrite Nat.sub_0_r in IH.
    destruct (Byte.eqb x space) eqn:Ex.
    + apply Byte.byte_dec_bl in Ex. subst x. cbn [length app].
      rewrite Nat.sub_0_r. cbn [replicate]. now rewrite <- IH.
    + cbn [length app].
      replace (S (length b) - 1)%nat with (length b) by lia. now rewrite <- IH.
  - cbn [length app] in *.
    replace (S (length b) - S (S (length r)))%nat
      with (length b - S (length r))%nat by lia.
    now rewrite <- IH.
Qed.

Lemma utf8_encode_char_space (ch : Z) (b : bytes) :
  utf8_encode_char ch = Ok b -> rstrip b = if ch =? 0x20 then [] else b.
Proof.
  intros Hb. destruct (ch =? 0x20) eqn:E.
  - apply Z.eqb_eq in E. subst ch. injection Hb as <-. reflexivity.
  - apply rstrip_id. intros Hl.
    apply (utf8_encode_char_last ch b Hb) in Hl. lia.
Qed.

Lemma utf8_encode_rstrip (s : str) (e : bytes) :
  utf8_encode s = Ok e -> utf8_encode (str_rstrip s) = Ok (rstrip e).
Proof.
  revert e. induction s as [| ch s IH]; intros e; cbn [utf8_encode str_rstrip].
  - intros [= <-]. reflexivity.
  - destruct (utf8_encode_char ch) as [b |] eqn:Hb; [| discriminate].
    destruct (utf8_encode s) as [r |] eqn:Hr; [| discriminate].
    intros [= <-]. specialize (IH r eq_refl).
    pose proof (utf8_encode_char_space ch b Hb) as Hsp.
    destruct (str_rstrip s) as [| c' s'] eqn:Es.
    + injection IH as IH. rewrite rstrip_app_empty by (symmetry; exact IH).
      rewrite Hsp. destruct (ch =? 0x20); [reflexivity |].
      cbn [utf8_encode]. rewrite Hb. cbn. now rewrite app_nil_r.
    + assert (Hne : rstrip r <> []).
      { eapply utf8_encode_nonempty; [exact IH | discriminate]. }
      rewrite rstrip_app_nonempty by exact Hne.
      change (utf8_encode (ch :: c' :: s'))
        with (b0 ← utf8_encode_char ch; r0 ← utf8_encode (c' :: s'); Ok (b0 ++ r0)).
      rewrite Hb, IH. reflexivity.
Qed.

Lemma str_rstrip_trimmed (s : str) : ends_with_space (str_rstrip s) = false.
Proof.
  unfold ends_with_space.
  induction s as [| ch s IH]; [reflexivity |]. cbn [str_rstrip].
  destruct (str_rstrip s) as [| c' s'] eqn:Es.
  - destruct (ch =? 0x20) eqn:E; [reflexivity |]. cbn. exact E.
  - rewrite last_cons_cons. exact IH.
Qed.

Lemma str_rstrip_id (s : str) : ends_with_space s = false -> str_rstrip s = s.
Proof.
  unfold ends_with_space. induction s as [| ch [| c' s'] IH]; [reflexivity | |].
  - cbn. now intros ->.
  - rewrite last_cons_cons. intros H. specialize (IH H).
    change (str_rstrip (ch :: c' :: s')) with
      (match str_rstrip (c' :: s') with
       | [] => if ch =? 0x20 then [] else [ch]
       | r => ch :: r
       end).
    now rewrite IH.
Qed.

Lemma fits_rstrip (s : str) (w : Z) : fits s w = true -> fits (str_rstrip s) w = true.
Proof.
  unfold fits. destruct (utf8_encode s) as [e |] eqn:He; [| discriminate].
  rewrite (utf8_encode_rstrip s e He). pose proof (rstrip_length e).
  unfold len. lia.
Qed.

(** Packing the text or the text without its trailing spaces is the same. *)
Lemma fixed_bytes_rstrip (s : str) (w : Z) :
  fits s w = true -> fixed_bytes (str_rstrip s) w = fixed_bytes s w.
Proof.
  unfold fits. destruct (utf8_encode s) as [e |] eqn:He; [| discriminate].
  intros Hlen. pose proof (rstrip_length e) as Hl.
  rewrite (fixed_bytes_fits s w e He) by lia.
  rewrite (fixed_bytes_fits _ w _ (utf8_encode_rstrip s e He))
    by (unfold len in *; lia).
  f_equal. rewrite (rstrip_spaces_back e) at 3. rewrite <- app_assoc. f_equal.
  rewrite <- replicate_add. f_equal. unfold len in *. lia.
Qed.

Lemma field_roundtrip_rstrip (s : str) (w : Z) :
  fits s w = true ->
  exists b, fixed_bytes s w = Ok b /\ bytes_to_str b = Ok (str_rstrip s).
Proof.
  intros Hf. rewrite <- (fixed_bytes_rstrip s w Hf).
  apply field_roundtrip; [now apply fits_rstrip |].
  now rewrite str_rstrip_trimmed.
Qed.

Lemma utf8_encode_char_raises (ch : Z) (x : exn) :
  utf8_encode_char ch = Raise x -> x = UnicodeEncodeError.
Proof.
  unfold utf8_encode_char.
  repeat match goal with
         | |- (if ?c then _ else _) = _ -> _ => destruct c
         end; congruence.
Qed.

Lemma utf8_encode_raises (s : str) (x : exn) :
  utf8_encode s = Raise x -> x = UnicodeEncodeError.
Proof.
  induction s as [| ch s IH]; cbn [utf8_encode]; [discriminate |].
  destruct (utf8_encode_char ch) as [b |] eqn:Hb.
  - destruct (utf8_encode s) as [r |]; [discriminate |].
    cbn. intros [= <-]. now apply IH.
  - cbn. intros [= <-]. now apply utf8_encode_char_raises in Hb.
Qed.

Lemma utf8_encode_char_scalar (ch : Z) :
  0 <= ch <= 0x10FFFF -> is_surrogate ch = false -> is_Ok (utf8_encode_char ch).
Proof.
  unfold is_surrogate. intros Hr Hs. unfold utf8_encode_char. rewrite Hs.
  repeat match goal with
         | |- is_Ok (if ?c then _ else _) => destruct c eqn:?
         end; try (eexists; reflexivity); lia.
Qed.

Lemma utf8_encode_scalars (s : str) :
  Forall (fun ch => 0 <= ch <= 0x10FFFF /\ is_surrogate ch = false) s ->
  is_Ok (utf8_encode s).
Proof.
  induction 1 as [| ch s [Hr Hs] _ [r Hrest]]; [now exists [] |].
  destruct (utf8_encode_char_scalar ch Hr Hs) as [b Hb].
  exists (b ++ r). cbn [utf8_encode]. now rewrite Hb, Hrest.
Qed.

Lemma utf8_encode_surrogate (s : str) (ch : Z) :
  ch ∈ s -> is_surrogate ch = true -> utf8_encode s = Raise UnicodeEncodeError.
Proof.
  intros Hin Hs. destruct (utf8_encode s) as [e |] eqn:He.
  - exfalso. revert e He. induction Hin as [ch s | ch c' s Hin IH]; intros e;
      cbn [utf8_encode].
    + unfold utf8_encode_char. unfold is_surrogate in Hs.
      replace (ch <? 0) with false by lia.
      replace (ch <? 0x80) with false by lia.
      replace (ch <? 0x800) with false by lia.
      rewrite Hs. discriminate.
    + destruct (utf8_encode_char c'); [| discriminate].
      destruct (utf8_encode s) as [r |]; [| discriminate].
      intros _. now apply (IH Hs r).
  - f_equal. now apply utf8_encode_raises in He.
Qed.

Lemma fixed_bytes_encodable (s : str) (w : Z) :
  is_Ok (fixed_bytes s w) <-> is_Ok (utf8_encode s).
Proof.
  unfold fixed_bytes. destruct (utf8_encode s) as [e |]; cbn.
  - split; intros _; eexists; reflexivity.
  - split; intros [? [=]].
Qed.

Ltac fieldr s w b :=
  let Hb := fresh "Hp" b in
  let Hd := fresh "Hd" b in
  let Hl := fresh "Hl" b in
  destruct (field_roundtrip_rstrip s w ltac:(assumption)) as (b & Hb & Hd);
  assert (Hl : length b = Z.to_nat w)
    by (pose proof (fixed_bytes_length s w b ltac:(lia) Hb) as Hl;
        unfold len in Hl; lia).

Lemma Car_pack_unpack_rstrip (c : Car.t) :
  Car_in_bounds c = true ->
  exists p, Car.pack c = Ok p /\ Car.unpack p = Ok (Car_rstrip c).
Proof.
  destruct c as [i p br m y pr st r].
  unfold Car_in_bounds, Car_rstrip; cbn [Car.car_id Car.plate Car.brand
    Car.model Car.year Car.price_per_day Car.status Car.rented].
  intros Hb. split_andb.
  fieldr i 10 b0. fieldr p 10 b1. fieldr br 20 b2. fieldr m 30 b3.
  fieldr st 10 b6. fieldr r 3 b7.
  destruct (struct_pack_unpack CAR_STRUCT_FMT
              [Vbytes b0; Vbytes b1; Vbytes b2; Vbytes b3; Vint y; Vfloat pr;
               Vbytes b6; Vbytes b7]) as (blk & Hp & Hu).
  { unfold is_uint32, is_float in *.
    repeat constructor; cbn [item_ok]; first [assumption | lia]. }
  exists blk. unfold Car.pack, Car.unpack.
  cbn [Car.car_id Car.plate Car.brand Car.model Car.year Car.price_per_day
       Car.status Car.rented].
  repeat match goal with H : fixed_bytes _ _ = Ok _ |- _ => rewrite H; clear H end.
  cbn [mbind result_bind]. split; [exact Hp |]. rewrite Hu.
  cbn [mbind result_bind].
  repeat match goal with H : bytes_to_str _ = Ok _ |- _ => rewrite H; clear H end.
  reflexivity.
Qed.

Lemma Customer_pack_unpack_rstrip (c : Customer.t) :
  Customer_in_bounds c = true ->
  exists p, Customer.pack c = Ok p /\ Customer.unpack p = Ok (Customer_rstrip c).
Proof.
  destruct c as [i n ic ph em].
  unfold Customer_in_bounds, Customer_rstrip;
    cbn [Customer.cust_id Customer.name Customer.id_card Customer.phone
         Customer.email].
  intros Hb. split_andb.
  fieldr i 10 b0. fieldr n 50 b1. fieldr ic 13 b2. fieldr ph 15 b3.
  fieldr em 50 b4.
  destruct (struct_pack_unpack CUST_STRUCT_FMT
              [Vbytes b0; Vbytes b1; Vbytes b2; Vbytes b3; Vbytes b4])
    as (blk & Hp & Hu).
  { repeat constructor; cbn [item_ok]; first [assumption | lia]. }
  exists blk. unfold Customer.pack, Customer.unpack.
  cbn [Customer.cust_id Customer.name Customer.id_card Customer.phone
       Customer.email].
  repeat match goal with H : fixed_bytes _ _ = Ok _ |- _ => rewrite H; clear H end.
  cbn [mbind result_bind]. split; [exact Hp |]. rewrite Hu.
  cbn [mbind result_bind].
  repeat match goal with H : bytes_to_str _ = Ok _ |- _ => rewrite H; clear H end.
  reflexivity.
Qed.

Lemma Contract_pack_unpack_rstrip (c : Contract.t) :
  Contract_in_bounds c = true ->
  exists p, Contract.pack c = Ok p /\ Contract.unpack p = Ok (Contract_rstrip c).
Proof.
  destruct c as [i ca cu sd ed tc st].
  unfold Contract_in_bounds, Contract_rstrip;
    cbn [Contract.contract_id Contract.car_id Contract.cust_id
         Contract.start_date Contract.end_date Contract.total_cost
         Contract.status].
  intros Hb. split_andb.
  fieldr i 10 b0. fieldr ca 10 b1. fieldr cu 10 b2. fieldr sd 10 b3.
  fieldr ed 10 b4. fieldr st 10 b6.
  destruct (struct_pack_unpack CONTRACT_STRUCT_FMT
              [Vbytes b0; Vbytes b1; Vbytes b2; Vbytes b3; Vbytes b4; Vfloat tc;
               Vbytes b6]) as (blk & Hp & Hu).
  { unfold is_float in *.
    repeat constructor; cbn [item_ok]; first [assumption | lia]. }
  exists blk. unfold Contract.pack, Contract.unpack.
  cbn [Contract.contract_id Contract.car_id Contract.cust_id
       Contract.start_date Contract.end_date Contract.total_cost
       Contract.status].
  repeat match goal with H : fixed_bytes _ _ = Ok _ |- _ => rewrite H; clear H end.
  cbn [mbind result_bind]. split; [exact Hp |]. rewrite Hu.
  cbn [mbind result_bind].
  repeat match goal with H : bytes_to_str _ = Ok _ |- _ => rewrite H; clear H end.
  reflexivity.
Qed.

Lemma Car_pack_rstrip (c : Car.t) :
  Car_in_bounds c = true -> Car.pack (Car_rstrip c) = Car.pack c.
Proof.
  destruct c as [i p br m y pr st r].
  unfold Car_in_bounds, Car_rstrip, Car.pack; cbn [Car.car_id Car.plate Car.brand
    Car.model Car.year Car.price_per_day Car.status Car.rented].
  intros Hb. split_andb. now rewrite !fixed_bytes_rstrip by assumption.
Qed.

Lemma Car_in_bounds_rstrip (c : Car.t) :
  Car_in_bounds c = true -> Car_in_bounds (Car_rstrip c) = true.
Proof.
  destruct c as [i p br m y pr st r].
  unfold Car_in_bounds, Car_rstrip; cbn [Car.car_id Car.plate Car.brand
    Car.model Car.year Car.price_per_day Car.status Car.rented].
  intros Hb. split_andb. rewrite !andb_true_iff.
  repeat match goal with |- _ /\ _ => split end;
    first [assumption | now apply fits_rstrip].
Qed.

Lemma Car_pack_total (c : Car.t) : Car_in_bounds c = true -> is_Ok (Car.pack c).
Proof.
  intros Hb. destruct (Car_pack_unpack_rstrip c Hb) as (p & Hp & _). now exists p.
Qed.

(** ** What [struct.pack] refuses *)

Lemma struct_pack_items (fmt : list fmt_item) (vs : list value) (b : bytes) :
  struct_pack fmt vs = Ok b ->
  Forall2 (fun f v => is_Ok (pack_item f v)) fmt vs.
Proof.
  revert vs b. induction fmt as [| f fmt IH]; intros [| v vs] b;
    cbn [struct_pack]; try discriminate.
  - constructor.
  - intros H. inv_bind H. constructor; [eexists; eassumption |].
    eapply IH; eassumption.
Qed.

Lemma pack_item_I_range (z : Z) : is_Ok (pack_item FI (Vint z)) -> is_uint32 z = true.
Proof.
  unfold is_uint32. cbn [pack_item]. destruct (_ && _); [reflexivity |].
  intros [? [=]].
Qed.

Lemma pack_item_d_range (x : Z) : is_Ok (pack_item Fd (Vfloat x)) -> is_float x = true.
Proof.
  unfold is_float. cbn [pack_item]. destruct (_ && _); [reflexivity |].
  intros [? [=]].
Qed.

(** ** Reading blocks, further *)

Lemma read_blocks_split (fuel recsize : nat) (data : bytes) :
  (0 < recsize)%nat -> (length data <= fuel)%nat ->
  exists tail, data = concat (read_blocks fuel recsize data) ++ tail
               /\ (length tail < recsize)%nat.
Proof.
  intros Hpos. revert data. induction fuel as [| fuel IH]; intros data Hf.
  - destruct data; [| cbn in Hf; lia]. exists []. split; [reflexivity |]. cbn. lia.
  - cbn [read_blocks].
    destruct (bool_decide (take recsize data = []) || _) eqn:E.
    + exists data. split; [reflexivity |]. apply orb_prop in E as [E | E].
      * apply bool_decide_eq_true in E. apply (f_equal length) in E.
        rewrite length_take in E. cbn in E. lia.
      * apply Nat.ltb_lt in E. rewrite length_take in E. lia.
    + apply orb_false_elim in E as [_ E]. apply Nat.ltb_ge in E.
      rewrite length_take in E.
      destruct (IH (drop recsize data)) as (tail & Hd & Ht).
      { rewrite length_drop. lia. }
      exists tail. split; [| exact Ht]. cbn [concat]. rewrite <- app_assoc, <- Hd.
      now rewrite take_drop.
Qed.

Lemma read_blocks_concat_tail (fuel recsize : nat) (blocks : list bytes)
    (tail : bytes) :
  (0 < recsize)%nat -> Forall (fun b => length b = recsize) blocks ->
  (length tail < recsize)%nat -> (length blocks < fuel)%nat ->
  read_blocks fuel recsize (concat blocks ++ tail) = blocks.
Proof.
  intros Hpos Hall Ht. revert fuel.
  induction Hall as [| b blocks Hb _ IH]; intros fuel Hf.
  - destruct fuel as [| fuel]; [cbn in Hf; lia |]. cbn [read_blocks concat app].
    rewrite length_take. replace (_ <? _)%nat with true;
      [now rewrite orb_true_r |].
    symmetry. apply Nat.ltb_lt. lia.
  - destruct fuel as [| fuel]; [cbn in Hf; lia |].
    cbn [read_blocks concat]. rewrite <- app_assoc.
    rewrite take_app_length', drop_app_length' by lia.
    rewrite Hb, Nat.ltb_irrefl, orb_false_r.
    rewrite bool_decide_eq_false_2.
    + f_equal. apply IH. cbn in Hf. lia.
    + intros ->. cbn in Hb. lia.
Qed.

Lemma concat_length_sized (recsize : nat) (blocks : list bytes) :
  Forall (fun b => length b = recsize) blocks ->
  length (concat blocks) = (length blocks * recsize)%nat.
Proof.
  induction 1 as [| b blocks Hb _ IH]; [reflexivity |].
  cbn [concat length]. rewrite length_app. lia.
Qed.

Lemma read_all_raw_whole (self : BinaryRepository) (w : fs) (raw : list bytes)
    (tail : bytes) :
  (0 < recsize self)%nat ->
  Forall (fun b => length b = recsize self) raw ->
  (length tail < recsize self)%nat ->
  w !! filename self = Some (concat raw ++ tail) ->
  read_all_raw self w = Ok raw.
Proof.
  intros Hpos Hall Ht Hw. unfold read_all_raw, iterate_raw. rewrite Hw. f_equal.
  apply read_blocks_concat_tail; try assumption.
  rewrite length_app, (concat_length_sized _ _ Hall). nia.
Qed.

(** ** Finding and listing *)

Section FindFacts.
Context {E : Type} {ent : Entity E} {laws : EntityLaws E}.

Lemma Repository_all_decodes (self : BinaryRepository) (w : fs) (raw : list bytes) :
  recsize self = record_size ->
  read_all_raw self w = Ok raw ->
  exists cs, Repository_all self w = Ok cs
             /\ Forall2 (fun b c => unpack b = Ok c) raw cs.
Proof.
  intros Hrs Hraw.
  pose proof (read_all_raw_blocks self w raw Hraw) as Hall. rewrite Hrs in Hall.
  destruct (unpack_each_ok raw Hall) as (cs & Hcs & Hdec).
  exists cs. split; [| exact Hdec].
  unfold Repository_all. unfold read_all_raw in Hraw. rewrite Hraw.
  exact Hcs.
Qed.

Lemma filter_ident_skip (id : str) (l1 : list bytes) (cs1 cs2 : list E) :
  Forall2 (fun b c => unpack b = Ok c) l1 cs1 ->
  Forall (fun b => has_id id b = false) l1 ->
  filter (fun c => ident c = id) (cs1 ++ cs2)
  = filter (fun c => ident c = id) cs2.
Proof.
  induction 1 as [| b c l1 cs1 Hbc _ IH]; intros Hnone; [reflexivity |].
  apply Forall_cons in Hnone as [Hb Hnone].
  unfold has_id in Hb. rewrite Hbc in Hb. apply bool_decide_eq_false in Hb.
  cbn [app]. rewrite filter_cons_False by exact Hb. now apply IH.
Qed.

Lemma Repository_find_first (self : BinaryRepository) (id : str) (w : fs)
    (l1 l2 : list bytes) (b : bytes) (c : E) :
  recsize self = record_size ->
  read_all_raw self w = Ok (l1 ++ b :: l2) ->
  Forall (fun b => has_id id b = false) l1 ->
  unpack b = Ok c -> ident c = id ->
  Repository_find self id w = Ok (Some c).
Proof.
  intros Hrs Hraw Hnone Hc Hid.
  destruct (Repository_all_decodes self w _ Hrs Hraw) as (cs & Hcs & Hdec).
  apply Forall2_app_inv_l in Hdec as (cs1 & cs2 & H1 & H2 & ->).
  apply Forall2_cons_inv_l in H2 as (c' & cs2' & Hc' & H2 & ->).
  rewrite Hc in Hc'. injection Hc' as <-.
  unfold Repository_find. rewrite Hcs. cbn [mbind result_bind].
  rewrite (filter_ident_skip id l1 cs1 _ H1 Hnone).
  now rewrite filter_cons_True by exact Hid.
Qed.
End FindFacts.

(** ** Adding and updating, further *)

Lemma filter_nonempty_existsb {A} (f : A -> bool) (l : list A) :
  List.filter f l <> [] -> existsb f l = true.
Proof.
  induction l as [| x l IH]; cbn [List.filter existsb]; [congruence |].
  destruct (f x); [reflexivity |]. exact IH.
Qed.

Section AddUpdateFacts.
Context {E : Type} {ent : Entity E} {laws : EntityLaws E}.

Lemma has_id_true (id : str) (b : bytes) :
  has_id id b = true <-> exists c, unpack b = Ok c /\ ident c = id.
Proof.
  unfold has_id. destruct (unpack b) as [c |].
  - rewrite bool_decide_eq_true. split; [intros <-; now exists c |].
    now intros (c' & [= <-] & Hid).
  - split; [discriminate | intros (c' & [=] & _)].
Qed.

Lemma stored_ids_app (l1 l2 : list bytes) :
  stored_ids (l1 ++ l2) = stored_ids l1 ++ stored_ids l2.
Proof. unfold stored_ids. apply omap_app. Qed.

Lemma stored_ids_matching (id : str) (raw : list bytes) :
  matching id raw = [] -> id ∉ stored_ids raw.
Proof.
  intros Hnone Hin. apply filter_nil_Forall in Hnone.
  unfold stored_ids in Hin. apply list_elem_of_omap in Hin as (b & Hb & Hid).
  rewrite Forall_forall in Hnone. specialize (Hnone b Hb).
  unfold has_id in Hnone. destruct (unpack b) as [c |]; [| discriminate].
  injection Hid as <-. now apply bool_decide_eq_false in Hnone.
Qed.

Lemma Repository_add_whole (self : BinaryRepository) (e : E) (p : bytes)
    (w : fs) (raw : list bytes) :
  recsize self = record_size ->
  w !! filename self = Some (concat raw) ->
  Forall (fun b => length b = record_size) raw ->
  matching (ident e) raw = [] ->
  pack e = Ok p ->
  read_all_raw self w = Ok raw
  /\ Repository_add self e w
     = (Ok true, <[filename self := concat raw ++ p]> w)
  /\ read_all_raw self (<[filename self := concat raw ++ p]> w)
     = Ok (raw ++ [p]).
Proof.
  intros Hrs Hw Hall Hnone Hp.
  assert (Hraw : read_all_raw self w = Ok raw).
  { apply (read_all_raw_overwritten self raw w Hrs Hall Hw). }
  split; [exact Hraw |]. split.
  - apply (Repository_add_fresh self e p (concat raw) w raw); assumption.
  - apply (read_all_raw_overwritten self (raw ++ [p])); [exact Hrs | |].
    + apply Forall_app. split; [exact Hall |]. constructor; [| constructor].
      now apply pack_length with e.
    + rewrite lookup_insert_eq, concat_app. cbn. now rewrite app_nil_r.
Qed.

Lemma update_loop_raises (id : str) (new : E) (x : exn) (raw : list bytes)
    (changed : bool) (out : list bytes) :
  Forall (fun b => length b = record_size) raw ->
  pack new = Raise x -> existsb (has_id id) raw = true ->
  update_loop id new raw changed out = Raise x.
Proof.
  intros Hall Hp. revert changed out.
  induction Hall as [| b raw Hb _ IH]; intros changed out; [discriminate |].
  destruct (has_id_unpack id b Hb) as (c & Hc & Hid).
  cbn [existsb update_loop]. rewrite Hc, Hid. cbn [mbind result_bind].
  destruct (bool_decide (ident c = id)).
  - intros _. now rewrite Hp.
  - cbn [orb]. apply IH.
Qed.

Lemma Repository_update_all (self : BinaryRepository) (id : str) (new : E)
    (p : bytes) (w : fs) (raw : list bytes) :
  recsize self = record_size ->
  read_all_raw self w = Ok raw ->
  matching id raw <> [] ->
  pack new = Ok p ->
  let out := map (fun b => if has_id id b then p else b) raw in
  Repository_update self id new w
  = (Ok true, <[filename self := concat out]>
                (delete (filename self +:+ ".tmp")%string w))
  /\ Forall (fun b => length b = record_size) out.
Proof.
  intros Hrs Hraw Hsome Hp out.
  pose proof (read_all_raw_blocks self w raw Hraw) as Hall. rewrite Hrs in Hall.
  split.
  - unfold Repository_update. rewrite Hraw.
    rewrite (update_loop_spec id new p) by assumption.
    rewrite (filter_nonempty_existsb _ _ Hsome). cbn [orb app].
    now rewrite overwrite_all_raw_ok.
  - apply Forall_map, Forall_forall. intros b Hb. destruct (has_id id b).
    + now apply pack_length with new.
    + rewrite Forall_forall in Hall. now apply Hall.
Qed.
End AddUpdateFacts.

(** ** Soft and hard delete, further *)

Lemma filter_first_split {A} (f : A -> bool) (l : list A) :
  List.filter f l <> [] ->
  exists l1 x l2, l = l1 ++ x :: l2 /\ f x = true
                  /\ Forall (fun y => f y = false) l1.
Proof.
  induction l as [| y l IH]; cbn [List.filter]; [congruence |].
  destruct (f y) eqn:E.
  - intros _. exists [], y, l. repeat split; [exact E | constructor].
  - intros Hl. destruct (IH Hl) as (l1 & x & l2 & -> & Hx & H1).
    exists (y :: l1), x, l2. repeat split; [exact Hx |]. now constructor.
Qed.

Lemma Car_set_status_rstrip (c : Car.t) :
  Car.set_status (Car_rstrip (Car.set_status c (lit "Deleted"))) (lit "Deleted")
  = Car_rstrip (Car.set_status c (lit "Deleted")).
Proof. destruct c. reflexivity. Qed.

(** A block of one record has something to be marked as, and that is one
    record long. *)
Lemma marked_block (b : bytes) :
  length b = CAR_RECORD_SIZE ->
  exists (c : Car.t) (p : bytes),
    Car.unpack b = Ok c /\ Car_in_bounds c = true
    /\ Car.pack (Car.set_status c (lit "Deleted")) = Ok p
    /\ marked b = Ok p /\ length p = CAR_RECORD_SIZE
    /\ Car.unpack p = Ok (Car_rstrip (Car.set_status c (lit "Deleted")))
    /\ marked p = Ok p.
Proof.
  intros Hb. destruct (Car_unpack_spec b Hb) as (c & Hc & Hbounds).
  assert (Hb1 : Car_in_bounds (Car.set_status c (lit "Deleted")) = true)
    by (apply Car_in_bounds_set_status; [exact Hbounds | reflexivity]).
  destruct (Car_pack_unpack_rstrip _ Hb1) as (p & Hp & Hu).
  exists c, p. repeat split; try assumption.
  - unfold marked. now rewrite Hc.
  - now apply Car_pack_length with (Car.set_status c (lit "Deleted")).
  - unfold marked. rewrite Hu. cbn [mbind result_bind].
    now rewrite Car_set_status_rstrip, Car_pack_rstrip.
Qed.

Lemma mark_deleted_loop_spec (car_id : str) (raw : list bytes)
    (changed : bool) (out : list bytes) :
  Forall (fun b => length b = CAR_RECORD_SIZE) raw ->
  CarRepository.mark_deleted_loop car_id raw changed out
  = Ok (changed || existsb (has_id (E := Car.t) car_id) raw,
        out ++ map (mark_block car_id) raw).
Proof.
  intros Hall. revert changed out.
  induction Hall as [| b raw Hb _ IH]; intros changed out.
  - cbn. now rewrite orb_false_r, app_nil_r.
  - destruct (marked_block b Hb) as (c & p & Hc & _ & Hp & Hm & _).
    cbn [CarRepository.mark_deleted_loop existsb map]. unfold mark_block at 1.
    unfold has_id. cbn [unpack ident Car_entity]. rewrite Hc.
    cbn [mbind result_bind].
    destruct (bool_decide (Car.car_id c = car_id)).
    + rewrite Hp, Hm. cbn [mbind result_bind from_Ok].
      rewrite IH, <- app_assoc. now rewrite orb_true_r.
    + rewrite IH, <- app_assoc. reflexivity.
Qed.

Lemma mark_block_length (car_id : str) (b : bytes) :
  length b = CAR_RECORD_SIZE -> length (mark_block car_id b) = CAR_RECORD_SIZE.
Proof.
  intros Hb. unfold mark_block. destruct (has_id (E := Car.t) car_id b); [| exact Hb].
  destruct (marked_block b Hb) as (c & p & _ & _ & _ & Hm & Hl & _).
  now rewrite Hm.
Qed.

Lemma mark_block_idempotent (car_id : str) (b : bytes) :
  length b = CAR_RECORD_SIZE ->
  mark_block car_id (mark_block car_id b) = mark_block car_id b.
Proof.
  intros Hb. destruct (has_id (E := Car.t) car_id b) eqn:Hid.
  - destruct (marked_block b Hb) as (c & p & _ & _ & _ & Hm & _ & _ & Hmp).
    assert (E1 : mark_block car_id b = p)
      by (unfold mark_block; now rewrite Hid, Hm).
    rewrite E1. unfold mark_block.
    destruct (has_id (E := Car.t) car_id p); [now rewrite Hmp | reflexivity].
  - assert (E1 : mark_block car_id b = b)
      by (unfold mark_block; now rewrite Hid).
    now rewrite !E1.
Qed.

Lemma mark_deleted_run (self : BinaryRepository) (car_id : str) (w : fs)
    (raw : list bytes) :
  recsize self = CAR_RECORD_SIZE ->
  read_all_raw self w = Ok raw ->
  CarRepository.mark_deleted self car_id w
  = if existsb (has_id (E := Car.t) car_id) raw
    then (Ok true, <[filename self := concat (map (mark_block car_id) raw)]>
                     (delete (filename self +:+ ".tmp")%string w))
    else (Ok false, w).
Proof.
  intros Hrs Hraw.
  pose proof (read_all_raw_blocks self w raw Hraw) as Hall. rewrite Hrs in Hall.
  unfold CarRepository.mark_deleted. rewrite Hraw.
  rewrite (mark_deleted_loop_spec car_id raw false [] Hall). cbn [orb app].
  destruct (existsb _ raw); [| reflexivity]. now rewrite overwrite_all_raw_ok.
Qed.

Lemma delete_customer_loop_spec (cid : str) (raw : list bytes)
    (found : bool) (out : list bytes) :
  Forall (fun b => length b = CUST_RECORD_SIZE) raw ->
  delete_customer_loop cid raw found out
  = Ok (found || existsb (has_id (E := Customer.t) cid) raw,
        out ++ List.filter (fun b => negb (has_id (E := Customer.t) cid b)) raw).
Proof.
  intros Hall. revert found out.
  induction Hall as [| b raw Hb _ IH]; intros found out.
  - cbn. now rewrite orb_false_r, app_nil_r.
  - destruct (has_id_unpack (ent := Customer_entity) cid b Hb) as (c & Hc & Hid).
    cbn in Hc. cbn [delete_customer_loop existsb List.filter].
    rewrite Hc, Hid. cbn [mbind result_bind].
    change (ident c) with (Customer.cust_id c).
    destruct (bool_decide (Customer.cust_id c = cid)); cbn [negb].
    + rewrite IH. now rewrite orb_true_r.
    + rewrite IH. cbn [orb]. now rewrite <- app_assoc.
Qed.

Lemma filter_filter_negb {A} (f : A -> bool) (l : list A) :
  List.filter f (List.filter (fun x => negb (f x)) l) = [].
Proof.
  induction l as [| x l IH]; [reflexivity |]. cbn [List.filter].
  destruct (f x) eqn:E; cbn [negb List.filter]; [exact IH |]. now rewrite E.
Qed.

(** ** Dates, further *)

Lemma date_not_lt_le (a b : date) :
  valid_date a -> valid_date b -> date_lt b a = false ->
  toordinal a <= toordinal b.
Proof.
  intros Ha Hb Hlt. destruct (date_lt a b) eqn:Hab.
  - pose proof (toordinal_lt a b Ha Hb Hab). lia.
  - destruct a as [y m d], b as [y' m' d']. unfold date_lt in *. cbn in *.
    assert (y = y' /\ m = m' /\ d = d') as (-> & -> & ->) by lia. lia.
Qed.

Lemma digit_ascii (nd : Z -> option Z) (d : Z) :
  0 <= d <= 9 -> digit nd (48 + d) = Some d.
Proof.
  intros Hd. unfold digit, ascii_digit.
  replace ((48 <=? 48 + d) && (48 + d <=? 57)) with true by lia.
  f_equal. lia.
Qed.

Lemma parse_Y_iso (nd : Z -> option Z) (y : Z) (rest : str) :
  1 <= y <= 9999 ->
  parse_Y nd ([48 + y / 1000; 48 + (y / 100) mod 10; 48 + (y / 10) mod 10;
               48 + y mod 10] ++ rest) = Some (y, rest).
Proof.
  intros Hy. cbn [app parse_Y].
  rewrite !digit_ascii by zlia. do 2 f_equal. zlia.
Qed.

Lemma parse_m_iso (m : Z) (rest : str) :
  1 <= m <= 12 -> parse_m (two_digits m ++ rest) = Some (m, rest).
Proof. intros Hm. each_month Hm; reflexivity. Qed.

Lemma day_cases (d : Z) :
  1 <= d <= 31 ->
  d = 1 \/ d = 2 \/ d = 3 \/ d = 4 \/ d = 5 \/ d = 6 \/ d = 7 \/ d = 8
  \/ d = 9 \/ d = 10 \/ d = 11 \/ d = 12 \/ d = 13 \/ d = 14 \/ d = 15
  \/ d = 16 \/ d = 17 \/ d = 18 \/ d = 19 \/ d = 20 \/ d = 21 \/ d = 22
  \/ d = 23 \/ d = 24 \/ d = 25 \/ d = 26 \/ d = 27 \/ d = 28 \/ d = 29
  \/ d = 30 \/ d = 31.
Proof. lia. Qed.

Lemma parse_d_iso (nd : Z -> option Z) (d : Z) :
  1 <= d <= 31 -> parse_d nd (two_digits d) = Some (d, []).
Proof.
  intros Hd. apply day_cases in Hd.
  repeat match type of Hd with _ \/ _ => destruct Hd as [Hd | Hd] end;
    subst; reflexivity.
Qed.

Lemma days_in_month_le_31 (y m : Z) : days_in_month y m <= 31.
Proof.
  unfold days_in_month. destruct (_ && _); [lia |].
  unfold DAYS_IN_MONTH.
  repeat match goal with
         | |- context [match ?x with _ => _ end] => destruct x; try lia
         end.
Qed.

Lemma parse_date_iso (nd : Z -> option Z) (d : date) :
  valid_date d -> parse_date nd (iso_text d) = Ok d.
Proof.
  destruct d as [y m dd]. unfold valid_date, iso_text. cbn [date_year date_month date_day].
  intros (Hy & Hm & Hd). unfold parse_date.
  rewrite parse_Y_iso by exact Hy. cbn [app parse_dash]. cbn [Z.eqb Pos.eqb].
  rewrite (parse_m_iso m (45 :: two_digits dd)) by exact Hm.
  cbn [parse_dash Z.eqb Pos.eqb].
  pose proof (days_in_month_le_31 y m).
  rewrite parse_d_iso by lia.
  unfold make_date.
  replace ((1 <=? y) && (y <=? 9999) && (1 <=? m) && (m <=? 12) && (1 <=? dd)
           && (dd <=? days_in_month y m)) with true by lia.
  reflexivity.
Qed.

(** ** Prompts *)

Lemma rstrip_ws_last (ws : Z -> bool) (s : str) (c : Z) :
  last (rstrip_ws ws s) = Some c -> ws c = false.
Proof.
  induction s as [| x s IH]; cbn [rstrip_ws]; [discriminate |].
  destruct (rstrip_ws ws s) as [| y r] eqn:E.
  - destruct (ws x) eqn:Ex; [discriminate |]. now intros [= <-].
  - rewrite last_cons_cons. exact IH.
Qed.

Lemma strip_trimmed (ws : Z -> bool) (s : str) :
  ws 0x20 = true -> ends_with_space (strip ws s) = false.
Proof.
  intros Hws. unfold ends_with_space, strip.
  destruct (last (rstrip_ws ws (lstrip ws s))) as [c |] eqn:E; [| reflexivity].
  apply rstrip_ws_last in E. apply Z.eqb_neq. intros ->. congruence.
Qed.

Lemma input_nonempty_answer (ws : Z -> bool) (max_len : option Z)
    (lines : list str) (v : str) (rest : list str) :
  input_nonempty ws max_len lines = Answer v rest ->
  exists (skipped : list str) (line : str),
    lines = skipped ++ line :: rest /\ v = strip ws line /\ v <> []
    /\ match max_len with
       | Some n => n <> 0 -> fits v n = true
       | None => True
       end.
Proof.
  induction lines as [| line lines IH]; cbn [input_nonempty]; [discriminate |].
  assert (Hskip : input_nonempty ws max_len lines = Answer v rest ->
                  exists (skipped : list str) (line0 : str),
                    line :: lines = skipped ++ line0 :: rest
                    /\ v = strip ws line0 /\ v <> []
                    /\ match max_len with
                       | Some n => n <> 0 -> fits v n = true
                       | None => True
                       end).
  { intros H. destruct (IH H) as (sk & l0 & -> & Hv & Hne & Hfit).
    now exists (line :: sk), l0. }
  destruct (bool_decide (strip ws line = [])) eqn:Hempty; [exact Hskip |].
  apply bool_decide_eq_false in Hempty.
  destruct max_len as [n |].
  - destruct (n =? 0) eqn:Hn.
    + intros [= <- <-]. exists [], line. repeat split; [exact Hempty | lia].
    + destruct (utf8_encode (strip ws line)) as [b |] eqn:Hb; [| discriminate].
      destruct (n <? len b) eqn:Hlen; [exact Hskip |].
      intros [= <- <-]. exists [], line. repeat split; [exact Hempty |].
      intros _. unfold fits. rewrite Hb. lia.
  - intros [= <- <-]. exists [], line. repeat split. exact Hempty.
Qed.

(** ** Menu operations *)

Lemma ask_answer {A B} (p : prompted A) (w : fs)
    (k : A -> list str -> prompted B * fs) (b : B) (rest : list str) (w' : fs) :
  ask p w k = (Answer b rest, w') ->
  exists a rest0, p = Answer a rest0 /\ k a rest0 = (Answer b rest, w').
Proof.
  destruct p as [a rest0 | | e]; cbn [ask]; [| discriminate | discriminate].
  intros H. now exists a, rest0.
Qed.

Lemma input_nonempty_field (ws : Z -> bool) (n : Z) (lines : list str)
    (v : str) (rest : list str) :
  ws 0x20 = true -> n <> 0 ->
  input_nonempty ws (Some n) lines = Answer v rest ->
  fits v n = true /\ negb (ends_with_space v) = true.
Proof.
  intros Hws Hn Hans.
  destruct (input_nonempty_answer ws (Some n) lines v rest Hans)
    as (sk & line & _ & -> & _ & Hfit).
  split; [now apply Hfit |]. now rewrite strip_trimmed.
Qed.

Section FindNone.
Context {E : Type} {ent : Entity E} {laws : EntityLaws E}.

Lemma Repository_find_None_inv (self : BinaryRepository) (id : str) (w : fs)
    (raw : list bytes) :
  recsize self = record_size ->
  read_all_raw self w = Ok raw ->
  Repository_find self id w = Ok None ->
  matching id raw = [].
Proof.
  intros Hrs Hraw Hfind. destruct (matching id raw) as [| b m] eqn:Hm; [reflexivity |].
  destruct (Repository_find_Some self id w raw Hrs Hraw) as (c & Hc & _).
  - now rewrite Hm.
  - congruence.
Qed.
End FindNone.

(** ** Reading after a write to another file *)

Lemma read_all_raw_lookup (self : BinaryRepository) (w1 w2 : fs) :
  w1 !! filename self = w2 !! filename self ->
  read_all_raw self w1 = read_all_raw self w2.
Proof. intros H. unfold read_all_raw, iterate_raw. now rewrite H. Qed.

Lemma Contract_pack_float (c : Contract.t) (p : bytes) :
  Contract.pack c = Ok p -> is_float (Contract.total_cost c) = true.
Proof.
  destruct c as [i ca cu sd ed tc st]. unfold Contract.pack.
  cbn [Contract.contract_id Contract.car_id Contract.cust_id Contract.start_date
       Contract.end_date Contract.total_cost Contract.status].
  intros H. inv_bind H. apply struct_pack_items in H.
  apply pack_item_d_range.
  apply (Forall2_lookup_lr _ _ _ 5%nat Fd (Vfloat tc) H); reflexivity.
Qed.

Section FindDecoded.
Context {E : Type} {ent : Entity E} {laws : EntityLaws E}.

Lemma Repository_find_lookup (self : BinaryRepository) (id : str) (w1 w2 : fs) :
  w1 !! filename self = w2 !! filename self ->
  Repository_find self id w1 = Repository_find self id w2.
Proof.
  intros H. unfold Repository_find, Repository_all, iterate_raw. now rewrite H.
Qed.

(** What [find] yields is the decoding of the first record that carries
    the identity. *)
Lemma Repository_find_decoded (self : BinaryRepository) (id : str) (w : fs) (c : E) :
  recsize self = record_size ->
  Repository_find self id w = Ok (Some c) ->
  exists (raw : list bytes) (b : bytes),
    read_all_raw self w = Ok raw /\ matching id raw <> []
    /\ length b = record_size /\ unpack b = Ok c /\ ident c = id.
Proof.
  intros Hrs Hfind.
  destruct (read_all_raw self w) as [raw | x] eqn:Hraw.
  2:{ unfold Repository_find, Repository_all in Hfind.
      unfold read_all_raw in Hraw. rewrite Hraw in Hfind. discriminate. }
  pose proof (read_all_raw_blocks self w raw Hraw) as Hall. rewrite Hrs in Hall.
  assert (Hsome : matching id raw <> []).
  { intros Hnone.
    rewrite (Repository_find_None self id w raw Hrs Hraw Hnone) in Hfind.
    discriminate. }
  destruct (filter_first_split _ _ Hsome) as (l1 & b & l2 & -> & Hb & H1).
  assert (Hlen : length b = record_size).
  { apply Forall_app in Hall as [_ Hall]. now apply Forall_cons in Hall as [? _]. }
  destruct (has_id_unpack id b Hlen) as (c0 & Hc0 & Hid).
  rewrite Hb in Hid. symmetry in Hid. apply bool_decide_eq_true in Hid.
  rewrite (Repository_find_first self id w l1 l2 b c0 Hrs Hraw H1 Hc0 Hid) in Hfind.
  injection Hfind as <-.
  exists (l1 ++ b :: l2), b. repeat split; assumption.
Qed.

(** An [add] that answers [True] has packed the entity and found no
    record of its identity. *)
Lemma Repository_add_true (self : BinaryRepository) (e : E) (w w' : fs) :
  Repository_add self e w = (Ok true, w') ->
  exists p, pack e = Ok p /\ Repository_find self (ident e) w = Ok None.
Proof.
  unfold Repository_add.
  destruct (Repository_find self (ident e) w) as [[c |] | x]; try discriminate.
  destruct (w !! filename self), (pack e) as [p | x]; try discriminate;
    intros _; now exists p.
Qed.

Lemma Repository_update_find (self : BinaryRepository) (id : str) (new c' : E)
    (p : bytes) (w : fs) (raw : list bytes) :
  recsize self = record_size ->
  read_all_raw self w = Ok raw ->
  matching id raw <> [] ->
  pack new = Ok p -> unpack p = Ok c' -> ident c' = id ->
  let w' := <[filename self := concat (map (fun b => if has_id id b then p else b) raw)]>
              (delete (filename self +:+ ".tmp")%string w) in
  Repository_update self id new w = (Ok true, w')
  /\ Repository_find self id w' = Ok (Some c').
Proof.
  intros Hrs Hraw Hsome Hp Hc Hid w'. subst w'.
  destruct (Repository_update_all self id new p w raw Hrs Hraw Hsome Hp)
    as (Hu & Hall).
  split; [exact Hu |].
  destruct (filter_first_split _ _ Hsome) as (l1 & b & l2 & -> & Hb & H1).
  rewrite map_app in *. cbn [map] in *. rewrite Hb in *.
  rewrite (map_if_none _ (fun _ => p) l1 H1) in *.
  eapply (Repository_find_first self id _ l1 _ p c' Hrs); try eassumption.
  apply (read_all_raw_overwritten self _ _ Hrs Hall), lookup_insert_eq.
Qed.
End FindDecoded.

(** ** The codec, further *)

(** X1: a text that fits its field comes back from the field without the
    spaces it ended in, and otherwise as it was. *)
Theorem text_field_roundtrip (s : str) (w : Z) :
  fits s w = true ->
  (fixed_bytes s w ≫= bytes_to_str) = Ok (str_rstrip s).
Proof.
  intros Hf. destruct (field_roundtrip_rstrip s w Hf) as (b & Hb & Hd).
  rewrite Hb. exact Hd.
Qed.

Lemma text_field_roundtrip_witness :
  (fixed_bytes (lit "AB 1  ") 10 ≫= bytes_to_str) = Ok (str_rstrip (lit "AB 1  ")).
Proof. apply text_field_roundtrip. reflexivity. Defined.

(** X2: whatever bytes a field holds, the text read from it can be written
    to a field of the same width: it has a UTF-8 form, the form is not
    cut, and the text read from the new field is that text without its
    trailing spaces. *)
Theorem decoded_text_packs_again (b : bytes) :
  exists (s : str) (b' : bytes),
    bytes_to_str b = Ok s /\ fits s (len b) = true
    /\ fixed_bytes s (len b) = Ok b' /\ len b' = len b
    /\ bytes_to_str b' = Ok (str_rstrip s).
Proof.
  destruct (bytes_to_str_total b) as [s Hs].
  pose proof (field_decoded b s (len b) Hs eq_refl) as Hf.
  destruct (field_roundtrip_rstrip s (len b) Hf) as (b' & Hb' & Hd).
  exists s, b'. repeat split; try assumption.
  apply (fixed_bytes_length s (len b) b'); [unfold len; lia | exact Hb'].
Qed.

(** X3: [fixed_bytes] raises on no text of Unicode scalar values, whatever
    its length and the width, and raises [UnicodeEncodeError] on every
    text that holds a surrogate. *)
Theorem fixed_bytes_raises_on_surrogates_only (s : str) (w : Z) :
  (Forall (fun ch => 0 <= ch <= 0x10FFFF /\ is_surrogate ch = false) s ->
   is_Ok (fixed_bytes s w))
  /\ (forall ch, ch ∈ s -> is_surrogate ch = true ->
      fixed_bytes s w = Raise UnicodeEncodeError).
Proof.
  split.
  - intros Hs. apply fixed_bytes_encodable. now apply utf8_encode_scalars.
  - intros ch Hin Hs. unfold fixed_bytes.
    now rewrite (utf8_encode_surrogate s ch Hin Hs).
Qed.

Lemma fixed_bytes_raises_on_surrogates_only_witness :
  is_Ok (fixed_bytes (lit "Toyota Motor Corp. " ++ [0xE9]) 20)
  /\ fixed_bytes [0x41; 0xD800] 10 = Raise UnicodeEncodeError.
Proof.
  split.
  - apply (fixed_bytes_raises_on_surrogates_only _ 20).
    repeat constructor; vm_compute; congruence.
  - apply (proj2 (fixed_bytes_raises_on_surrogates_only [0x41; 0xD800] 10) 0xD800);
      [right; left | reflexivity].
Defined.

(** X4: what [pack] yields is exactly one record long: 95 bytes for a car,
    138 for a customer, 68 for a contract. *)
Theorem pack_record_size :
  (forall (c : Car.t) (p : bytes), Car.pack c = Ok p -> length p = 95%nat)
  /\ (forall (c : Customer.t) (p : bytes),
        Customer.pack c = Ok p -> length p = 138%nat)
  /\ (forall (c : Contract.t) (p : bytes),
        Contract.pack c = Ok p -> length p = 68%nat).
Proof.
  split; [exact Car_pack_length |].
  split; [exact Customer_pack_length | exact Contract_pack_length].
Qed.

Lemma pack_record_size_witness :
  length block_long_brand = 95%nat /\ length block_U001 = 138%nat.
Proof.
  destruct pack_record_size as (Hcar & Hcust & _). split.
  - apply (Hcar car_long_brand). vm_compute. reflexivity.
  - apply (Hcust customer_U001). vm_compute. reflexivity.
Defined.

Lemma struct_unpack_wrong_size (fmt : list fmt_item) (b : bytes) :
  length b <> calcsize fmt -> struct_unpack fmt b = Raise StructError.
Proof. intros Hne. unfold struct_unpack. now rewrite decide_False. Qed.

(** X5: [unpack] takes every block of the record size, whatever bytes it
    holds, and the record it yields is within the bounds of every field;
    on a block of any other length it raises [struct.error]. *)
Theorem unpack_accepts_record_size (b : bytes) :
  (length b = CAR_RECORD_SIZE ->
   exists c, Car.unpack b = Ok c /\ Car_in_bounds c = true)
  /\ (length b <> CAR_RECORD_SIZE -> Car.unpack b = Raise StructError)
  /\ (length b = CUST_RECORD_SIZE ->
      exists c, Customer.unpack b = Ok c /\ Customer_in_bounds c = true)
  /\ (length b <> CUST_RECORD_SIZE -> Customer.unpack b = Raise StructError)
  /\ (length b = CONTRACT_RECORD_SIZE ->
      exists c, Contract.unpack b = Ok c /\ Contract_in_bounds c = true)
  /\ (length b <> CONTRACT_RECORD_SIZE -> Contract.unpack b = Raise StructError).
Proof.
  repeat split.
  - apply Car_unpack_spec.
  - intros Hne. unfold Car.unpack. now rewrite struct_unpack_wrong_size.
  - apply Customer_unpack_spec.
  - intros Hne. unfold Customer.unpack. now rewrite struct_unpack_wrong_size.
  - apply Contract_unpack_spec.
  - intros Hne. unfold Contract.unpack. now rewrite struct_unpack_wrong_size.
Qed.

Lemma unpack_accepts_record_size_witness :
  (exists c, Car.unpack (replicate 95 xff) = Ok c /\ Car_in_bounds c = true)
  /\ Car.unpack (replicate 94 xff) = Raise StructError.
Proof.
  split.
  - apply (unpack_accepts_record_size (replicate 95 xff)). reflexivity.
  - apply (unpack_accepts_record_size (replicate 94 xff)). vm_compute. lia.
Defined.

(** X6: [Car.pack] succeeds exactly when every text has a UTF-8 form, the
    year is an unsigned 32-bit number and the rate a float; a text wider
    than its field does not make it fail. *)
Theorem Car_pack_succeeds_iff (c : Car.t) :
  is_Ok (Car.pack c) <->
  is_Ok (utf8_encode (Car.car_id c)) /\ is_Ok (utf8_encode (Car.plate c))
  /\ is_Ok (utf8_encode (Car.brand c)) /\ is_Ok (utf8_encode (Car.model c))
  /\ is_Ok (utf8_encode (Car.status c)) /\ is_Ok (utf8_encode (Car.rented c))
  /\ is_uint32 (Car.year c) = true /\ is_float (Car.price_per_day c) = true.
Proof.
  destruct c as [i p br m y pr st r].
  cbn [Car.car_id Car.plate Car.brand Car.model Car.year Car.price_per_day
       Car.status Car.rented]. unfold Car.pack.
  cbn [Car.car_id Car.plate Car.brand Car.model Car.year Car.price_per_day
       Car.status Car.rented].
  rewrite <- !(fixed_bytes_encodable i 10), <- !(fixed_bytes_encodable p 10),
    <- !(fixed_bytes_encodable br 20), <- !(fixed_bytes_encodable m 30),
    <- !(fixed_bytes_encodable st 10), <- !(fixed_bytes_encodable r 3).
  split.
  - intros [blk H]. inv_bind H.
    repeat (split; [eexists; eassumption |]).
    apply struct_pack_items in H. split.
    + apply pack_item_I_range.
      apply (Forall2_lookup_lr _ _ _ 4%nat FI (Vint y) H); reflexivity.
    + apply pack_item_d_range.
      apply (Forall2_lookup_lr _ _ _ 5%nat Fd (Vfloat pr) H); reflexivity.
  - intros ([b0 H0] & [b1 H1] & [b2 H2] & [b3 H3] & [b6 H6] & [b7 H7] & Hy & Hp).
    rewrite H0, H1, H2, H3, H6, H7. cbn [mbind result_bind].
    destruct (struct_pack_unpack CAR_STRUCT_FMT
                [Vbytes b0; Vbytes b1; Vbytes b2; Vbytes b3; Vint y; Vfloat pr;
                 Vbytes b6; Vbytes b7]) as (blk & Hblk & _); [| now exists blk].
    unfold is_uint32, is_float in *.
    repeat constructor; cbn [item_ok]; try lia;
      match goal with
      | |- length ?b = ?n =>
          match goal with
          | H : fixed_bytes _ ?w = Ok b |- _ =>
              pose proof (fixed_bytes_length _ w b ltac:(lia) H) as Hl;
              unfold len in Hl; lia
          end
      end.
Qed.

Lemma Car_pack_succeeds_iff_witness :
  Car.pack car_bad_year = Raise StructError /\ is_Ok (Car.pack car_long_brand).
Proof.
  split; [reflexivity |].
  apply Car_pack_succeeds_iff. repeat split; eexists; reflexivity.
Defined.

(** X7: for every record within the bounds of its fields, [unpack] of
    [pack] is the record with the trailing spaces of each text removed;
    the numbers come back as they were. *)
Theorem pack_unpack_strips_trailing_spaces :
  (forall c : Car.t,
     Car_in_bounds c = true ->
     (Car.pack c ≫= Car.unpack) = Ok (Car_rstrip c))
  /\ (forall c : Customer.t,
        Customer_in_bounds c = true ->
        (Customer.pack c ≫= Customer.unpack) = Ok (Customer_rstrip c))
  /\ (forall c : Contract.t,
        Contract_in_bounds c = true ->
        (Contract.pack c ≫= Contract.unpack) = Ok (Contract_rstrip c)).
Proof.
  repeat split; intros c Hb.
  - destruct (Car_pack_unpack_rstrip c Hb) as (p & -> & Hu). exact Hu.
  - destruct (Customer_pack_unpack_rstrip c Hb) as (p & -> & Hu). exact Hu.
  - destruct (Contract_pack_unpack_rstrip c Hb) as (p & -> & Hu). exact Hu.
Qed.

Lemma pack_unpack_strips_trailing_spaces_witness :
  (Car.pack car_spaces ≫= Car.unpack) = Ok (Car_rstrip car_spaces).
Proof.
  destruct pack_unpack_strips_trailing_spaces as (Hcar & _).
  apply Hcar. reflexivity.
Defined.

(** X8: writing a car record back from what it decodes to settles after
    one step: the block packed from the decoded record decodes to a record
    that packs to the same block. *)
Theorem Car_repack_stable (b : bytes) :
  length b = CAR_RECORD_SIZE ->
  exists (c : Car.t) (p : bytes) (c' : Car.t),
    Car.unpack b = Ok c /\ Car.pack c = Ok p /\ length p = CAR_RECORD_SIZE
    /\ Car.unpack p = Ok c' /\ Car.pack c' = Ok p.
Proof.
  intros Hb. destruct (Car_unpack_spec b Hb) as (c & Hc & Hbounds).
  destruct (Car_pack_unpack_rstrip c Hbounds) as (p & Hp & Hu).
  exists c, p, (Car_rstrip c). repeat split; try assumption.
  - now apply Car_pack_length with c.
  - now rewrite Car_pack_rstrip.
Qed.

Lemma Car_repack_stable_witness :
  exists (c : Car.t) (p : bytes) (c' : Car.t),
    Car.unpack block_long_brand = Ok c /\ Car.pack c = Ok p
    /\ length p = CAR_RECORD_SIZE
    /\ Car.unpack p = Ok c' /\ Car.pack c' = Ok p.
Proof. apply Car_repack_stable. reflexivity. Defined.

(** ** The flat file, further *)

Lemma iterate_raw_split (self : BinaryRepository) (w : fs) (data : bytes) :
  (0 < recsize self)%nat ->
  w !! filename self = Some data ->
  exists (raw : list bytes) (tail : bytes),
    iterate_raw self w = Ok raw
    /\ data = concat raw ++ tail
    /\ Forall (fun b => length b = recsize self) raw
    /\ (length tail < recsize self)%nat
    /\ length raw = (length data / recsize self)%nat.
Proof.
  intros Hpos Hw. unfold iterate_raw. rewrite Hw.
  set (raw := read_blocks (S (length data)) (recsize self) data).
  destruct (read_blocks_split (S (length data)) (recsize self) data Hpos)
    as (tail & Hd & Ht); [lia |]. fold raw in Hd.
  pose proof (read_blocks_Forall (S (length data)) (recsize self) data) as Hall.
  fold raw in Hall.
  exists raw, tail. repeat split; try assumption.
  assert (Hlen : length data = (length raw * recsize self + length tail)%nat).
  { rewrite <- (concat_length_sized _ _ Hall), <- length_app. now f_equal. }
  apply Nat.div_unique with (length tail); lia.
Qed.

(** X9: the records read are the whole blocks of the file in their order;
    what is left after the last whole block, fewer bytes than one record,
    is passed over without an error. *)
Theorem iterate_raw_whole_blocks (self : BinaryRepository) (w : fs) (data : bytes) :
  (0 < recsize self)%nat ->
  w !! filename self = Some data ->
  exists (raw : list bytes) (tail : bytes),
    iterate_raw self w = Ok raw
    /\ data = concat raw ++ tail
    /\ Forall (fun b => length b = recsize self) raw
    /\ (length tail < recsize self)%nat
    /\ length raw = (length data / recsize self)%nat.
Proof. apply iterate_raw_split. Qed.

Lemma iterate_raw_whole_blocks_witness :
  exists (raw : list bytes) (tail : bytes),
    iterate_raw cars_dat (<["cars.dat"%string := block_C001 ++ [x41; x42]]> ∅)
    = Ok raw
    /\ block_C001 ++ [x41; x42] = concat raw ++ tail
    /\ Forall (fun b => length b = recsize cars_dat) raw
    /\ (length tail < recsize cars_dat)%nat
    /\ length raw = (length (block_C001 ++ [x41; x42]) / recsize cars_dat)%nat.
Proof.
  apply iterate_raw_whole_blocks; [cbn; lia | reflexivity].
Defined.

(** X10: once the repository is made its file exists and reading it does
    not raise: a file that was there keeps its content, a missing one is
    made empty and reads as no records, and no other path changes; read
    without that, a missing file raises [FileNotFoundError]. *)
Theorem init_then_read (f : string) (record_size : nat) (w : fs) :
  let self := fst (BinaryRepository_init f record_size w) in
  let w' := snd (BinaryRepository_init f record_size w) in
  (forall data, w !! f = Some data -> w' = w)
  /\ (w !! f = None ->
      w' !! f = Some [] /\ read_all_raw self w' = Ok []
      /\ read_all_raw self w = Raise FileNotFoundError)
  /\ is_Ok (read_all_raw self w')
  /\ (forall g, g <> f -> w' !! g = w !! g).
Proof.
  unfold BinaryRepository_init. cbn [fst snd].
  unfold read_all_raw, iterate_raw. cbn [filename recsize].
  destruct (w !! f) as [data |] eqn:Hw.
  - repeat split; try discriminate.
    rewrite Hw. eexists; reflexivity.
  - repeat split; try discriminate.
    + apply lookup_insert_eq.
    + rewrite lookup_insert_eq. f_equal. apply read_blocks_nil.
    + rewrite lookup_insert_eq. eexists; reflexivity.
    + intros g Hg. now apply lookup_insert_ne.
Qed.

Lemma init_then_read_witness :
  (∅ : fs) !! "cars.dat"%string = None
  /\ snd (BinaryRepository_init "cars.dat" CAR_RECORD_SIZE ∅) !! "cars.dat"%string
     = Some []
  /\ read_all_raw (fst (BinaryRepository_init "cars.dat" CAR_RECORD_SIZE ∅))
       (snd (BinaryRepository_init "cars.dat" CAR_RECORD_SIZE ∅)) = Ok []
  /\ read_all_raw (fst (BinaryRepository_init "cars.dat" CAR_RECORD_SIZE ∅)) ∅
     = Raise FileNotFoundError.
Proof.
  split; [reflexivity |].
  destruct (init_then_read "cars.dat" CAR_RECORD_SIZE ∅) as (_ & H & _).
  exact (H eq_refl).
Defined.

Lemma delete_tmp_other (f g : string) (w : fs) (v : bytes) :
  g <> f -> g <> (f +:+ ".tmp")%string ->
  (<[f := v]> (delete (f +:+ ".tmp")%string w)) !! g = w !! g.
Proof.
  intros Hf Ht. rewrite lookup_insert_ne by congruence.
  now rewrite lookup_delete_ne by congruence.
Qed.

(** X11: after [overwrite_all_raw] the file reads back as the records
    given, when each is one record long; the temporary file is gone and no
    other path has changed. *)
Theorem overwrite_then_read (self : BinaryRepository) (records : list bytes) (w : fs) :
  (0 < recsize self)%nat ->
  Forall (fun b => length b = recsize self) records ->
  exists w', overwrite_all_raw self records w = (Ok tt, w')
             /\ read_all_raw self w' = Ok records
             /\ w' !! (filename self +:+ ".tmp")%string = None
             /\ (forall g, g <> filename self ->
                           g <> (filename self +:+ ".tmp")%string ->
                           w' !! g = w !! g).
Proof.
  intros Hpos Hall. eexists. split; [apply overwrite_all_raw_ok |].
  repeat split.
  - apply (read_all_raw_whole self _ records []); try assumption.
    rewrite app_nil_r. apply lookup_insert_eq.
  - rewrite lookup_insert_ne by (intros Heq; symmetry in Heq; now apply tmp_ne in Heq).
    apply lookup_delete_eq.
  - intros g Hf Ht. now apply delete_tmp_other.
Qed.

Lemma overwrite_then_read_witness :
  exists w', overwrite_all_raw cars_dat [block_C002; block_C001] two_cars = (Ok tt, w')
             /\ read_all_raw cars_dat w' = Ok [block_C002; block_C001]
             /\ w' !! (filename cars_dat +:+ ".tmp")%string = None
             /\ (forall g, g <> filename cars_dat ->
                           g <> (filename cars_dat +:+ ".tmp")%string ->
                           w' !! g = two_cars !! g).
Proof.
  apply overwrite_then_read; [cbn; lia |].
  repeat constructor.
Defined.

(** ** Listing and finding *)

Section MoreRepositoryFacts.
Context {E : Type} {ent : Entity E} {laws : EntityLaws E}.

(** X12: [all] does not raise once the file exists, whatever bytes it
    holds, and yields one entity for each whole record, in file order. *)
Theorem all_decodes_every_record (self : BinaryRepository) (w : fs) (data : bytes) :
  recsize self = record_size ->
  w !! filename self = Some data ->
  exists (raw : list bytes) (cs : list E),
    read_all_raw self w = Ok raw /\ Repository_all self w = Ok cs
    /\ Forall2 (fun b c => unpack b = Ok c) raw cs
    /\ length cs = (length data / record_size)%nat.
Proof.
  intros Hrs Hw.
  destruct (iterate_raw_split self w data) as (raw & tail & Hraw & _ & _ & _ & Hl);
    [rewrite Hrs; apply record_size_pos | exact Hw |].
  destruct (Repository_all_decodes self w raw Hrs Hraw) as (cs & Hcs & Hdec).
  exists raw, cs. repeat split; try assumption.
  rewrite <- (Forall2_length _ _ _ Hdec), Hl, Hrs. reflexivity.
Qed.

(** X13: [find] yields the first record, in file order, that decodes to
    the identity, also when later records decode to it too; when none
    does it yields [None]. *)
Theorem find_returns_first_match (self : BinaryRepository) (id : str) (w : fs)
    (raw : list bytes) :
  recsize self = record_size ->
  read_all_raw self w = Ok raw ->
  (forall (l1 l2 : list bytes) (b : bytes),
     raw = l1 ++ b :: l2 -> matching id l1 = [] -> has_id id b = true ->
     exists c, unpack b = Ok c /\ ident c = id
               /\ Repository_find self id w = Ok (Some c))
  /\ (matching id raw = [] -> Repository_find self id w = Ok None).
Proof.
  intros Hrs Hraw. split.
  - intros l1 l2 b -> Hnone Hb. unfold has_id in Hb.
    destruct (unpack b) as [c |] eqn:Hc; [| discriminate].
    apply bool_decide_eq_true in Hb. exists c. repeat split; try assumption.
    apply (Repository_find_first self id w l1 l2 b c); try assumption.
    now apply filter_nil_Forall.
  - intros Hnone. now apply (Repository_find_None self id w raw).
Qed.
End MoreRepositoryFacts.

Lemma all_decodes_every_record_witness :
  exists (raw : list bytes) (cs : list Car.t),
    read_all_raw cars_dat two_cars = Ok raw
    /\ Repository_all cars_dat two_cars = Ok cs
    /\ Forall2 (fun b c => Car.unpack b = Ok c) raw cs
    /\ length cs = (length (block_C001 ++ block_C002) / CAR_RECORD_SIZE)%nat.
Proof.
  apply (all_decodes_every_record (ent := Car_entity) cars_dat two_cars);
    reflexivity.
Defined.

Lemma find_returns_first_match_witness :
  exists c, Car.unpack block_C001 = Ok c /\ Car.car_id c = lit "C001"
            /\ Repository_find (E := Car.t) cars_dat (lit "C001")
                 (<["cars.dat"%string := block_C002 ++ block_C001
                                         ++ block_C001_rented]> ∅)
               = Ok (Some c).
Proof.
  destruct (find_returns_first_match (ent := Car_entity) cars_dat (lit "C001")
              (<["cars.dat"%string := block_C002 ++ block_C001
                                      ++ block_C001_rented]> ∅)
              [block_C002; block_C001; block_C001_rented])
    as [Hfirst _]; [reflexivity | reflexivity |].
  apply (Hfirst [block_C002] [block_C001_rented] block_C001);
    vm_compute; reflexivity.
Defined.

(** ** Adding and updating, further *)

Section AddUpdateTheorems.
Context {E : Type} {ent : Entity E} {laws : EntityLaws E}.

(** X14: on a file of whole records none of which carries the identity,
    [add] answers [True] and the encoding of the entity is the new last
    record; the records before it are the bytes they were and no other
    file changes. *)
Theorem add_appends_record (self : BinaryRepository) (e : E) (p : bytes)
    (w : fs) (raw : list bytes) :
  recsize self = record_size ->
  w !! filename self = Some (concat raw) ->
  Forall (fun b => length b = record_size) raw ->
  matching (ident e) raw = [] ->
  pack e = Ok p ->
  exists w',
    Repository_add self e w = (Ok true, w')
    /\ read_all_raw self w = Ok raw
    /\ read_all_raw self w' = Ok (raw ++ [p])
    /\ (forall g, g <> filename self -> w' !! g = w !! g).
Proof.
  intros Hrs Hw Hall Hnone Hp.
  destruct (Repository_add_whole self e p w raw Hrs Hw Hall Hnone Hp)
    as (Hraw & Hadd & Hread).
  eexists. split; [exact Hadd |]. repeat split; try assumption.
  intros g Hg. now apply lookup_insert_ne.
Qed.

(** X15: when the identity of the entity comes back from its encoding,
    a first [add] that succeeds is followed by a [find] that yields the
    record and by a second [add] that answers [False] and changes
    nothing. *)
Theorem add_twice_rejected (self : BinaryRepository) (e c : E) (p : bytes)
    (w : fs) (raw : list bytes) :
  recsize self = record_size ->
  w !! filename self = Some (concat raw) ->
  Forall (fun b => length b = record_size) raw ->
  matching (ident e) raw = [] ->
  pack e = Ok p -> unpack p = Ok c -> ident c = ident e ->
  exists w',
    Repository_add self e w = (Ok true, w')
    /\ Repository_find self (ident e) w' = Ok (Some c)
    /\ Repository_add self e w' = (Ok false, w').
Proof.
  intros Hrs Hw Hall Hnone Hp Hc Hid.
  destruct (Repository_add_whole self e p w raw Hrs Hw Hall Hnone Hp)
    as (Hraw & Hadd & Hread).
  eexists. split; [exact Hadd |].
  assert (Hfind : Repository_find self (ident e)
                    (<[filename self := concat raw ++ p]> w) = Ok (Some c)).
  { apply (Repository_find_first self (ident e) _ raw [] p c); try assumption.
    now apply filter_nil_Forall. }
  split; [exact Hfind |]. unfold Repository_add. now rewrite Hfind.
Qed.

(** X16: [add] keeps the identities of a store distinct: on a file of
    whole records that decode to distinct identities, and for an entity
    whose identity comes back from its encoding, the records decode to
    distinct identities after [add], whatever it answers. *)
Theorem add_keeps_ids_unique (self : BinaryRepository) (e : E) (p : bytes)
    (w : fs) (raw : list bytes) :
  recsize self = record_size ->
  w !! filename self = Some (concat raw) ->
  Forall (fun b => length b = record_size) raw ->
  NoDup (stored_ids raw) ->
  pack e = Ok p -> has_id (ident e) p = true ->
  exists (r : bool) (w' : fs) (raw' : list bytes),
    Repository_add self e w = (Ok r, w')
    /\ read_all_raw self w' = Ok raw'
    /\ NoDup (stored_ids raw').
Proof.
  intros Hrs Hw Hall Hnd Hp Hid.
  destruct (matching (ident e) raw) as [| b0 m] eqn:Hm.
  - destruct (Repository_add_whole self e p w raw Hrs Hw Hall Hm Hp)
      as (Hraw & Hadd & Hread).
    exists true, (<[filename self := concat raw ++ p]> w), (raw ++ [p]).
    repeat split; try assumption.
    rewrite stored_ids_app. apply NoDup_app. split; [exact Hnd |].
    apply has_id_true in Hid as (c & Hc & Hidc).
    unfold stored_ids at 2. cbn. rewrite Hc, Hidc. split.
    + intros id Hin Hin'. apply list_elem_of_singleton in Hin'. subst id.
      now apply (stored_ids_matching (ident e) raw Hm).
    + apply NoDup_singleton.
  - assert (Hraw : read_all_raw self w = Ok raw)
      by apply (read_all_raw_overwritten self raw w Hrs Hall Hw).
    exists false, w, raw. repeat split; try assumption.
    apply (Repository_add_duplicate self e w raw Hrs Hraw). now rewrite Hm.
Qed.

(** X17: [update] puts the encoding of the new entity in the place of
    every record that carries the identity, not of the first only; the
    other records and the number of records stay. *)
Theorem update_replaces_every_match (self : BinaryRepository) (id : str) (new : E)
    (p : bytes) (w : fs) (raw : list bytes) :
  recsize self = record_size ->
  read_all_raw self w = Ok raw ->
  matching id raw <> [] ->
  pack new = Ok p ->
  exists w',
    Repository_update self id new w = (Ok true, w')
    /\ read_all_raw self w'
       = Ok (map (fun b => if has_id id b then p else b) raw)
    /\ length (map (fun b => if has_id id b then p else b) raw) = length raw.
Proof.
  intros Hrs Hraw Hsome Hp.
  destruct (Repository_update_all self id new p w raw Hrs Hraw Hsome Hp)
    as (Hu & Hall).
  eexists. split; [exact Hu |]. split; [| apply length_map].
  apply (read_all_raw_overwritten self _ _ Hrs Hall). apply lookup_insert_eq.
Qed.

(** X18: when the new entity has no encoding and a record carries the
    identity, [update] raises what [pack] raises, before anything is
    written: the files are what they were. *)
Theorem update_raises_before_writing (self : BinaryRepository) (id : str) (new : E)
    (x : exn) (w : fs) (raw : list bytes) :
  recsize self = record_size ->
  read_all_raw self w = Ok raw ->
  matching id raw <> [] ->
  pack new = Raise x ->
  Repository_update self id new w = (Raise x, w).
Proof.
  intros Hrs Hraw Hsome Hp.
  pose proof (read_all_raw_blocks self w raw Hraw) as Hall. rewrite Hrs in Hall.
  unfold Repository_update. rewrite Hraw.
  rewrite (update_loop_raises id new x) by
    (try assumption; now apply filter_nonempty_existsb).
  reflexivity.
Qed.
End AddUpdateTheorems.

Lemma add_appends_record_witness :
  exists w',
    Repository_add cars_dat car_C002 (<["cars.dat"%string := concat [block_C001]]> ∅)
    = (Ok true, w')
    /\ read_all_raw cars_dat (<["cars.dat"%string := concat [block_C001]]> ∅)
       = Ok [block_C001]
    /\ read_all_raw cars_dat w' = Ok ([block_C001] ++ [block_C002])
    /\ (forall g, g <> filename cars_dat ->
        w' !! g = (<["cars.dat"%string := concat [block_C001]]> ∅ : fs) !! g).
Proof.
  apply (add_appends_record (ent := Car_entity) cars_dat car_C002 block_C002);
    try reflexivity.
  repeat constructor.
Defined.

Lemma add_twice_rejected_witness :
  exists w',
    Repository_add cars_dat car_C002 (<["cars.dat"%string := concat [block_C001]]> ∅)
    = (Ok true, w')
    /\ Repository_find cars_dat (Car.car_id car_C002) w' = Ok (Some car_C002)
    /\ Repository_add cars_dat car_C002 w' = (Ok false, w').
Proof.
  apply (add_twice_rejected (ent := Car_entity) cars_dat car_C002 car_C002
           block_C002 _ [block_C001]); try reflexivity.
  repeat constructor.
Defined.

Lemma add_keeps_ids_unique_witness :
  exists (r : bool) (w' : fs) (raw' : list bytes),
    Repository_add cars_dat car_C002 (<["cars.dat"%string := concat [block_C001]]> ∅)
    = (Ok r, w')
    /\ read_all_raw cars_dat w' = Ok raw'
    /\ NoDup (stored_ids (E := Car.t) raw').
Proof.
  apply (add_keeps_ids_unique (ent := Car_entity) cars_dat car_C002 block_C002
           _ [block_C001]); try reflexivity.
  - repeat constructor.
  - vm_compute. apply NoDup_singleton.
Defined.

Lemma update_replaces_every_match_witness :
  exists w',
    Repository_update cars_dat (lit "C001") car_C001_rented
      (<["cars.dat"%string := block_C001 ++ block_C002 ++ block_C001]> ∅)
    = (Ok true, w')
    /\ read_all_raw cars_dat w'
       = Ok (map (fun b => if has_id (E := Car.t) (lit "C001") b
                           then block_C001_rented else b)
               [block_C001; block_C002; block_C001])
    /\ length (map (fun b => if has_id (E := Car.t) (lit "C001") b
                             then block_C001_rented else b)
                 [block_C001; block_C002; block_C001])
       = length [block_C001; block_C002; block_C001].
Proof.
  apply (update_replaces_every_match (ent := Car_entity)); try reflexivity.
  vm_compute. discriminate.
Defined.

Lemma update_raises_before_writing_witness :
  Repository_update cars_dat (lit "C001") car_bad_year two_cars
  = (Raise StructError, two_cars).
Proof.
  apply (update_raises_before_writing (ent := Car_entity) cars_dat (lit "C001")
           car_bad_year StructError two_cars [block_C001; block_C002]);
    try reflexivity.
  vm_compute. discriminate.
Defined.

Section UpdateThenFind.
Context {E : Type} {ent : Entity E} {laws : EntityLaws E}.

(** X19: after an [update] under an identity that the encoding of the new
    entity decodes to, [find] of that identity yields what the encoding
    decodes to. *)
Theorem update_then_find (self : BinaryRepository) (id : str) (new c' : E)
    (p : bytes) (w : fs) (raw : list bytes) :
  recsize self = record_size ->
  read_all_raw self w = Ok raw ->
  matching id raw <> [] ->
  pack new = Ok p -> unpack p = Ok c' -> ident c' = id ->
  exists w',
    Repository_update self id new w = (Ok true, w')
    /\ Repository_find self id w' = Ok (Some c').
Proof.
  intros Hrs Hraw Hsome Hp Hc Hid.
  destruct (Repository_update_all self id new p w raw Hrs Hraw Hsome Hp)
    as (Hu & Hall).
  eexists. split; [exact Hu |].
  destruct (filter_first_split _ _ Hsome) as (l1 & b & l2 & -> & Hb & H1).
  rewrite map_app in *. cbn [map] in *. rewrite Hb in *.
  rewrite (map_if_none _ (fun _ => p) l1 H1) in *.
  eapply (Repository_find_first self id _ l1 _ p c' Hrs); try eassumption.
  apply (read_all_raw_overwritten self _ _ Hrs Hall), lookup_insert_eq.
Qed.
End UpdateThenFind.

Lemma update_then_find_witness :
  exists w',
    Repository_update cars_dat (lit "C001") car_C001_rented two_cars = (Ok true, w')
    /\ Repository_find cars_dat (lit "C001") w' = Ok (Some car_C001_rented).
Proof.
  apply (update_then_find (ent := Car_entity) cars_dat (lit "C001")
           car_C001_rented car_C001_rented block_C001_rented two_cars
           [block_C001; block_C002]); try reflexivity.
  vm_compute. discriminate.
Defined.

(** ** Soft delete, further *)

Lemma Forall2_mark_block (car_id : str) (raw : list bytes) :
  Forall (fun b => length b = CAR_RECORD_SIZE) raw ->
  Forall2 (fun b b' => if has_id (E := Car.t) car_id b
                       then marked b = Ok b' else b' = b)
          raw (map (mark_block car_id) raw).
Proof.
  induction 1 as [| b raw Hb _ IH]; cbn [map]; constructor; [| exact IH].
  unfold mark_block. destruct (has_id (E := Car.t) car_id b); [| reflexivity].
  destruct (marked_block b Hb) as (c & p & _ & _ & _ & Hm & _). now rewrite Hm.
Qed.

(** X20: [mark_deleted] raises on no store whose file exists, whatever
    bytes it holds: it answers whether a record carries the identity, the
    number of records stays, every record that carries the identity is
    written back from what it decodes to with the status [Deleted], and
    every other record is the bytes it was. *)
Theorem mark_deleted_never_raises (self : BinaryRepository) (car_id : str)
    (w : fs) (raw : list bytes) :
  recsize self = CAR_RECORD_SIZE ->
  read_all_raw self w = Ok raw ->
  exists (w' : fs) (raw' : list bytes),
    CarRepository.mark_deleted self car_id w
    = (Ok (existsb (has_id (E := Car.t) car_id) raw), w')
    /\ read_all_raw self w' = Ok raw'
    /\ Forall2 (fun b b' => if has_id (E := Car.t) car_id b
                            then marked b = Ok b' else b' = b) raw raw'.
Proof.
  intros Hrs Hraw.
  pose proof (read_all_raw_blocks self w raw Hraw) as Hall. rewrite Hrs in Hall.
  rewrite (mark_deleted_run self car_id w raw Hrs Hraw).
  destruct (existsb (has_id (E := Car.t) car_id) raw) eqn:Hex.
  - eexists _, (map (mark_block car_id) raw). split; [reflexivity |]. split.
    + apply (read_all_raw_overwritten (ent := Car_entity) self _ _ Hrs);
        [| apply lookup_insert_eq].
      apply Forall_map, Forall_forall. intros b Hb. apply mark_block_length.
      rewrite Forall_forall in Hall. now apply Hall.
    + now apply Forall2_mark_block.
  - exists w, raw. repeat split; [exact Hraw |].
    pose proof (Forall2_mark_block car_id raw Hall) as HF.
    replace (map (mark_block car_id) raw) with raw in HF; [exact HF |].
    clear HF Hraw Hall. induction raw as [| b raw IH]; [reflexivity |].
    cbn [existsb map] in *. apply orb_false_elim in Hex as [Hb Hex].
    unfold mark_block at 1. rewrite Hb. f_equal. now apply IH.
Qed.

Lemma mark_deleted_never_raises_witness :
  exists (w' : fs) (raw' : list bytes),
    CarRepository.mark_deleted cars_dat (lit "C001") long_brand_store
    = (Ok (existsb (has_id (E := Car.t) (lit "C001")) [block_long_brand]), w')
    /\ read_all_raw cars_dat w' = Ok raw'
    /\ Forall2 (fun b b' => if has_id (E := Car.t) (lit "C001") b
                            then marked b = Ok b' else b' = b)
               [block_long_brand] raw'.
Proof. apply mark_deleted_never_raises; reflexivity. Defined.

(** X21: [mark_deleted] twice is [mark_deleted] once: the second call
    leaves every file as the first left it. *)
Theorem mark_deleted_twice (self : BinaryRepository) (car_id : str)
    (w : fs) (raw : list bytes) :
  recsize self = CAR_RECORD_SIZE ->
  read_all_raw self w = Ok raw ->
  exists (r1 r2 : bool) (w' : fs),
    CarRepository.mark_deleted self car_id w = (Ok r1, w')
    /\ CarRepository.mark_deleted self car_id w' = (Ok r2, w').
Proof.
  intros Hrs Hraw.
  pose proof (read_all_raw_blocks self w raw Hraw) as Hall. rewrite Hrs in Hall.
  rewrite (mark_deleted_run self car_id w raw Hrs Hraw).
  destruct (existsb (has_id (E := Car.t) car_id) raw) eqn:Hex.
  - set (out := map (mark_block car_id) raw).
    set (w' := <[filename self := concat out]>
                 (delete (filename self +:+ ".tmp")%string w)).
    assert (Hout : Forall (fun b => length b = CAR_RECORD_SIZE) out).
    { apply Forall_map, Forall_forall. intros b Hb. apply mark_block_length.
      rewrite Forall_forall in Hall. now apply Hall. }
    assert (Hread : read_all_raw self w' = Ok out).
    { apply (read_all_raw_overwritten (ent := Car_entity) self _ _ Hrs Hout).
      apply lookup_insert_eq. }
    exists true, (existsb (has_id (E := Car.t) car_id) out), w'.
    split; [reflexivity |].
    rewrite (mark_deleted_run self car_id w' out Hrs Hread).
    destruct (existsb _ out); [| reflexivity]. f_equal.
    assert (Hsame : map (mark_block car_id) out = out).
    { unfold out. rewrite map_map. apply map_ext_Forall.
      eapply Forall_impl; [exact Hall |]. intros b Hb.
      now apply mark_block_idempotent. }
    rewrite Hsame. subst w'.
    rewrite delete_insert_ne by apply tmp_ne.
    now rewrite insert_insert_eq, delete_delete_eq.
  - exists false, false, w. split; [reflexivity |].
    rewrite (mark_deleted_run self car_id w raw Hrs Hraw). now rewrite Hex.
Qed.

Lemma mark_deleted_twice_witness :
  exists (r1 r2 : bool) (w' : fs),
    CarRepository.mark_deleted cars_dat (lit "C001") long_brand_store = (Ok r1, w')
    /\ CarRepository.mark_deleted cars_dat (lit "C001") w' = (Ok r2, w').
Proof.
  apply (mark_deleted_twice cars_dat (lit "C001") long_brand_store
           [block_long_brand]); reflexivity.
Defined.

(** X22: a car marked deleted is still found: when the identity asked
    for does not end in a space and a record carries it, [find] after
    [mark_deleted] yields a record of that identity whose status is
    [Deleted]. *)
Theorem mark_deleted_then_find (self : BinaryRepository) (car_id : str)
    (w : fs) (raw : list bytes) :
  recsize self = CAR_RECORD_SIZE ->
  read_all_raw self w = Ok raw ->
  matching (E := Car.t) car_id raw <> [] ->
  ends_with_space car_id = false ->
  exists (w' : fs) (c' : Car.t),
    CarRepository.mark_deleted self car_id w = (Ok true, w')
    /\ CarRepository.find self car_id w' = Ok (Some c')
    /\ Car.car_id c' = car_id /\ Car.status c' = lit "Deleted".
Proof.
  intros Hrs Hraw Hsome Htrim.
  pose proof (read_all_raw_blocks self w raw Hraw) as Hall. rewrite Hrs in Hall.
  rewrite (mark_deleted_run self car_id w raw Hrs Hraw).
  rewrite (filter_nonempty_existsb _ _ Hsome).
  destruct (filter_first_split _ _ Hsome) as (l1 & b & l2 & -> & Hb & H1).
  assert (Hlb : length b = CAR_RECORD_SIZE).
  { apply Forall_app in Hall as [_ Hl2]. now apply Forall_cons in Hl2 as [? _]. }
  destruct (marked_block b Hlb) as (c & p & Hc & _ & _ & Hm & Hlp & Hup & _).
  assert (Hidc : Car.car_id c = car_id).
  { apply (has_id_true (ent := Car_entity)) in Hb as (c0 & Hc0 & Hid0).
    cbn in Hc0, Hid0. rewrite Hc in Hc0. now injection Hc0 as <-. }
  assert (Hout : map (mark_block car_id) (l1 ++ b :: l2)
                 = l1 ++ p :: map (mark_block car_id) l2).
  { rewrite map_app. cbn [map]. f_equal.
    - clear -H1. induction H1 as [| x l Hx _ IH]; [reflexivity |].
      cbn [map]. unfold mark_block at 1. rewrite Hx. now f_equal.
    - f_equal. unfold mark_block. now rewrite Hb, Hm. }
  eexists _, (Car_rstrip (Car.set_status c (lit "Deleted"))).
  split; [reflexivity |]. split; [| split].
  - apply (Repository_find_first (ent := Car_entity) self car_id _ l1
             (map (mark_block car_id) l2) p _ Hrs); try assumption.
    + rewrite <- Hout.
      apply (read_all_raw_overwritten (ent := Car_entity) self _ _ Hrs);
        [| apply lookup_insert_eq].
      apply Forall_map, Forall_forall. intros x Hx. apply mark_block_length.
      rewrite Forall_forall in Hall. now apply Hall.
    + destruct c. cbn in *. subst. now apply str_rstrip_id.
  - destruct c. cbn in *. subst. now apply str_rstrip_id.
  - destruct c. reflexivity.
Qed.

Lemma mark_deleted_then_find_witness :
  exists (w' : fs) (c' : Car.t),
    CarRepository.mark_deleted cars_dat (lit "C001") long_brand_store = (Ok true, w')
    /\ CarRepository.find cars_dat (lit "C001") w' = Ok (Some c')
    /\ Car.car_id c' = lit "C001" /\ Car.status c' = lit "Deleted".
Proof.
  apply (mark_deleted_then_find cars_dat (lit "C001") long_brand_store
           [block_long_brand]); try reflexivity.
  vm_compute. discriminate.
Defined.

(** ** Hard delete, further *)

(** X23: the hard delete leaves out every record that carries the id, not
    the first only; the others stay in their order, no record of the store
    carries the id afterwards and [find] yields [None]. *)
Theorem delete_customer_removes_every_match (customers : BinaryRepository)
    (cid : str) (w : fs) (raw : list bytes) :
  recsize customers = CUST_RECORD_SIZE ->
  read_all_raw customers w = Ok raw ->
  matching (E := Customer.t) cid raw <> [] ->
  exists w',
    delete_customer customers cid w = (Ok true, w')
    /\ read_all_raw customers w'
       = Ok (List.filter (fun b => negb (has_id (E := Customer.t) cid b)) raw)
    /\ matching (E := Customer.t) cid
         (List.filter (fun b => negb (has_id (E := Customer.t) cid b)) raw) = []
    /\ CustomerRepository.find customers cid w' = Ok None.
Proof.
  intros Hrs Hraw Hsome.
  pose proof (read_all_raw_blocks customers w raw Hraw) as Hall.
  rewrite Hrs in Hall.
  set (out := List.filter (fun b => negb (has_id (E := Customer.t) cid b)) raw).
  assert (Hout : Forall (fun b => length b = CUST_RECORD_SIZE) out).
  { apply Forall_forall. intros b Hb. apply list_elem_of_In, filter_In in Hb as [Hb _].
    rewrite Forall_forall in Hall. apply Hall. now apply list_elem_of_In. }
  exists (<[filename customers := concat out]>
            (delete (filename customers +:+ ".tmp")%string w)).
  assert (Hread : read_all_raw customers
                    (<[filename customers := concat out]>
                       (delete (filename customers +:+ ".tmp")%string w))
                  = Ok out).
  { apply (read_all_raw_overwritten (ent := Customer_entity) customers _ _ Hrs Hout).
    apply lookup_insert_eq. }
  assert (Hnone : matching (E := Customer.t) cid out = [])
    by apply filter_filter_negb.
  repeat split; try assumption.
  - unfold delete_customer. rewrite Hraw.
    rewrite (delete_customer_loop_spec cid raw false [] Hall).
    rewrite (filter_nonempty_existsb _ _ Hsome). cbn [orb app].
    now rewrite overwrite_all_raw_ok.
  - apply (Repository_find_None (ent := Customer_entity) customers cid _ out Hrs
             Hread Hnone).
Qed.

Lemma delete_customer_removes_every_match_witness :
  exists w',
    delete_customer customers_dat (lit "U001")
      (<["customers.dat"%string := block_U001 ++ block_U002 ++ block_U001]> ∅)
    = (Ok true, w')
    /\ read_all_raw customers_dat w'
       = Ok (List.filter (fun b => negb (has_id (E := Customer.t) (lit "U001") b))
               [block_U001; block_U002; block_U001])
    /\ matching (E := Customer.t) (lit "U001")
         (List.filter (fun b => negb (has_id (E := Customer.t) (lit "U001") b))
            [block_U001; block_U002; block_U001]) = []
    /\ CustomerRepository.find customers_dat (lit "U001") w' = Ok None.
Proof.
  apply delete_customer_removes_every_match; try reflexivity.
  vm_compute. discriminate.
Defined.

(** ** What the writers leave alone *)

(** X24: [add], [update], [mark_deleted] and the hard delete change no
    path but the file of their repository and its [.tmp] neighbour,
    whatever they answer or raise: the other stores are not touched. *)
Theorem writers_leave_other_files (self : BinaryRepository) (w : fs) (g : string) :
  g <> filename self -> g <> (filename self +:+ ".tmp")%string ->
  (forall (E : Type) (ent : Entity E) (e : E),
     snd (Repository_add self e w) !! g = w !! g)
  /\ (forall (E : Type) (ent : Entity E) (id : str) (new : E),
        snd (Repository_update self id new w) !! g = w !! g)
  /\ (forall car_id : str,
        snd (CarRepository.mark_deleted self car_id w) !! g = w !! g)
  /\ (forall cid : str, snd (delete_customer self cid w) !! g = w !! g).
Proof.
  intros Hf Ht. repeat split.
  - intros E ent e. unfold Repository_add.
    destruct (Repository_find self (ident e) w) as [[c |] |]; try reflexivity.
    destruct (w !! filename self); destruct (pack e); cbn [snd];
      try reflexivity; now apply lookup_insert_ne.
  - intros E ent id new. unfold Repository_update.
    destruct (read_all_raw self w); [| reflexivity].
    destruct (update_loop id new a false []) as [[[] out] |]; try reflexivity.
    rewrite overwrite_all_raw_ok. cbn [snd]. now apply delete_tmp_other.
  - intros car_id. unfold CarRepository.mark_deleted.
    destruct (read_all_raw self w); [| reflexivity].
    destruct (CarRepository.mark_deleted_loop car_id a false [])
      as [[[] out] |]; try reflexivity.
    rewrite overwrite_all_raw_ok. cbn [snd]. now apply delete_tmp_other.
  - intros cid. unfold delete_customer.
    destruct (read_all_raw self w); [| reflexivity].
    destruct (delete_customer_loop cid a false []) as [[[] out] |];
      try reflexivity.
    rewrite overwrite_all_raw_ok. cbn [snd]. now apply delete_tmp_other.
Qed.

Lemma writers_leave_other_files_witness :
  snd (delete_customer customers_dat (lit "U001")
         (<["contracts.dat"%string := [x01]]> two_customers))
    !! "contracts.dat"%string
  = (<["contracts.dat"%string := [x01]]> two_customers : fs) !! "contracts.dat"%string.
Proof.
  apply (writers_leave_other_files customers_dat
           (<["contracts.dat"%string := [x01]]> two_customers) "contracts.dat");
    discriminate.
Defined.

(** ** Day counting, further *)

(** X25: when the end is not before the start, the day count is the days
    from the start to the end with both counted, one at least; for the
    same day it is 1. *)
Theorem date_diff_days_inclusive (nd : Z -> option Z) (a b : str) (da db : date) :
  parse_date nd a = Ok da -> parse_date nd b = Ok db -> date_lt db da = false ->
  date_diff_days nd a b = Ok (toordinal db - toordinal da + 1)
  /\ 1 <= toordinal db - toordinal da + 1
  /\ date_diff_days nd a a = Ok 1.
Proof.
  intros Ha Hb Hlt.
  pose proof (date_not_lt_le da db (parse_date_valid nd a da Ha)
                (parse_date_valid nd b db Hb) Hlt) as Hle.
  unfold date_diff_days. rewrite Ha, Hb. cbn [mbind result_bind].
  repeat split; [f_equal; lia | lia | f_equal; lia].
Qed.

Lemma date_diff_days_inclusive_witness :
  date_diff_days (fun _ => None) (lit "2024-02-28") (lit "2024-03-01")
  = Ok (toordinal {| date_year := 2024; date_month := 3; date_day := 1 |}
        - toordinal {| date_year := 2024; date_month := 2; date_day := 28 |} + 1)
  /\ 1 <= toordinal {| date_year := 2024; date_month := 3; date_day := 1 |}
          - toordinal {| date_year := 2024; date_month := 2; date_day := 28 |} + 1
  /\ date_diff_days (fun _ => None) (lit "2024-02-28") (lit "2024-02-28") = Ok 1.
Proof.
  apply (date_diff_days_inclusive (fun _ => None) (lit "2024-02-28")
           (lit "2024-03-01")); reflexivity.
Defined.

(** X26: day counts add up: for dates in order, the count from the first
    to the last is the count from the first to the middle one and from
    there to the last, less the one day counted twice. *)
Theorem date_diff_days_additive (nd : Z -> option Z) (a b c : str)
    (da db dc : date) (n1 n2 : Z) :
  parse_date nd a = Ok da -> parse_date nd b = Ok db -> parse_date nd c = Ok dc ->
  date_lt db da = false -> date_lt dc db = false ->
  date_diff_days nd a b = Ok n1 -> date_diff_days nd b c = Ok n2 ->
  date_diff_days nd a c = Ok (n1 + n2 - 1).
Proof.
  intros Ha Hb Hc Hab Hbc.
  pose proof (date_not_lt_le da db (parse_date_valid nd a da Ha)
                (parse_date_valid nd b db Hb) Hab).
  pose proof (date_not_lt_le db dc (parse_date_valid nd b db Hb)
                (parse_date_valid nd c dc Hc) Hbc).
  unfold date_diff_days. rewrite Ha, Hb, Hc. cbn [mbind result_bind].
  intros [= <-] [= <-]. f_equal. lia.
Qed.

Lemma date_diff_days_additive_witness :
  date_diff_days (fun _ => None) (lit "2025-09-20") (lit "2025-10-02") = Ok (6 + 8 - 1).
Proof.
  apply (date_diff_days_additive (fun _ => None) (lit "2025-09-20")
           (lit "2025-09-25") (lit "2025-10-02")
           {| date_year := 2025; date_month := 9; date_day := 20 |}
           {| date_year := 2025; date_month := 9; date_day := 25 |}
           {| date_year := 2025; date_month := 10; date_day := 2 |});
    reflexivity.
Defined.

(** X27: every day of the calendar, written [YYYY-MM-DD] with its digits
    padded by zeros, is read back as that day, whatever the table of the
    other digits; so the day count of two such texts is the clamped
    difference of their ordinals plus one. *)
Theorem parse_date_reads_iso_text (nd : Z -> option Z) (da db : date) :
  valid_date da -> valid_date db ->
  parse_date nd (iso_text da) = Ok da
  /\ date_diff_days nd (iso_text da) (iso_text db)
     = Ok (Z.max 0 (toordinal db - toordinal da + 1)).
Proof.
  intros Ha Hb. split; [now apply parse_date_iso |].
  unfold date_diff_days. now rewrite !parse_date_iso by assumption.
Qed.

Lemma parse_date_reads_iso_text_witness :
  parse_date (fun _ => None)
    (iso_text {| date_year := 2024; date_month := 2; date_day := 29 |})
  = Ok {| date_year := 2024; date_month := 2; date_day := 29 |}
  /\ date_diff_days (fun _ => None)
       (iso_text {| date_year := 2024; date_month := 2; date_day := 29 |})
       (iso_text {| date_year := 2025; date_month := 1; date_day := 1 |})
     = Ok (Z.max 0
             (toordinal {| date_year := 2025; date_month := 1; date_day := 1 |}
              - toordinal {| date_year := 2024; date_month := 2; date_day := 29 |}
              + 1)).
Proof.
  apply parse_date_reads_iso_text; repeat split; vm_compute; discriminate.
Defined.

(** ** Prompts *)

(** X28: what a prompt with a bound accepts is one of the lines typed,
    stripped; it is not empty, its UTF-8 form is within the bound, and,
    the space being white space, it comes back from a field of that width
    as it went in. *)
Theorem input_nonempty_survives_field (ws : Z -> bool) (n : Z)
    (lines : list str) (v : str) (rest : list str) :
  ws 0x20 = true -> n <> 0 ->
  input_nonempty ws (Some n) lines = Answer v rest ->
  (exists (skipped : list str) (line : str),
     lines = skipped ++ line :: rest /\ v = strip ws line)
  /\ v <> [] /\ fits v n = true
  /\ (fixed_bytes v n ≫= bytes_to_str) = Ok v.
Proof.
  intros Hws Hn Hans.
  destruct (input_nonempty_answer ws (Some n) lines v rest Hans)
    as (sk & line & Hl & Hv & Hne & Hfit).
  specialize (Hfit Hn).
  split; [now exists sk, line |]. split; [exact Hne |]. split; [exact Hfit |].
  destruct (field_roundtrip v n Hfit) as (b & Hb & Hd).
  - subst v. now rewrite strip_trimmed.
  - now rewrite Hb.
Qed.

Lemma input_nonempty_survives_field_witness :
  (exists (skipped : list str) (line : str),
     [lit "   "; lit "C0000000001"; lit "  C001 "; lit "x"]
     = skipped ++ line :: [lit "x"]
     /\ lit "C001" = strip (fun c => c =? 0x20) line)
  /\ lit "C001" <> [] /\ fits (lit "C001") 10 = true
  /\ (fixed_bytes (lit "C001") 10 ≫= bytes_to_str) = Ok (lit "C001").
Proof.
  apply (input_nonempty_survives_field (fun c => c =? 0x20) 10
           [lit "   "; lit "C0000000001"; lit "  C001 "; lit "x"]);
    [reflexivity | lia | reflexivity].
Defined.

(** ** Menu operations *)




